(** * NHL player stats tracker: the statistics synchronisation core

    A shallow embedding of the TypeScript sources:

    - [lib/nhlApi.ts], legacy revision (roster endpoint, name or id lookup)
      and current revision (search endpoint, id lookup only):
      [loadAllPlayers], [searchNHLPlayers], [getNHLPlayerStats],
      [getCurrentNHLSeason];
    - [App.tsx], legacy and current revision: [handleUpdatePlayer],
      [handleRefreshStats], [sortedPlayers];
    - [components/PlayerRow.tsx], legacy and current revision: the two
      ratios shown in a row, [handleSave];
    - [components/AddPlayerForm.tsx], current revision: [performSearch],
      [handleSelectPlayer], the clearing of a selection, [handleSubmit];
    - the migration that adds [nhl_player_id].

    Module [Legacy] holds the first revision, module [Current] the one that
    added [nhl_player_id]; what both share comes first.

    Modelling conventions.
    - JavaScript numbers that the program only uses as integers (ids, game
      and point counts, years, epoch milliseconds) are [Z]; the result of a
      division is a [JsNumber], which has NaN and the infinities.  A finite
      quotient is kept exact, where the program has the nearest double; a
      statement that orders quotients says for which figures the doubles
      are ordered in the same way.
    - Strings are [string]; [toLowerCase] and [trim] act on the ASCII range,
      and [localeCompare] is a parameter (the collation of the host).
    - [async] code is sequential here: every [await] is a call that takes
      the world and gives it back.  The world records every request in a
      trace; what the network, the store and the clock answer is an oracle
      over that trace, so an answer may depend on all that happened before.
    - Every [try { ... } catch] here returns a fixed value from its
      [catch]; a step that can throw is a case distinction whose throwing
      branch gives that value, marked [(* catch *)]. *)

From Stdlib Require Import ZArith QArith Lia Ascii String DecimalString.
From Stdlib Require Import Sorting.Sorted Sorting.Permutation.
From stdpp Require Import base list strings sorting.

Open Scope Z_scope.

(** ** JavaScript strings *)

Module Js.

Definition isUpper (c : ascii) : bool :=
  let n := nat_of_ascii c in (65 <=? n)%nat && (n <=? 90)%nat.

Definition lowerChar (c : ascii) : ascii :=
  if isUpper c then ascii_of_nat (nat_of_ascii c + 32) else c.

(** [s.toLowerCase()] *)
Fixpoint toLowerCase (s : string) : string :=
  match s with
  | EmptyString => EmptyString
  | String c s' => String (lowerChar c) (toLowerCase s')
  end.

(** White space and line terminators of the ASCII range. *)
Definition isWhiteSpace (c : ascii) : bool :=
  let n := nat_of_ascii c in
  ((9 <=? n)%nat && (n <=? 13)%nat) || (n =? 32)%nat.

Fixpoint trimStart (s : string) : string :=
  match s with
  | EmptyString => EmptyString
  | String c s' => if isWhiteSpace c then trimStart s' else s
  end.

Fixpoint trimEnd (s : string) : string :=
  match s with
  | EmptyString => EmptyString
  | String c s' =>
      match trimEnd s' with
      | EmptyString => if isWhiteSpace c then EmptyString else String c EmptyString
      | t => String c t
      end
  end.

(** [s.trim()] *)
Definition trim (s : string) : string := trimEnd (trimStart s).

(** [s.startsWith(p)] *)
Definition startsWith (s p : string) : bool := String.prefix p s.

(** [s.includes(p)] *)
Fixpoint includes (s p : string) : bool :=
  String.prefix p s ||
  match s with
  | EmptyString => false
  | String _ s' => includes s' p
  end.

(** [a === b] on strings *)
Definition strictEq (a b : string) : bool := bool_decide (a = b).

(** [`${n}`] for an integral number. *)
Definition numberToString (n : Z) : string :=
  NilZero.string_of_int (Z.to_int n).

(** [x || 0] for a numeric property that may be absent: an absent value
    and [0] are both falsy. *)
Definition orZero (x : option Z) : Z :=
  match x with
  | Some v => v
  | None => 0
  end.

(** Code-unit order of two strings, as a number whose sign matters; the
    order [localeCompare] gives for a collation that follows code units. *)
Fixpoint codeUnitCompare (a b : string) : Z :=
  match a, b with
  | EmptyString, EmptyString => 0
  | EmptyString, String _ _ => -1
  | String _ _, EmptyString => 1
  | String x a', String y b' =>
      let d := Z.of_nat (nat_of_ascii x) - Z.of_nat (nat_of_ascii y) in
      if d =? 0 then codeUnitCompare a' b' else Z.sgn d
  end.

(** The result of a floating-point division, exact where it is finite. *)
Inductive JsNumber : Type :=
| Finite (q : Q)
| NaN
| PosInfinity
| NegInfinity.

(** [a / b] on integral operands. *)
Definition div (a b : Z) : JsNumber :=
  if b =? 0 then
    if a =? 0 then NaN else if 0 <? a then PosInfinity else NegInfinity
  else Finite (Qmake a 1 / Qmake b 1)%Q.

(** [x * k] *)
Definition mul (x : JsNumber) (k : Z) : JsNumber :=
  match x with
  | Finite q => Finite (q * Qmake k 1)%Q
  | NaN => NaN
  | PosInfinity =>
      if k =? 0 then NaN else if 0 <? k then PosInfinity else NegInfinity
  | NegInfinity =>
      if k =? 0 then NaN else if 0 <? k then NegInfinity else PosInfinity
  end.

Definition isFinite (x : JsNumber) : bool :=
  match x with
  | Finite _ => true
  | _ => false
  end.

(** [x - y] *)
Definition sub (x y : JsNumber) : JsNumber :=
  match x, y with
  | Finite a, Finite b => Finite (a - b)%Q
  | NaN, _ | _, NaN => NaN
  | PosInfinity, PosInfinity | NegInfinity, NegInfinity => NaN
  | PosInfinity, _ | _, NegInfinity => PosInfinity
  | NegInfinity, _ | _, PosInfinity => NegInfinity
  end.

(** What [sort] makes of the number a comparator returns: its sign, with
    NaN read as 0. *)
Definition comparatorSign (x : JsNumber) : Z :=
  match x with
  | Finite q => Z.sgn (Qnum q)
  | NaN => 0
  | PosInfinity => 1
  | NegInfinity => -1
  end.

(** The rational a finite number stands for (0 for the others). *)
Definition finiteValue (x : JsNumber) : Q :=
  match x with
  | Finite q => q
  | _ => 0%Q
  end.

(** *** [Map]: insertion-ordered, one entry per key *)

Definition Map (V : Type) : Type := list (Z * V).

(** [m.set(k, v)]: an existing key keeps its place and gets the new value. *)
Fixpoint mapSet {V} (k : Z) (v : V) (m : Map V) : Map V :=
  match m with
  | [] => [(k, v)]
  | (k', v') :: m' =>
      if k' =? k then (k, v) :: m' else (k', v') :: mapSet k v m'
  end.

(** [new Map(entries)] *)
Definition mapOf {V} (entries : list (Z * V)) : Map V :=
  fold_left (fun m e => mapSet (fst e) (snd e) m) entries [].

(** [m.size] *)
Definition mapSize {V} (m : Map V) : nat := length m.

(** The values in [forEach] order. *)
Definition mapValues {V} (m : Map V) : list V := map snd m.

(** *** [Array.prototype.sort] with a comparator

    The sort is stable; with a consistent comparator the result is the
    one list that is sorted and keeps equal elements in their order, and
    an insertion sort computes it.  [cmp a b] is the number the
    comparator returns. *)
Section Sort.
Context {A : Type} (cmp : A -> A -> Z).

Fixpoint insertSorted (x : A) (l : list A) : list A :=
  match l with
  | [] => [x]
  | y :: l' => if cmp x y <=? 0 then x :: l else y :: insertSorted x l'
  end.

Definition sort (l : list A) : list A := foldr insertSorted [] l.

(** [a] may stand before [b]: the comparator does not put [b] first. *)
Definition inOrder (a b : A) : Prop := cmp a b <= 0.

End Sort.

End Js.

(** ** The clock *)

(** What [new Date()] gives: the local calendar year, the zero-based month
    and the epoch milliseconds that [toISOString] prints. *)
Record Date : Type := mkDate {
  getFullYear : Z;
  getMonth : Z;
  getTime : Z
}.

(** ** Season resolver (the same text in both revisions of [nhlApi.ts]) *)

(** [getCurrentNHLSeason()], with [now] the value of [new Date()]. *)
Definition getCurrentNHLSeason (now : Date) : string :=
  let year := getFullYear now in
  let month := getMonth now in
  if month <? 8 then
    Js.numberToString (year - 1) +:+ Js.numberToString year
  else
    Js.numberToString year +:+ Js.numberToString (year + 1).

(** ** The world outside the program *)

(** What [await fetch(url)] followed by [await response.json()] can give. *)
Inductive HttpResult (B : Type) : Type :=
| NetworkError
    (* [fetch] rejects *)
| Response (ok : bool) (json : option B).
    (* [json = None]: [response.json()] rejects, the text is not JSON *)
Arguments NetworkError {B}.
Arguments Response {B} ok json.

(** The answers that are a failure of the transport: no answer, a status
    outside 200-299, or a body that is not JSON. *)
Definition transportFailed {B} (r : HttpResult B) : bool :=
  match r with
  | NetworkError => true
  | Response false _ => true
  | Response true None => true
  | Response true (Some _) => false
  end.

(** What [await supabase.from('nhl_players').update(...).eq('id', id)] can
    give: [{ error: null }], [{ error }], or a rejected promise whose reason
    is an [Error] with a message or some other value. *)
Inductive StoreOutcome : Type :=
| StoreOk
| StoreError
| StoreThrows (message : option string).

(** What the program asked of the outside, oldest first. *)
Inductive Event : Type :=
| EvFetch (url : string)
| EvNow
| EvUpdate (rowId : string).

(** The URLs fetched in a trace, oldest first, and the rows written. *)
Definition fetchedUrls (t : list Event) : list string :=
  omap (fun e => match e with EvFetch url => Some url | _ => None end) t.

Definition updatedRows (t : list Event) : list string :=
  omap (fun e => match e with EvUpdate rowId => Some rowId | _ => None end) t.

(** The answers of the outside, each one a function of all that was asked
    before. *)
Record Env (B : Type) : Type := mkEnv {
  http : list Event -> string -> HttpResult B;
  storage : list Event -> StoreOutcome;
  clock : list Event -> Date
}.
Arguments http {B} e history url.
Arguments storage {B} e history.
Arguments clock {B} e history.

(** The directory entry the cache keeps per player. *)
Record DirectoryEntry : Type := mkEntry {
  entry_id : Z;
  entry_fullName : string
}.

(** The state the program works on: the rows of table [nhl_players], the
    module variable [cachedPlayers] of [nhlApi.ts], and the trace. *)
Record World (R : Type) : Type := mkWorld {
  table : list R;
  cachedPlayers : option (Js.Map DirectoryEntry);
  trace : list Event
}.
Arguments mkWorld {R} table cachedPlayers trace.
Arguments table {R} w.
Arguments cachedPlayers {R} w.
Arguments trace {R} w.

(** Sequential code over the world. *)
Definition IO (R A : Type) : Type := World R -> A * World R.

Definition ret {R A} (a : A) : IO R A := fun w => (a, w).

Definition bind {R A B} (m : IO R A) (k : A -> IO R B) : IO R B :=
  fun w => let (a, w') := m w in k a w'.

Notation "'let!' x ':=' m 'in' k" := (bind m (fun x => k))
  (at level 10, x binder, k at level 200).

Section Effects.
Context {R B : Type} (env : Env B).

(** [await fetch(url)] and, when it is read, [await response.json()]. *)
Definition fetch (url : string) : IO R (HttpResult B) :=
  fun w => (http env (trace w) url,
            mkWorld (table w) (cachedPlayers w) (trace w ++ [EvFetch url])).

(** [new Date()] *)
Definition newDate : IO R Date :=
  fun w => (clock env (trace w),
            mkWorld (table w) (cachedPlayers w) (trace w ++ [EvNow])).

Definition getCache : IO R (option (Js.Map DirectoryEntry)) :=
  fun w => (cachedPlayers w, w).

Definition setCache (m : Js.Map DirectoryEntry) : IO R unit :=
  fun w => (tt, mkWorld (table w) (Some m) (trace w)).

(** Modelled from the spec: the storage client behind
    [supabase.from('nhl_players').update(patch).eq('id', id)] is not among
    the sources.  A storage error is surfaced to the caller and the write is
    not applied in part; a write that succeeds sets the columns of [patch]
    in every row whose [id] is [rowId] (none, when there is no such row). *)
Definition rowsUpdated (rowIdOf : R -> string) (patch : R -> R)
  (rowId : string) (rows : list R) : list R :=
  map (fun r => if bool_decide (rowIdOf r = rowId) then patch r else r) rows.

Definition updateEq (rowIdOf : R -> string) (patch : R -> R) (rowId : string)
  : IO R StoreOutcome :=
  fun w =>
    let outcome := storage env (trace w) in
    let rows :=
      match outcome with
      | StoreOk => rowsUpdated rowIdOf patch rowId (table w)
      | _ => table w
      end in
    (outcome, mkWorld rows (cachedPlayers w) (trace w ++ [EvUpdate rowId])).

End Effects.

(** ** Current revision *)

Module Current.

(** *** [lib/supabase.ts] *)
Module Supabase.

(** Modelled from the spec: this revision of [lib/supabase.ts] is not among
    the sources.  The row is the legacy [NHLPlayer] with the integer column
    [nhl_player_id] that the migration adds (not null, 0 for rows that were
    there before), as [App.tsx] and [AddPlayerForm.tsx] use it.
    [shots_threshold] is numeric; [created_at] and [updated_at] are instants,
    kept as epoch milliseconds in place of their ISO-8601 text, which has
    the same order. *)
Record NHLPlayer : Type := mkNHLPlayer {
  id : string;
  nhl_player_id : Z;
  name : string;
  points_games : Z;
  points_total_games : Z;
  shots_threshold : Q;
  shots_games : Z;
  shots_total_games : Z;
  created_at : Z;
  updated_at : Z
}.

(** [Partial<NHLPlayer>]: each property present or not. *)
Record PartialNHLPlayer : Type := mkPartial {
  set_id : option string;
  set_nhl_player_id : option Z;
  set_name : option string;
  set_points_games : option Z;
  set_points_total_games : option Z;
  set_shots_threshold : option Q;
  set_shots_games : option Z;
  set_shots_total_games : option Z;
  set_created_at : option Z;
  set_updated_at : option Z
}.

Definition noFields : PartialNHLPlayer :=
  mkPartial None None None None None None None None None None.

(** The row after the columns named in [u] are overwritten. *)
Definition assign (u : PartialNHLPlayer) (r : NHLPlayer) : NHLPlayer :=
  {| id := default (id r) (set_id u);
     nhl_player_id := default (nhl_player_id r) (set_nhl_player_id u);
     name := default (name r) (set_name u);
     points_games := default (points_games r) (set_points_games u);
     points_total_games :=
       default (points_total_games r) (set_points_total_games u);
     shots_threshold := default (shots_threshold r) (set_shots_threshold u);
     shots_games := default (shots_games r) (set_shots_games u);
     shots_total_games :=
       default (shots_total_games r) (set_shots_total_games u);
     created_at := default (created_at r) (set_created_at u);
     updated_at := default (updated_at r) (set_updated_at u) |}.

(** [{ ...u, updated_at: t }] *)
Definition withUpdatedAt (u : PartialNHLPlayer) (t : Z) : PartialNHLPlayer :=
  {| set_id := set_id u;
     set_nhl_player_id := set_nhl_player_id u;
     set_name := set_name u;
     set_points_games := set_points_games u;
     set_points_total_games := set_points_total_games u;
     set_shots_threshold := set_shots_threshold u;
     set_shots_games := set_shots_games u;
     set_shots_total_games := set_shots_total_games u;
     set_created_at := set_created_at u;
     set_updated_at := Some t |}.

End Supabase.

(** *** [lib/nhlApi.ts] *)
Module NhlApi.

Definition NHL_API_BASE : string := "https://statsapi.web.nhl.com/api/v1".
Definition NHL_SEARCH_API : string :=
  "https://search.d3.nhle.com/api/v1/search/player".

(** The two URLs the module fetches. *)
Definition directoryUrl : string :=
  NHL_SEARCH_API +:+ "?culture=en-us&limit=50000&q=*".

Definition statsUrl (playerId : Z) (currentSeason : string) : string :=
  NHL_API_BASE +:+ "/people/" +:+ Js.numberToString playerId
  +:+ "/stats?stats=statsSingleSeason&season=" +:+ currentSeason.

Record NHLApiPlayer : Type := mkNHLApiPlayer {
  id : Z;
  name : string
}.

Record PlayerStatsResult : Type := mkPlayerStatsResult {
  playerId : Z;
  playerName : string;
  pointsGames : Z;
  totalGames : Z;
  shots : Z
}.

(** The JSON the two endpoints answer with, in the shape the code reads:
    a property the code tests for, or reads without a test, may be absent. *)
Record SearchHit : Type := mkSearchHit {
  hit_playerId : Z;
  hit_fullName : string
}.

Record SeasonStat : Type := mkSeasonStat {
  stat_games : option Z;
  stat_goals : option Z;
  stat_assists : option Z;
  stat_shots : option Z
}.

Record Split : Type := mkSplit {
  split_stat : option SeasonStat
}.

Record StatsGroup : Type := mkStatsGroup {
  group_splits : option (list Split)
}.

Record Person : Type := mkPerson {
  person_fullName : string
}.

Record StatsObject : Type := mkStatsObject {
  data_stats : option (list StatsGroup);
  data_people : option (list Person)
}.

Inductive Body : Type :=
| ArrayBody (hits : list SearchHit)
| ObjectBody (data : StatsObject).

(** [new Map(data.map(player => [player.playerId, { ... }]))] *)
Definition directoryOf (data : list SearchHit) : Js.Map DirectoryEntry :=
  Js.mapOf
    (map (fun player =>
            (hit_playerId player,
             mkEntry (hit_playerId player) (hit_fullName player)))
         data).

(** The rank of a result for a lowercased, trimmed query: 0 when the
    lowercased name is the query, 1 when it only starts with it, 2
    otherwise. *)
Definition tier (searchLower : string) (p : NHLApiPlayer) : nat :=
  if Js.strictEq (Js.toLowerCase (name p)) searchLower then 0
  else if Js.startsWith (Js.toLowerCase (name p)) searchLower then 1
  else 2.

Section Api.
Context {R : Type} (env : Env Body).

Definition loadAllPlayers : IO R (Js.Map DirectoryEntry) :=
  let! cached := getCache in
  match cached with
  | Some players => ret players
  | None =>
      let! response := fetch env directoryUrl in
      match response with
      | NetworkError => ret []                      (* catch *)
      | Response false _ => ret []                  (* !response.ok *)
      | Response true None => ret []                (* catch *)
      | Response true (Some (ObjectBody _)) => ret []   (* !Array.isArray *)
      | Response true (Some (ArrayBody [])) => ret []   (* length === 0 *)
      | Response true (Some (ArrayBody data)) =>
          let players := directoryOf data in
          let! _ := setCache players in
          ret players
      end
  end.

Section Search.
Context (localeCompare : string -> string -> Z).

(** The comparator handed to [results.sort]. *)
Definition compareResults (searchLower : string) (a b : NHLApiPlayer) : Z :=
  let aNameLower := Js.toLowerCase (name a) in
  let bNameLower := Js.toLowerCase (name b) in
  let aExact := Js.strictEq aNameLower searchLower in
  let bExact := Js.strictEq bNameLower searchLower in
  if aExact && negb bExact then -1
  else if negb aExact && bExact then 1
  else
    let aStartsWith := Js.startsWith aNameLower searchLower in
    let bStartsWith := Js.startsWith bNameLower searchLower in
    if aStartsWith && negb bStartsWith then -1
    else if negb aStartsWith && bStartsWith then 1
    else localeCompare aNameLower bNameLower.

(** What [allPlayers.forEach] pushes to [results]. *)
Definition matching (searchLower : string)
  (allPlayers : Js.Map DirectoryEntry) : list NHLApiPlayer :=
  map (fun player =>
         mkNHLApiPlayer (entry_id player) (entry_fullName player))
      (List.filter
         (fun player =>
            Js.includes (Js.toLowerCase (entry_fullName player)) searchLower)
         (Js.mapValues allPlayers)).

Definition searchNHLPlayers (query : string) : IO R (list NHLApiPlayer) :=
  let! allPlayers := loadAllPlayers in
  if (Js.mapSize allPlayers =? 0)%nat then ret []
  else
    let searchLower := Js.trim (Js.toLowerCase query) in
    let results := matching searchLower allPlayers in
    ret (Js.sort (compareResults searchLower) results).

(** One search call per query, in sequence. *)
Fixpoint searchEach (queries : list string)
  : IO R (list (list NHLApiPlayer)) :=
  match queries with
  | [] => ret []
  | query :: rest =>
      let! found := searchNHLPlayers query in
      let! others := searchEach rest in
      ret (found :: others)
  end.

End Search.

(** What [getNHLPlayerStats] makes of a response body that parsed. *)
Definition statsOfData (playerId : Z) (data : Body)
  : option PlayerStatsResult :=
  let noStats :=
    Some (mkPlayerStatsResult playerId "Unknown Player" 0 0 0) in
  match data with
  | ArrayBody _ => noStats                          (* !data.stats *)
  | ObjectBody data =>
      match data_stats data with
      | None | Some [] => noStats
      | Some (first :: _) =>
          match group_splits first with
          | None | Some [] => noStats
          | Some (split :: _) =>
              match split_stat split with
              | None => None          (* TypeError on stats.games: catch *)
              | Some stats =>
                  let gamesPlayed := Js.orZero (stat_games stats) in
                  let goals := Js.orZero (stat_goals stats) in
                  let assists := Js.orZero (stat_assists stats) in
                  let shots := Js.orZero (stat_shots stats) in
                  let totalPoints := goals + assists in
                  match data_people data with
                  | Some (person :: _) =>
                      Some (mkPlayerStatsResult playerId
                              (person_fullName person)
                              totalPoints gamesPlayed shots)
                  | _ => None   (* TypeError on data.people[0]: catch *)
                  end
              end
          end
      end
  end.

Definition getNHLPlayerStats (playerId : Z)
  : IO R (option PlayerStatsResult) :=
  let! now := newDate env in
  let currentSeason := getCurrentNHLSeason now in
  let! response := fetch env (statsUrl playerId currentSeason) in
  match response with
  | NetworkError => ret None                        (* catch *)
  | Response false _ => ret None                    (* !response.ok *)
  | Response true None => ret None                  (* catch *)
  | Response true (Some data) => ret (statsOfData playerId data)
  end.

End Api.

End NhlApi.

(** *** [App.tsx] *)
Module App.
Import Supabase.

Record FailedPlayer : Type := mkFailedPlayer {
  failed_name : string;
  reason : string
}.

(** The two variables of [handleRefreshStats]. *)
Record RefreshSummary : Type := mkSummary {
  updatedCount : nat;
  failedPlayers : list FailedPlayer
}.

Definition push (s : RefreshSummary) (n r : string) : RefreshSummary :=
  mkSummary (updatedCount s) (failedPlayers s ++ [mkFailedPlayer n r]).

Definition increment (s : RefreshSummary) : RefreshSummary :=
  mkSummary (S (updatedCount s)) (failedPlayers s).

(** [!n] on a number. *)
Definition isFalsy (n : Z) : bool := n =? 0.

Section Handlers.
Context (env : Env NhlApi.Body).

(** [handleUpdatePlayer(id, updates)].  The result is what the handler saw:
    on [StoreOk] it re-lists the players, on [StoreError] it alerts, on
    [StoreThrows] its own promise rejects. *)
Definition handleUpdatePlayer (rowId : string) (updates : PartialNHLPlayer)
  : IO NHLPlayer StoreOutcome :=
  let! now := newDate env in
  updateEq env id (assign (withUpdatedAt updates (getTime now))) rowId.

(** The columns one refresh writes. *)
Definition refreshFields (nhlStats : NhlApi.PlayerStatsResult) (now : Date)
  : PartialNHLPlayer :=
  {| set_id := None;
     set_nhl_player_id := None;
     set_name := None;
     set_points_games := Some (NhlApi.pointsGames nhlStats);
     set_points_total_games := Some (NhlApi.totalGames nhlStats);
     set_shots_threshold := None;
     set_shots_games := Some (NhlApi.shots nhlStats);
     set_shots_total_games := Some (NhlApi.totalGames nhlStats);
     set_created_at := None;
     set_updated_at := Some (getTime now) |}.

(** The body of the [for (const player of players)] loop. *)
Definition refreshPlayer (player : NHLPlayer) (s : RefreshSummary)
  : IO NHLPlayer RefreshSummary :=
  if isFalsy (nhl_player_id player) || (nhl_player_id player =? 0) then
    ret (push s (name player) "Missing NHL Player ID (Old manual entry)")
  else
    let! nhlStats := NhlApi.getNHLPlayerStats env (nhl_player_id player) in
    match nhlStats with
    | None => ret (push s (name player) "Could not fetch stats from NHL API")
    | Some nhlStats =>
        if NhlApi.totalGames nhlStats =? 0 then
          ret (push s (name player) "No games played this season")
        else
          let! now := newDate env in
          let! outcome :=
            updateEq env id (assign (refreshFields nhlStats now))
                     (id player) in
          match outcome with
          | StoreOk => ret (increment s)
          | StoreError => ret (push s (name player) "Database update failed")
          | StoreThrows (Some message) => ret (push s (name player) message)
          | StoreThrows None => ret (push s (name player) "Unknown error")
          end
    end.

Fixpoint refreshLoop (players : list NHLPlayer) (s : RefreshSummary)
  : IO NHLPlayer RefreshSummary :=
  match players with
  | [] => ret s
  | player :: rest =>
      let! s' := refreshPlayer player s in
      refreshLoop rest s'
  end.

(** [handleRefreshStats()] over the [players] of the component state, up
    to the summary the alert prints. *)
Definition handleRefreshStats (players : list NHLPlayer)
  : IO NHLPlayer RefreshSummary :=
  refreshLoop players (mkSummary 0 []).

(** **** What one turn of the loop sees

    Names for the statements about a pass: the world in which the loop
    reaches a player, what the fetcher returns to it there, and what the
    store answers to its write. *)

(** The world once the loop has gone through [before]. *)
Definition worldAfter (before : list NHLPlayer) (w : World NHLPlayer)
  : World NHLPlayer :=
  snd (refreshLoop before (mkSummary 0 []) w).

(** What [getNHLPlayerStats] returns for [player] when called in [w]. *)
Definition fetched (player : NHLPlayer) (w : World NHLPlayer)
  : option NhlApi.PlayerStatsResult :=
  fst (NhlApi.getNHLPlayerStats env (nhl_player_id player) w).

(** The clock reading and the store's answer when, after that fetch, the
    loop writes the figures of [player]. *)
Definition stampedAt (player : NHLPlayer) (w : World NHLPlayer) : Date :=
  clock env
    (trace (snd (NhlApi.getNHLPlayerStats env (nhl_player_id player) w))).

Definition stored (player : NHLPlayer) (w : World NHLPlayer)
  : StoreOutcome :=
  storage env
    (trace (snd (NhlApi.getNHLPlayerStats env (nhl_player_id player) w))
     ++ [EvNow]).

(** How the turn of [player] in [w] ends. *)
Inductive Outcome : Type :=
| Skipped
| FetchFailed
| NoGames
| Updated (nhlStats : NhlApi.PlayerStatsResult)
| NotStored (why : string).

Definition outcome (player : NHLPlayer) (w : World NHLPlayer) : Outcome :=
  if nhl_player_id player =? 0 then Skipped
  else
    match fetched player w with
    | None => FetchFailed
    | Some nhlStats =>
        if NhlApi.totalGames nhlStats =? 0 then NoGames
        else
          match stored player w with
          | StoreOk => Updated nhlStats
          | StoreError => NotStored "Database update failed"
          | StoreThrows (Some message) => NotStored message
          | StoreThrows None => NotStored "Unknown error"
          end
    end.

(** What an outcome adds to the summary. *)
Definition tally (player : NHLPlayer) (o : Outcome) (s : RefreshSummary)
  : RefreshSummary :=
  match o with
  | Skipped => push s (name player) "Missing NHL Player ID (Old manual entry)"
  | FetchFailed => push s (name player) "Could not fetch stats from NHL API"
  | NoGames => push s (name player) "No games played this season"
  | Updated _ => increment s
  | NotStored why => push s (name player) why
  end.

End Handlers.
(** [sortBy], the key of the displayed order. *)
Inductive SortBy : Type :=
| SortByName
| SortByPoints
| SortByShots.

(** The comparator of [sortedPlayers]. *)
Definition compareRows (localeCompare : string -> string -> Z)
  (sortBy : SortBy) (a b : NHLPlayer) : Z :=
  match sortBy with
  | SortByName => localeCompare (name a) (name b)
  | SortByPoints =>
      let aAvg :=
        if points_total_games a >? 0
        then Js.div (points_games a) (points_total_games a)
        else Js.Finite 0 in
      let bAvg :=
        if points_total_games b >? 0
        then Js.div (points_games b) (points_total_games b)
        else Js.Finite 0 in
      Js.comparatorSign (Js.sub bAvg aAvg)
  | SortByShots =>
      let aAvg :=
        if shots_total_games a >? 0
        then Js.div (shots_games a) (shots_total_games a)
        else Js.Finite 0 in
      let bAvg :=
        if shots_total_games b >? 0
        then Js.div (shots_games b) (shots_total_games b)
        else Js.Finite 0 in
      Js.comparatorSign (Js.sub bAvg aAvg)
  end.

(** [[...players].sort(...)] *)
Definition sortedPlayers (localeCompare : string -> string -> Z)
  (sortBy : SortBy) (players : list NHLPlayer) : list NHLPlayer :=
  Js.sort (compareRows localeCompare sortBy) players.

End App.

(** *** [components/PlayerRow.tsx] *)
Module PlayerRow.
Import Supabase.

Definition pointsAverage (player : NHLPlayer) : Js.JsNumber :=
  if points_total_games player >? 0
  then Js.div (points_games player) (points_total_games player)
  else Js.Finite 0.

Definition shotsPerGame (player : NHLPlayer) : Js.JsNumber :=
  if shots_total_games player >? 0
  then Js.div (shots_games player) (shots_total_games player)
  else Js.Finite 0.

(** [handleSave], with [onUpdate] the [handleUpdatePlayer] of [App.tsx] and
    [shotsThreshold] the value chosen in the row's select. *)
Definition handleSave (env : Env NhlApi.Body) (player : NHLPlayer)
  (shotsThreshold : Q) : IO NHLPlayer StoreOutcome :=
  App.handleUpdatePlayer env (id player)
    {| set_id := None;
       set_nhl_player_id := None;
       set_name := None;
       set_points_games := None;
       set_points_total_games := None;
       set_shots_threshold := Some shotsThreshold;
       set_shots_games := None;
       set_shots_total_games := None;
       set_created_at := None;
       set_updated_at := None |}.

End PlayerRow.

(** *** [components/AddPlayerForm.tsx] *)
Module AddPlayerForm.

(** The state [newPlayer]: the draft that [onAdd] receives. *)
Record NewPlayer : Type := mkNewPlayer {
  nhl_player_id : Z;
  name : string;
  points_games : Z;
  points_total_games : Z;
  shots_threshold : Q;
  shots_games : Z;
  shots_total_games : Z
}.

Definition initialNewPlayer : NewPlayer :=
  mkNewPlayer 0 "" 0 0 (3 # 2) 0 0.

Section Form.
Context {R : Type} (env : Env NhlApi.Body).

(** [performSearch] of the effect on [debouncedSearchQuery]: what
    [setSearchResults] receives. *)
Definition performSearch (localeCompare : string -> string -> Z)
  (debouncedSearchQuery : string) : IO R (list NhlApi.NHLApiPlayer) :=
  if (2 <=? String.length debouncedSearchQuery)%nat
  then NhlApi.searchNHLPlayers env localeCompare debouncedSearchQuery
  else ret [].

(** [handleSelectPlayer(player)]: the draft after the functional update of
    [newPlayer], whose state before it is [prev]. *)
Definition handleSelectPlayer (player : NhlApi.NHLApiPlayer)
  (prev : NewPlayer) : IO R NewPlayer :=
  let! stats := NhlApi.getNHLPlayerStats env (NhlApi.id player) in
  match stats with
  | Some stats =>
      ret {| nhl_player_id := NhlApi.id player;
             name := NhlApi.name player;
             points_games := NhlApi.pointsGames stats;
             points_total_games := NhlApi.totalGames stats;
             shots_threshold := shots_threshold prev;
             shots_games := NhlApi.shots stats;
             shots_total_games := NhlApi.totalGames stats |}
  | None =>
      ret {| nhl_player_id := NhlApi.id player;
             name := NhlApi.name player;
             points_games := 0;
             points_total_games := 0;
             shots_threshold := shots_threshold prev;
             shots_games := 0;
             shots_total_games := 0 |}
  end.

End Form.

(** The click on the X beside a selected player:
    [{ ...prev, name: '', nhl_player_id: 0 }]. *)
Definition clearSelection (prev : NewPlayer) : NewPlayer :=
  {| nhl_player_id := 0;
     name := "";
     points_games := points_games prev;
     points_total_games := points_total_games prev;
     shots_threshold := shots_threshold prev;
     shots_games := shots_games prev;
     shots_total_games := shots_total_games prev |}.

(** [handleSubmit]: the draft handed to [onAdd], none when the trimmed name
    is empty. *)
Definition handleSubmit (newPlayer : NewPlayer) : option NewPlayer :=
  if Js.strictEq (Js.trim (name newPlayer)) "" then None else Some newPlayer.

End AddPlayerForm.

End Current.

(** ** Legacy revision *)

Module Legacy.

(** *** [lib/supabase.ts] *)
Module Supabase.

(** [NHLPlayer]; the two instants as epoch milliseconds. *)
Record NHLPlayer : Type := mkNHLPlayer {
  id : string;
  name : string;
  points_games : Z;
  points_total_games : Z;
  shots_threshold : Q;
  shots_games : Z;
  shots_total_games : Z;
  created_at : Z;
  updated_at : Z
}.

Record PartialNHLPlayer : Type := mkPartial {
  set_id : option string;
  set_name : option string;
  set_points_games : option Z;
  set_points_total_games : option Z;
  set_shots_threshold : option Q;
  set_shots_games : option Z;
  set_shots_total_games : option Z;
  set_created_at : option Z;
  set_updated_at : option Z
}.

Definition noFields : PartialNHLPlayer :=
  mkPartial None None None None None None None None None.

Definition assign (u : PartialNHLPlayer) (r : NHLPlayer) : NHLPlayer :=
  {| id := default (id r) (set_id u);
     name := default (name r) (set_name u);
     points_games := default (points_games r) (set_points_games u);
     points_total_games :=
       default (points_total_games r) (set_points_total_games u);
     shots_threshold := default (shots_threshold r) (set_shots_threshold u);
     shots_games := default (shots_games r) (set_shots_games u);
     shots_total_games :=
       default (shots_total_games r) (set_shots_total_games u);
     created_at := default (created_at r) (set_created_at u);
     updated_at := default (updated_at r) (set_updated_at u) |}.

Definition withUpdatedAt (u : PartialNHLPlayer) (t : Z) : PartialNHLPlayer :=
  {| set_id := set_id u;
     set_name := set_name u;
     set_points_games := set_points_games u;
     set_points_total_games := set_points_total_games u;
     set_shots_threshold := set_shots_threshold u;
     set_shots_games := set_shots_games u;
     set_shots_total_games := set_shots_total_games u;
     set_created_at := set_created_at u;
     set_updated_at := Some t |}.

End Supabase.

(** *** [lib/nhlApi.ts] *)
Module NhlApi.

Definition NHL_API_BASE : string := "https://statsapi.nhl.com/api/v1".

(** The two URLs the module fetches. *)
Definition directoryUrl : string := NHL_API_BASE +:+ "/players".

Definition personUrl (playerId : Z) : string :=
  NHL_API_BASE +:+ "/people/" +:+ Js.numberToString playerId.

Record NHLApiPlayer : Type := mkNHLApiPlayer {
  id : Z;
  name : string
}.

Record PlayerStatsResult : Type := mkPlayerStatsResult {
  playerId : Z;
  playerName : string;
  points : Z;
  pointsGames : Z;
  totalGames : Z;
  shots : Z
}.

(** The JSON of both endpoints is an object with a [people] array. *)
Record SeasonRecord : Type := mkSeasonRecord {
  season : string;
  season_gamesPlayed : option Z;
  season_points : option Z;
  season_shots : option Z
}.

Record StatGroup : Type := mkStatGroup {
  type_displayName : option string;      (* [s.type?.displayName] *)
  group_stats : option (list SeasonRecord)
}.

Record Person : Type := mkPerson {
  person_id : Z;
  person_fullName : string;
  person_stats : option (list StatGroup)
}.

Record Body : Type := mkBody {
  people : option (list Person)
}.

(** [getNHLPlayerStats] takes [number | string]. *)
Inductive IdOrName : Type :=
| ById (playerId : Z)
| ByName (playerName : string).

(** [new Map(data.people.map(player => [player.id, { ... }]))] *)
Definition directoryOf (roster : list Person) : Js.Map DirectoryEntry :=
  Js.mapOf
    (map (fun player =>
            (person_id player,
             mkEntry (person_id player) (person_fullName player)))
         roster).

(** The rank of a result for a lowercased, trimmed query: 0 when the
    lowercased name is the query, 1 when it only starts with it, 2
    otherwise. *)
Definition tier (searchLower : string) (p : NHLApiPlayer) : nat :=
  if Js.strictEq (Js.toLowerCase (name p)) searchLower then 0
  else if Js.startsWith (Js.toLowerCase (name p)) searchLower then 1
  else 2.

Section Api.
Context {R : Type} (env : Env Body).

Definition loadAllPlayers : IO R (Js.Map DirectoryEntry) :=
  let! cached := getCache in
  match cached with
  | Some players => ret players
  | None =>
      let! response := fetch env directoryUrl in
      match response with
      | NetworkError => ret []                      (* catch *)
      | Response false _ => ret []                  (* !response.ok *)
      | Response true None => ret []                (* catch *)
      | Response true (Some data) =>
          match people data with
          | None | Some [] => ret []
          | Some roster =>
              let players := directoryOf roster in
              let! _ := setCache players in
              ret players
          end
      end
  end.

(** The comparator handed to [results.sort]. *)
Definition compareResults (searchLower : string) (a b : NHLApiPlayer) : Z :=
  let aExact := Js.strictEq (Js.toLowerCase (name a)) searchLower in
  let bExact := Js.strictEq (Js.toLowerCase (name b)) searchLower in
  if aExact && negb bExact then -1
  else if negb aExact && bExact then 1
  else
    let aStartsWith :=
      Js.startsWith (Js.toLowerCase (name a)) searchLower in
    let bStartsWith :=
      Js.startsWith (Js.toLowerCase (name b)) searchLower in
    if aStartsWith && negb bStartsWith then -1
    else if negb aStartsWith && bStartsWith then 1
    else 0.

(** What [allPlayers.forEach] pushes to [results]. *)
Definition matching (searchLower : string)
  (allPlayers : Js.Map DirectoryEntry) : list NHLApiPlayer :=
  map (fun player =>
         mkNHLApiPlayer (entry_id player) (entry_fullName player))
      (List.filter
         (fun player =>
            Js.includes (Js.toLowerCase (entry_fullName player)) searchLower)
         (Js.mapValues allPlayers)).

Definition searchNHLPlayers (query : string) : IO R (list NHLApiPlayer) :=
  let! allPlayers := loadAllPlayers in
  if (Js.mapSize allPlayers =? 0)%nat then ret []
  else
    let searchLower := Js.trim (Js.toLowerCase query) in
    let results := matching searchLower allPlayers in
    ret (Js.sort (compareResults searchLower) results).

(** One search call per query, in sequence. *)
Fixpoint searchEach (queries : list string)
  : IO R (list (list NHLApiPlayer)) :=
  match queries with
  | [] => ret []
  | query :: rest =>
      let! found := searchNHLPlayers query in
      let! others := searchEach rest in
      ret (found :: others)
  end.

Definition zeroStats (player : Person) : PlayerStatsResult :=
  mkPlayerStatsResult (person_id player) (person_fullName player) 0 0 0 0.

(** What [getNHLPlayerStats] makes of [data.people[0]]. *)
Definition statsOfPerson (currentSeason : string) (player : Person)
  : PlayerStatsResult :=
  let stats := default [] (person_stats player) in
  match
    List.find
      (fun s => bool_decide
                  (type_displayName s = Some "regularSeasonStatRest"))
      stats
  with
  | None => zeroStats player
  | Some regularSeasonStats =>
      let statsArray := default [] (group_stats regularSeasonStats) in
      match
        List.find (fun s => Js.strictEq (season s) currentSeason) statsArray
      with
      | None => zeroStats player
      | Some seasonData =>
          let games := Js.orZero (season_gamesPlayed seasonData) in
          let points := Js.orZero (season_points seasonData) in
          let shots := Js.orZero (season_shots seasonData) in
          let pointsGames := if points >? 0 then games else 0 in
          mkPlayerStatsResult (person_id player) (person_fullName player)
                              points pointsGames games shots
      end
  end.

Definition getNHLPlayerStats (playerIdOrName : IdOrName)
  : IO R (option PlayerStatsResult) :=
  let! resolved :=
    match playerIdOrName with
    | ByName playerName =>
        let! players := searchNHLPlayers playerName in
        match players with
        | [] => ret None
        | first :: _ => ret (Some (id first))
        end
    | ById playerId => ret (Some playerId)
    end in
  match resolved with
  | None => ret None
  | Some playerId =>
      let! response := fetch env (personUrl playerId) in
      match response with
      | NetworkError => ret None                    (* catch *)
      | Response false _ => ret None                (* !response.ok *)
      | Response true None => ret None              (* catch *)
      | Response true (Some data) =>
          match people data with
          | None | Some [] => ret None
          | Some (player :: _) =>
              let! now := newDate env in
              ret (Some (statsOfPerson (getCurrentNHLSeason now) player))
          end
      end
  end.

End Api.
End NhlApi.

(** *** [App.tsx] *)
Module App.
Import Supabase.

Record FailedPlayer : Type := mkFailedPlayer {
  failed_name : string;
  reason : string
}.

Record RefreshSummary : Type := mkSummary {
  updatedCount : nat;
  failedPlayers : list FailedPlayer
}.

Definition push (s : RefreshSummary) (n r : string) : RefreshSummary :=
  mkSummary (updatedCount s) (failedPlayers s ++ [mkFailedPlayer n r]).

Definition increment (s : RefreshSummary) : RefreshSummary :=
  mkSummary (S (updatedCount s)) (failedPlayers s).

Section Handlers.
Context (env : Env NhlApi.Body).

Definition handleUpdatePlayer (rowId : string) (updates : PartialNHLPlayer)
  : IO NHLPlayer StoreOutcome :=
  let! now := newDate env in
  updateEq env id (assign (withUpdatedAt updates (getTime now))) rowId.

Definition refreshFields (nhlStats : NhlApi.PlayerStatsResult) (now : Date)
  : PartialNHLPlayer :=
  {| set_id := None;
     set_name := None;
     set_points_games := Some (NhlApi.pointsGames nhlStats);
     set_points_total_games := Some (NhlApi.totalGames nhlStats);
     set_shots_threshold := None;
     set_shots_games := Some (NhlApi.shots nhlStats);
     set_shots_total_games := Some (NhlApi.totalGames nhlStats);
     set_created_at := None;
     set_updated_at := Some (getTime now) |}.

(** The body of the [for (const player of players)] loop. *)
Definition refreshPlayer (player : NHLPlayer) (s : RefreshSummary)
  : IO NHLPlayer RefreshSummary :=
  let! nhlStats :=
    NhlApi.getNHLPlayerStats env (NhlApi.ByName (name player)) in
  match nhlStats with
  | None => ret (push s (name player) "Player not found in NHL database")
  | Some nhlStats =>
      if NhlApi.totalGames nhlStats =? 0 then
        ret (push s (name player) "No games played this season")
      else
        let! now := newDate env in
        let! outcome :=
          updateEq env id (assign (refreshFields nhlStats now))
                   (id player) in
        match outcome with
        | StoreOk => ret (increment s)
        | StoreError => ret (push s (name player) "Database update failed")
        | StoreThrows (Some message) => ret (push s (name player) message)
        | StoreThrows None => ret (push s (name player) "Unknown error")
        end
  end.

Fixpoint refreshLoop (players : list NHLPlayer) (s : RefreshSummary)
  : IO NHLPlayer RefreshSummary :=
  match players with
  | [] => ret s
  | player :: rest =>
      let! s' := refreshPlayer player s in
      refreshLoop rest s'
  end.

Definition handleRefreshStats (players : list NHLPlayer)
  : IO NHLPlayer RefreshSummary :=
  refreshLoop players (mkSummary 0 []).

(** **** What one turn of the loop sees *)

Definition worldAfter (before : list NHLPlayer) (w : World NHLPlayer)
  : World NHLPlayer :=
  snd (refreshLoop before (mkSummary 0 []) w).

Definition fetched (player : NHLPlayer) (w : World NHLPlayer)
  : option NhlApi.PlayerStatsResult :=
  fst (NhlApi.getNHLPlayerStats env (NhlApi.ByName (name player)) w).

Definition stampedAt (player : NHLPlayer) (w : World NHLPlayer) : Date :=
  clock env
    (trace (snd (NhlApi.getNHLPlayerStats env
                   (NhlApi.ByName (name player)) w))).

Definition stored (player : NHLPlayer) (w : World NHLPlayer)
  : StoreOutcome :=
  storage env
    (trace (snd (NhlApi.getNHLPlayerStats env
                   (NhlApi.ByName (name player)) w))
     ++ [EvNow]).

Inductive Outcome : Type :=
| NotFound
| NoGames
| Updated (nhlStats : NhlApi.PlayerStatsResult)
| NotStored (why : string).

Definition outcome (player : NHLPlayer) (w : World NHLPlayer) : Outcome :=
  match fetched player w with
  | None => NotFound
  | Some nhlStats =>
      if NhlApi.totalGames nhlStats =? 0 then NoGames
      else
        match stored player w with
        | StoreOk => Updated nhlStats
        | StoreError => NotStored "Database update failed"
        | StoreThrows (Some message) => NotStored message
        | StoreThrows None => NotStored "Unknown error"
        end
  end.

Definition tally (player : NHLPlayer) (o : Outcome) (s : RefreshSummary)
  : RefreshSummary :=
  match o with
  | NotFound => push s (name player) "Player not found in NHL database"
  | NoGames => push s (name player) "No games played this season"
  | Updated _ => increment s
  | NotStored why => push s (name player) why
  end.

End Handlers.
(** [sortBy], the key of the displayed order. *)
Inductive SortBy : Type :=
| SortByName
| SortByPoints
| SortByShots.

(** The comparator of [sortedPlayers]. *)
Definition compareRows (localeCompare : string -> string -> Z)
  (sortBy : SortBy) (a b : NHLPlayer) : Z :=
  match sortBy with
  | SortByName => localeCompare (name a) (name b)
  | SortByPoints =>
      let aAvg :=
        if points_total_games a >? 0
        then Js.div (points_games a) (points_total_games a)
        else Js.Finite 0 in
      let bAvg :=
        if points_total_games b >? 0
        then Js.div (points_games b) (points_total_games b)
        else Js.Finite 0 in
      Js.comparatorSign (Js.sub bAvg aAvg)
  | SortByShots =>
      let aAvg :=
        if shots_total_games a >? 0
        then Js.div (shots_games a) (shots_total_games a)
        else Js.Finite 0 in
      let bAvg :=
        if shots_total_games b >? 0
        then Js.div (shots_games b) (shots_total_games b)
        else Js.Finite 0 in
      Js.comparatorSign (Js.sub bAvg aAvg)
  end.

(** [[...players].sort(...)] *)
Definition sortedPlayers (localeCompare : string -> string -> Z)
  (sortBy : SortBy) (players : list NHLPlayer) : list NHLPlayer :=
  Js.sort (compareRows localeCompare sortBy) players.

End App.

(** *** [components/PlayerRow.tsx] *)
Module PlayerRow.
Import Supabase.

Section Row.
(** [x.toFixed(digits)], the host's decimal rendering of a number. *)
Context (toFixed : Js.JsNumber -> nat -> string).

Definition pointsPercentage (player : NHLPlayer) : string :=
  if points_total_games player >? 0
  then toFixed
         (Js.mul (Js.div (points_games player) (points_total_games player))
                 100) 1
  else "0.0".

Definition shotsPercentage (player : NHLPlayer) : string :=
  if shots_total_games player >? 0
  then toFixed
         (Js.mul (Js.div (shots_games player) (shots_total_games player))
                 100) 1
  else "0.0".

End Row.

(** [handleSave], with [onUpdate] the [handleUpdatePlayer] of [App.tsx] and
    [editedPlayer] the state of the row's inputs. *)
Definition handleSave (env : Env NhlApi.Body) (player editedPlayer : NHLPlayer)
  : IO NHLPlayer StoreOutcome :=
  App.handleUpdatePlayer env (id player)
    {| set_id := None;
       set_name := Some (name editedPlayer);
       set_points_games := Some (points_games editedPlayer);
       set_points_total_games := Some (points_total_games editedPlayer);
       set_shots_threshold := Some (shots_threshold editedPlayer);
       set_shots_games := Some (shots_games editedPlayer);
       set_shots_total_games := Some (shots_total_games editedPlayer);
       set_created_at := None;
       set_updated_at := None |}.

End PlayerRow.

End Legacy.

(** ** The migration [add_nhl_player_id.sql] *)

Module Migration.

(** A row of [nhl_players] while the migration runs: the columns it had and
    the new one, which can be NULL. *)
Record MigratingRow : Type := mkMigratingRow {
  columns : Legacy.Supabase.NHLPlayer;
  nhl_player_id : option Z
}.

(** [ALTER TABLE nhl_players ADD COLUMN nhl_player_id integer]: every row
    there gets NULL. *)
Definition addColumn (rows : list Legacy.Supabase.NHLPlayer)
  : list MigratingRow :=
  map (fun r => mkMigratingRow r None) rows.

(** [UPDATE nhl_players SET nhl_player_id = 0 WHERE nhl_player_id IS NULL] *)
Definition backfill (rows : list MigratingRow) : list MigratingRow :=
  map (fun r =>
         match nhl_player_id r with
         | None => mkMigratingRow (columns r) (Some 0)
         | Some _ => r
         end)
      rows.

Definition withProviderId (r : Legacy.Supabase.NHLPlayer) (n : Z)
  : Current.Supabase.NHLPlayer :=
  Current.Supabase.mkNHLPlayer
    (Legacy.Supabase.id r) n (Legacy.Supabase.name r)
    (Legacy.Supabase.points_games r) (Legacy.Supabase.points_total_games r)
    (Legacy.Supabase.shots_threshold r) (Legacy.Supabase.shots_games r)
    (Legacy.Supabase.shots_total_games r)
    (Legacy.Supabase.created_at r) (Legacy.Supabase.updated_at r).

(** [ALTER COLUMN nhl_player_id SET NOT NULL]: refused when a row still
    holds NULL. *)
Fixpoint setNotNull (rows : list MigratingRow)
  : option (list Current.Supabase.NHLPlayer) :=
  match rows with
  | [] => Some []
  | r :: rest =>
      match nhl_player_id r, setNotNull rest with
      | Some n, Some done => Some (withProviderId (columns r) n :: done)
      | _, _ => None
      end
  end.

(** The three statements in order. *)
Definition migrate (rows : list Legacy.Supabase.NHLPlayer)
  : option (list Current.Supabase.NHLPlayer) :=
  setNotNull (backfill (addColumn rows)).

End Migration.

(** ** Sample worlds

    Concrete environments on which the statements below are exercised. *)

Definition sampleClock : list Event -> Date :=
  fun _ => mkDate 2025 10 1762041600000.

(** The network is down; the store accepts every write. *)
Definition offline {B : Type} : Env B :=
  mkEnv B (fun _ _ => NetworkError) (fun _ => StoreOk) sampleClock.

(** Every request is answered with the same body. *)
Definition answering {B : Type} (body : B) : Env B :=
  mkEnv B (fun _ _ => Response true (Some body)) (fun _ => StoreOk)
        sampleClock.

Definition emptyWorld {R : Type} : World R := mkWorld [] None [].

(** A legacy answer for one skater: 10 games and 15 points this season. *)
Definition legacySkater : Legacy.NhlApi.Person :=
  Legacy.NhlApi.mkPerson 8478402 "Connor McDavid"
    (Some [Legacy.NhlApi.mkStatGroup (Some "regularSeasonStatRest")
             (Some [Legacy.NhlApi.mkSeasonRecord "20242025"
                      (Some 82) (Some 100) (Some 250);
                    Legacy.NhlApi.mkSeasonRecord "20252026"
                      (Some 10) (Some 15) (Some 40)])]).

(** A directory answer of the search endpoint. *)
Definition sampleHits : list Current.NhlApi.SearchHit :=
  [Current.NhlApi.mkSearchHit 8478483 "Mitch Marner";
   Current.NhlApi.mkSearchHit 8475913 "Mark Stone";
   Current.NhlApi.mkSearchHit 8478402 "Connor McDavid"].

(** A row whose [updated_at] the database stamped five seconds after the
    instant [sampleClock] shows: the browser's clock is a little slow. *)
Definition sampleRow : Current.Supabase.NHLPlayer :=
  Current.Supabase.mkNHLPlayer "row-1" 8478402 "Connor McDavid"
    15 10 (3 # 2) 40 10 1762041605000 1762041605000.

(** A stats answer of the current provider for one skater. *)
Definition statsBody (fullName : string) (games goals assists shots : Z)
  : Current.NhlApi.Body :=
  Current.NhlApi.ObjectBody
    (Current.NhlApi.mkStatsObject
       (Some [Current.NhlApi.mkStatsGroup
                (Some [Current.NhlApi.mkSplit
                         (Some (Current.NhlApi.mkSeasonStat
                                  (Some games) (Some goals)
                                  (Some assists) (Some shots)))])])
       (Some [Current.NhlApi.mkPerson fullName])).

(** A provider where player 8478402 has played 10 games and everybody else
    none; the store accepts every write. *)
Definition sampleProvider : Env Current.NhlApi.Body :=
  mkEnv Current.NhlApi.Body
    (fun _ url =>
       if Js.includes url "/people/8478402/"
       then Response true (Some (statsBody "Connor McDavid" 10 5 10 40))
       else Response true (Some (statsBody "Mark Stone" 0 0 0 0)))
    (fun _ => StoreOk) sampleClock.

(** Three tracked players: a manual entry without provider id, one who has
    not played, one who has. *)
Definition manualRow : Current.Supabase.NHLPlayer :=
  Current.Supabase.mkNHLPlayer "row-0" 0 "Wayne Gretzky"
    3 4 (5 # 2) 9 4 1762041605000 1762041605000.

Definition idleRow : Current.Supabase.NHLPlayer :=
  Current.Supabase.mkNHLPlayer "row-2" 8475913 "Mark Stone"
    7 9 (3 # 2) 21 9 1762041605000 1762041605000.

Definition samplePlayers : list Current.Supabase.NHLPlayer :=
  [manualRow; idleRow; sampleRow].

(** A legacy skater without any statistics, and his tracked row. *)
Definition legacyRookie : Legacy.NhlApi.Person :=
  Legacy.NhlApi.mkPerson 8484144 "Macklin Celebrini" None.

Definition legacyRookieRow : Legacy.Supabase.NHLPlayer :=
  Legacy.Supabase.mkNHLPlayer "row-7" "Macklin Celebrini"
    2 3 (3 # 2) 8 3 1762041605000 1762041605000.

Definition legacySkaterRow : Legacy.Supabase.NHLPlayer :=
  Legacy.Supabase.mkNHLPlayer "row-1" "Connor McDavid"
    2 3 (3 # 2) 8 4 1762041605000 1762041605000.

(** The cache after the directory answer [sampleHits]. *)
Definition sampleDirectory : Js.Map DirectoryEntry :=
  Current.NhlApi.directoryOf sampleHits.

(** A stats answer that holds a split but no [people]. *)
Definition anonymousStats : Current.NhlApi.Body :=
  Current.NhlApi.ObjectBody
    (Current.NhlApi.mkStatsObject
       (Some [Current.NhlApi.mkStatsGroup
                (Some [Current.NhlApi.mkSplit
                         (Some (Current.NhlApi.mkSeasonStat
                                  (Some 10) (Some 5) None (Some 40)))])])
       None).

(** * Properties *)

(** ** Season resolver *)

(** C3: for every date, the season is "(Y-1)(Y)" when the zero-based month
    is below 8 and "(Y)(Y+1)" otherwise, for every year Y; the resolver is
    a total function of the date alone. *)
Theorem season_resolver_by_month (now : Date) :
  (getMonth now < 8 ->
   getCurrentNHLSeason now =
   Js.numberToString (getFullYear now - 1) +:+
   Js.numberToString (getFullYear now)) /\
  (8 <= getMonth now ->
   getCurrentNHLSeason now =
   Js.numberToString (getFullYear now) +:+
   Js.numberToString (getFullYear now + 1)).
Proof.
  unfold getCurrentNHLSeason; split; intros Hm.
  - apply Z.ltb_lt in Hm. now rewrite Hm.
  - apply Z.ltb_ge in Hm. now rewrite Hm.
Qed.

Lemma season_resolver_by_month_witness :
  getCurrentNHLSeason (mkDate 2025 7 0) = "20242025" /\
  getCurrentNHLSeason (mkDate 2025 8 0) = "20252026".
Proof.
  split.
  - apply (proj1 (season_resolver_by_month (mkDate 2025 7 0))). simpl. lia.
  - apply (proj2 (season_resolver_by_month (mkDate 2025 8 0))). simpl. lia.
Defined.

(** ** Ratios of a row *)

Lemma div_finite (a b : Z) : b <> 0 -> Js.isFinite (Js.div a b) = true.
Proof.
  intros Hb. unfold Js.div.
  destruct (b =? 0) eqn:E; [apply Z.eqb_eq in E; contradiction | reflexivity].
Qed.

Lemma guarded_ratio_finite (a b : Z) :
  Js.isFinite (if b >? 0 then Js.div a b else Js.Finite 0) = true.
Proof.
  destruct (b >? 0) eqn:E; [|reflexivity].
  apply div_finite. rewrite Z.gtb_ltb in E. apply Z.ltb_lt in E. lia.
Qed.

(** C6: both ratios of a row are total.  With a denominator of 0 the
    current row shows exactly 0 and the legacy row the text "0.0"; for every
    row the current ratios are finite numbers (no NaN, no infinity), and the
    legacy percentages are "0.0" or the rendering of a finite number. *)
Theorem ratios_total :
  (forall player : Current.Supabase.NHLPlayer,
     (Current.Supabase.points_total_games player = 0 ->
      Current.PlayerRow.pointsAverage player = Js.Finite 0) /\
     (Current.Supabase.shots_total_games player = 0 ->
      Current.PlayerRow.shotsPerGame player = Js.Finite 0) /\
     Js.isFinite (Current.PlayerRow.pointsAverage player) = true /\
     Js.isFinite (Current.PlayerRow.shotsPerGame player) = true) /\
  (forall (toFixed : Js.JsNumber -> nat -> string)
          (player : Legacy.Supabase.NHLPlayer),
     (Legacy.Supabase.points_total_games player = 0 ->
      Legacy.PlayerRow.pointsPercentage toFixed player = "0.0") /\
     (Legacy.Supabase.shots_total_games player = 0 ->
      Legacy.PlayerRow.shotsPercentage toFixed player = "0.0") /\
     (Legacy.PlayerRow.pointsPercentage toFixed player = "0.0" \/
      exists q, Legacy.PlayerRow.pointsPercentage toFixed player =
                toFixed (Js.Finite q) 1%nat) /\
     (Legacy.PlayerRow.shotsPercentage toFixed player = "0.0" \/
      exists q, Legacy.PlayerRow.shotsPercentage toFixed player =
                toFixed (Js.Finite q) 1%nat)).
Proof.
  split.
  - intros player.
    unfold Current.PlayerRow.pointsAverage, Current.PlayerRow.shotsPerGame.
    repeat split.
    + intros ->. reflexivity.
    + intros ->. reflexivity.
    + apply guarded_ratio_finite.
    + apply guarded_ratio_finite.
  - intros toFixed player.
    unfold Legacy.PlayerRow.pointsPercentage, Legacy.PlayerRow.shotsPercentage.
    repeat split.
    + intros ->. reflexivity.
    + intros ->. reflexivity.
    + destruct (Legacy.Supabase.points_total_games player >? 0) eqn:E;
        [right | now left].
      unfold Js.div.
      rewrite Z.gtb_ltb in E. apply Z.ltb_lt in E.
      destruct (Legacy.Supabase.points_total_games player =? 0) eqn:E0;
        [apply Z.eqb_eq in E0; lia |]. simpl. eauto.
    + destruct (Legacy.Supabase.shots_total_games player >? 0) eqn:E;
        [right | now left].
      unfold Js.div.
      rewrite Z.gtb_ltb in E. apply Z.ltb_lt in E.
      destruct (Legacy.Supabase.shots_total_games player =? 0) eqn:E0;
        [apply Z.eqb_eq in E0; lia |]. simpl. eauto.
Qed.

Lemma ratios_total_witness :
  Current.PlayerRow.pointsAverage
    (Current.Supabase.mkNHLPlayer "row-1" 8478402 "Connor McDavid"
       7 0 (3 # 2) 12 0 0 0) = Js.Finite 0 /\
  Legacy.PlayerRow.shotsPercentage (fun _ _ => "?")
    (Legacy.Supabase.mkNHLPlayer "row-1" "Connor McDavid"
       7 0 (3 # 2) 12 0 0 0) = "0.0".
Proof.
  split.
  - apply (proj1 (proj1 ratios_total _)). reflexivity.
  - apply (proj1 (proj2 (proj2 ratios_total _ _))). reflexivity.
Defined.

(** ** Stats fetcher *)

Section StatsFetcher.
Context {R : Type}.

(** One call of the current fetcher: the clock is read, one request is
    sent, and the answer alone decides the result. *)
Lemma current_getNHLPlayerStats_run
  (env : Env Current.NhlApi.Body) (playerId : Z) (w : World R) :
  let url :=
    Current.NhlApi.statsUrl playerId
      (getCurrentNHLSeason (clock env (trace w))) in
  Current.NhlApi.getNHLPlayerStats env playerId w =
  (match http env (trace w ++ [EvNow]) url with
   | Response true (Some data) => Current.NhlApi.statsOfData playerId data
   | _ => None
   end,
   mkWorld (table w) (cachedPlayers w) (trace w ++ [EvNow; EvFetch url])).
Proof.
  intros url.
  unfold Current.NhlApi.getNHLPlayerStats, bind, newDate, fetch, ret; simpl.
  fold url. rewrite <- app_assoc. simpl.
  destruct (http env (trace w ++ [EvNow]) url) as [|[] [data|]]; reflexivity.
Qed.

(** One call of the legacy fetcher by id: one request; the clock is read
    only when the answer holds a player. *)
Lemma legacy_getNHLPlayerStats_run
  (env : Env Legacy.NhlApi.Body) (playerId : Z) (w : World R) :
  let url := Legacy.NhlApi.personUrl playerId in
  Legacy.NhlApi.getNHLPlayerStats env (Legacy.NhlApi.ById playerId) w =
  match http env (trace w) url with
  | Response true (Some (Legacy.NhlApi.mkBody (Some (player :: _)))) =>
      (Some (Legacy.NhlApi.statsOfPerson
               (getCurrentNHLSeason (clock env (trace w ++ [EvFetch url])))
               player),
       mkWorld (table w) (cachedPlayers w)
               (trace w ++ [EvFetch url; EvNow]))
  | _ =>
      (None,
       mkWorld (table w) (cachedPlayers w) (trace w ++ [EvFetch url]))
  end.
Proof.
  intros url.
  unfold Legacy.NhlApi.getNHLPlayerStats, bind, newDate, fetch, ret; simpl.
  fold url.
  destruct (http env (trace w) url) as [|[] [[[[|player rest]|]]|]];
    simpl; try reflexivity.
  now rewrite <- app_assoc.
Qed.

End StatsFetcher.

Lemma legacy_statsOfPerson_zero (currentSeason : string)
  (player : Legacy.NhlApi.Person) :
  (forall grp rec,
     In grp (default [] (Legacy.NhlApi.person_stats player)) ->
     Legacy.NhlApi.type_displayName grp = Some "regularSeasonStatRest" ->
     In rec (default [] (Legacy.NhlApi.group_stats grp)) ->
     Legacy.NhlApi.season rec <> currentSeason) ->
  Legacy.NhlApi.statsOfPerson currentSeason player =
  Legacy.NhlApi.zeroStats player.
Proof.
  intros Habsent. unfold Legacy.NhlApi.statsOfPerson.
  destruct (List.find _ (default [] (Legacy.NhlApi.person_stats player)))
    as [grp|] eqn:Hgrp; [|reflexivity].
  apply List.find_some in Hgrp as [Hin Hreg].
  apply bool_decide_eq_true in Hreg.
  destruct (List.find _ (default [] (Legacy.NhlApi.group_stats grp)))
    as [rec|] eqn:Hrec; [|reflexivity].
  apply List.find_some in Hrec as [Hin' Hseason].
  apply bool_decide_eq_true in Hseason.
  exfalso. exact (Habsent grp rec Hin Hreg Hin' Hseason).
Qed.

(** C10: in the legacy fetcher, when the answer holds the player and the
    fetcher finds the season record (the first record of the current season
    in the first group named regularSeasonStatRest) with g games played and
    p points, the snapshot's pointsGames is g when p > 0 and 0 when p = 0:
    the whole games-played count, gated on having any point. *)
Theorem legacy_pointsGames_is_games_gated_on_points
  (R : Type) (env : Env Legacy.NhlApi.Body) (w : World R) (playerId : Z)
  (player : Legacy.NhlApi.Person) (rest : list Legacy.NhlApi.Person)
  (grp : Legacy.NhlApi.StatGroup) (rec : Legacy.NhlApi.SeasonRecord) :
  let url := Legacy.NhlApi.personUrl playerId in
  let currentSeason :=
    getCurrentNHLSeason (clock env (trace w ++ [EvFetch url])) in
  let g := Js.orZero (Legacy.NhlApi.season_gamesPlayed rec) in
  let p := Js.orZero (Legacy.NhlApi.season_points rec) in
  http env (trace w) url =
  Response true (Some (Legacy.NhlApi.mkBody (Some (player :: rest)))) ->
  List.find
    (fun s => bool_decide (Legacy.NhlApi.type_displayName s =
                           Some "regularSeasonStatRest"))
    (default [] (Legacy.NhlApi.person_stats player)) = Some grp ->
  List.find
    (fun s => Js.strictEq (Legacy.NhlApi.season s) currentSeason)
    (default [] (Legacy.NhlApi.group_stats grp)) = Some rec ->
  exists snapshot,
    fst (Legacy.NhlApi.getNHLPlayerStats env (Legacy.NhlApi.ById playerId) w)
    = Some snapshot /\
    (p > 0 -> Legacy.NhlApi.pointsGames snapshot = g) /\
    (p = 0 -> Legacy.NhlApi.pointsGames snapshot = 0) /\
    Legacy.NhlApi.totalGames snapshot = g /\
    Legacy.NhlApi.points snapshot = p.
Proof.
  intros url currentSeason g p Hanswer Hgrp Hrec.
  rewrite legacy_getNHLPlayerStats_run. fold url. rewrite Hanswer.
  eexists; split; [reflexivity|].
  unfold Legacy.NhlApi.statsOfPerson. fold currentSeason.
  rewrite Hgrp, Hrec. simpl. fold g p.
  repeat split; try reflexivity.
  - intros Hp. destruct (p >? 0) eqn:E; [reflexivity|].
    rewrite Z.gtb_ltb in E. apply Z.ltb_ge in E. lia.
  - intros ->. reflexivity.
Qed.

Lemma legacy_pointsGames_is_games_gated_on_points_witness :
  exists snapshot,
    fst (Legacy.NhlApi.getNHLPlayerStats
           (answering (Legacy.NhlApi.mkBody (Some [legacySkater])))
           (Legacy.NhlApi.ById 8478402) (emptyWorld (R:=unit)))
    = Some snapshot /\
    Legacy.NhlApi.pointsGames snapshot = 10 /\
    Legacy.NhlApi.points snapshot = 15.
Proof.
  destruct (legacy_pointsGames_is_games_gated_on_points unit
              (answering (Legacy.NhlApi.mkBody (Some [legacySkater])))
              emptyWorld 8478402 legacySkater []
              (Legacy.NhlApi.mkStatGroup (Some "regularSeasonStatRest")
                 (Some [Legacy.NhlApi.mkSeasonRecord "20242025"
                          (Some 82) (Some 100) (Some 250);
                        Legacy.NhlApi.mkSeasonRecord "20252026"
                          (Some 10) (Some 15) (Some 40)]))
              (Legacy.NhlApi.mkSeasonRecord "20252026"
                 (Some 10) (Some 15) (Some 40))
              eq_refl eq_refl eq_refl)
    as (snapshot & Hsnap & Hpos & _ & _ & Hpoints).
  exists snapshot. split; [exact Hsnap|]. split; [|exact Hpoints].
  apply Hpos. simpl. lia.
Defined.

(** ** Player directory cache *)

Section DirectoryCache.
Context {R : Type}.

Lemma fetchedUrls_app (a b : list Event) :
  fetchedUrls (a ++ b) = fetchedUrls a ++ fetchedUrls b.
Proof. unfold fetchedUrls. apply omap_app. Qed.

Lemma world_eta (w : World R) :
  mkWorld (table w) (cachedPlayers w) (trace w) = w.
Proof. now destruct w. Qed.

(** **** Current revision *)

Lemma current_load_cached (env : Env Current.NhlApi.Body) (w : World R)
  (players : Js.Map DirectoryEntry) :
  cachedPlayers w = Some players ->
  Current.NhlApi.loadAllPlayers env w = (players, w).
Proof.
  intros Hc. unfold Current.NhlApi.loadAllPlayers, bind, getCache.
  now rewrite Hc.
Qed.

Lemma current_load_miss (env : Env Current.NhlApi.Body) (w : World R) :
  cachedPlayers w = None ->
  Current.NhlApi.loadAllPlayers env w =
  match http env (trace w) Current.NhlApi.directoryUrl with
  | Response true (Some (Current.NhlApi.ArrayBody (hit :: hits))) =>
      (Current.NhlApi.directoryOf (hit :: hits),
       mkWorld (table w) (Some (Current.NhlApi.directoryOf (hit :: hits)))
               (trace w ++ [EvFetch Current.NhlApi.directoryUrl]))
  | _ =>
      ([], mkWorld (table w) None
                   (trace w ++ [EvFetch Current.NhlApi.directoryUrl]))
  end.
Proof.
  intros Hc.
  unfold Current.NhlApi.loadAllPlayers, bind, getCache, fetch, setCache, ret.
  rewrite Hc.
  destruct (http env (trace w) Current.NhlApi.directoryUrl)
    as [|[] [[[|hit hits]|d]|]]; simpl; rewrite ?Hc; reflexivity.
Qed.

Lemma current_search_world (env : Env Current.NhlApi.Body)
  (localeCompare : string -> string -> Z) (query : string) (w : World R) :
  snd (Current.NhlApi.searchNHLPlayers env localeCompare query w) =
  snd (Current.NhlApi.loadAllPlayers env w).
Proof.
  unfold Current.NhlApi.searchNHLPlayers, bind, ret.
  destruct (Current.NhlApi.loadAllPlayers env w) as [players w'].
  now destruct (Js.mapSize players =? 0)%nat.
Qed.

Lemma current_searchEach_cached (env : Env Current.NhlApi.Body)
  (localeCompare : string -> string -> Z) (queries : list string)
  (w : World R) (players : Js.Map DirectoryEntry) :
  cachedPlayers w = Some players ->
  snd (Current.NhlApi.searchEach env localeCompare queries w) = w.
Proof.
  intros Hc. induction queries as [|query rest IH]; [reflexivity|].
  simpl. unfold bind at 1.
  pose proof (current_search_world env localeCompare query w) as Hw.
  rewrite (current_load_cached env w players Hc) in Hw.
  destruct (Current.NhlApi.searchNHLPlayers env localeCompare query w)
    as [found w1]. simpl in Hw. subst w1.
  unfold bind, ret.
  destruct (Current.NhlApi.searchEach env localeCompare rest w)
    as [others w2]. exact IH.
Qed.

(** **** Legacy revision *)

Lemma legacy_load_cached (env : Env Legacy.NhlApi.Body) (w : World R)
  (players : Js.Map DirectoryEntry) :
  cachedPlayers w = Some players ->
  Legacy.NhlApi.loadAllPlayers env w = (players, w).
Proof.
  intros Hc. unfold Legacy.NhlApi.loadAllPlayers, bind, getCache.
  now rewrite Hc.
Qed.

Lemma legacy_load_miss (env : Env Legacy.NhlApi.Body) (w : World R) :
  cachedPlayers w = None ->
  Legacy.NhlApi.loadAllPlayers env w =
  match http env (trace w) Legacy.NhlApi.directoryUrl with
  | Response true (Some (Legacy.NhlApi.mkBody (Some (player :: roster)))) =>
      (Legacy.NhlApi.directoryOf (player :: roster),
       mkWorld (table w)
               (Some (Legacy.NhlApi.directoryOf (player :: roster)))
               (trace w ++ [EvFetch Legacy.NhlApi.directoryUrl]))
  | _ =>
      ([], mkWorld (table w) None
                   (trace w ++ [EvFetch Legacy.NhlApi.directoryUrl]))
  end.
Proof.
  intros Hc.
  unfold Legacy.NhlApi.loadAllPlayers, bind, getCache, fetch, setCache, ret.
  rewrite Hc.
  destruct (http env (trace w) Legacy.NhlApi.directoryUrl)
    as [|[] [[[[|player roster]|]]|]]; simpl; rewrite ?Hc; reflexivity.
Qed.

Lemma legacy_search_world (env : Env Legacy.NhlApi.Body) (query : string)
  (w : World R) :
  snd (Legacy.NhlApi.searchNHLPlayers env query w) =
  snd (Legacy.NhlApi.loadAllPlayers env w).
Proof.
  unfold Legacy.NhlApi.searchNHLPlayers, bind, ret.
  destruct (Legacy.NhlApi.loadAllPlayers env w) as [players w'].
  now destruct (Js.mapSize players =? 0)%nat.
Qed.

Lemma legacy_searchEach_cached (env : Env Legacy.NhlApi.Body)
  (queries : list string) (w : World R) (players : Js.Map DirectoryEntry) :
  cachedPlayers w = Some players ->
  snd (Legacy.NhlApi.searchEach env queries w) = w.
Proof.
  intros Hc. induction queries as [|query rest IH]; [reflexivity|].
  simpl. unfold bind at 1.
  pose proof (legacy_search_world env query w) as Hw.
  rewrite (legacy_load_cached env w players Hc) in Hw.
  destruct (Legacy.NhlApi.searchNHLPlayers env query w) as [found w1].
  simpl in Hw. subst w1.
  unfold bind, ret.
  destruct (Legacy.NhlApi.searchEach env rest w) as [others w2]. exact IH.
Qed.

End DirectoryCache.

Lemma current_searchEach_cons {R : Type} (env : Env Current.NhlApi.Body)
  (localeCompare : string -> string -> Z) (query : string)
  (rest : list string) (w : World R) :
  snd (Current.NhlApi.searchEach env localeCompare (query :: rest) w) =
  snd (Current.NhlApi.searchEach env localeCompare rest
         (snd (Current.NhlApi.searchNHLPlayers env localeCompare query w))).
Proof.
  simpl. unfold bind, ret.
  destruct (Current.NhlApi.searchNHLPlayers env localeCompare query w)
    as [found w1]. simpl.
  now destruct (Current.NhlApi.searchEach env localeCompare rest w1).
Qed.

Lemma legacy_searchEach_cons {R : Type} (env : Env Legacy.NhlApi.Body)
  (query : string) (rest : list string) (w : World R) :
  snd (Legacy.NhlApi.searchEach env (query :: rest) w) =
  snd (Legacy.NhlApi.searchEach env rest
         (snd (Legacy.NhlApi.searchNHLPlayers env query w))).
Proof.
  simpl. unfold bind, ret.
  destruct (Legacy.NhlApi.searchNHLPlayers env query w) as [found w1]. simpl.
  now destruct (Legacy.NhlApi.searchEach env rest w1).
Qed.

Lemma current_search_empty_directory {R : Type}
  (env : Env Current.NhlApi.Body) (localeCompare : string -> string -> Z)
  (query : string) (w : World R) :
  fst (Current.NhlApi.loadAllPlayers env w) = [] ->
  fst (Current.NhlApi.searchNHLPlayers env localeCompare query w) = [].
Proof.
  unfold Current.NhlApi.searchNHLPlayers, bind, ret.
  destruct (Current.NhlApi.loadAllPlayers env w) as [players w'].
  simpl. now intros ->.
Qed.

Lemma legacy_search_empty_directory {R : Type}
  (env : Env Legacy.NhlApi.Body) (query : string) (w : World R) :
  fst (Legacy.NhlApi.loadAllPlayers env w) = [] ->
  fst (Legacy.NhlApi.searchNHLPlayers env query w) = [].
Proof.
  unfold Legacy.NhlApi.searchNHLPlayers, bind, ret.
  destruct (Legacy.NhlApi.loadAllPlayers env w) as [players w'].
  simpl. now intros ->.
Qed.

(** C5: from a process whose cache is still empty, N search calls in
    sequence send exactly one directory request when the first one succeeds
    (N >= 1; every later call reads the cache) and none when N = 0; when the
    directory request fails (no answer, a status that is not a success, a body
    that is not JSON, not an array, or empty) that search returns the empty
    list, the cache stays empty, and the next search sends the directory
    request again.  Current revision first, then the legacy one. *)
Theorem directory_cache_fetches :
  (forall (R : Type) (env : Env Current.NhlApi.Body)
          (localeCompare : string -> string -> Z) (w : World R),
     let url := Current.NhlApi.directoryUrl in
     let answer := http env (trace w) url in
     let search := Current.NhlApi.searchNHLPlayers env localeCompare in
     let searchEach := Current.NhlApi.searchEach env localeCompare in
     cachedPlayers w = None ->
     fetchedUrls (trace (snd (searchEach [] w))) = fetchedUrls (trace w) /\
     (forall hit hits query rest,
        answer =
        Response true (Some (Current.NhlApi.ArrayBody (hit :: hits))) ->
        fetchedUrls (trace (snd (searchEach (query :: rest) w))) =
        fetchedUrls (trace w) ++ [url]) /\
     ((forall hit hits,
         answer <>
         Response true (Some (Current.NhlApi.ArrayBody (hit :: hits)))) ->
      forall query,
        fst (search query w) = [] /\
        cachedPlayers (snd (search query w)) = None /\
        fetchedUrls (trace (snd (search query w))) =
        fetchedUrls (trace w) ++ [url] /\
        forall next,
          fetchedUrls (trace (snd (search next (snd (search query w))))) =
          fetchedUrls (trace (snd (search query w))) ++ [url])) /\
  (forall (R : Type) (env : Env Legacy.NhlApi.Body) (w : World R),
     let url := Legacy.NhlApi.directoryUrl in
     let answer := http env (trace w) url in
     let search := Legacy.NhlApi.searchNHLPlayers env in
     let searchEach := Legacy.NhlApi.searchEach env in
     cachedPlayers w = None ->
     fetchedUrls (trace (snd (searchEach [] w))) = fetchedUrls (trace w) /\
     (forall player roster query rest,
        answer =
        Response true
          (Some (Legacy.NhlApi.mkBody (Some (player :: roster)))) ->
        fetchedUrls (trace (snd (searchEach (query :: rest) w))) =
        fetchedUrls (trace w) ++ [url]) /\
     ((forall player roster,
         answer <>
         Response true
           (Some (Legacy.NhlApi.mkBody (Some (player :: roster))))) ->
      forall query,
        fst (search query w) = [] /\
        cachedPlayers (snd (search query w)) = None /\
        fetchedUrls (trace (snd (search query w))) =
        fetchedUrls (trace w) ++ [url] /\
        forall next,
          fetchedUrls (trace (snd (search next (snd (search query w))))) =
          fetchedUrls (trace (snd (search query w))) ++ [url])).
Proof.
  split.
  - intros R env localeCompare w url answer search searchEach Hempty.
    assert (Hmiss : forall w' : World R,
              cachedPlayers w' = None ->
              fetchedUrls (trace (snd (Current.NhlApi.loadAllPlayers env w')))
              = fetchedUrls (trace w') ++ [url]).
    { intros w' Hc. rewrite (current_load_miss env w' Hc).
      destruct (http env (trace w') Current.NhlApi.directoryUrl)
        as [|[] [[[|hit hits]|d]|]]; simpl; now rewrite fetchedUrls_app. }
    split; [reflexivity|]. split.
    + intros hit hits query rest Hanswer. subst searchEach.
      rewrite current_searchEach_cons, current_search_world.
      rewrite (current_load_miss env w Hempty). fold url answer.
      rewrite Hanswer. simpl.
      erewrite current_searchEach_cached by reflexivity. simpl.
      now rewrite fetchedUrls_app.
    + intros Hfail query. subst search.
      assert (Hload : Current.NhlApi.loadAllPlayers env w =
                      ([], mkWorld (table w) None (trace w ++ [EvFetch url]))).
      { rewrite (current_load_miss env w Hempty). fold url answer.
        destruct answer as [|[] [[[|hit hits]|d]|]] eqn:E; try reflexivity.
        exfalso. exact (Hfail hit hits eq_refl). }
      rewrite !current_search_world, Hload. simpl.
      repeat split.
      * apply current_search_empty_directory. now rewrite Hload.
      * now rewrite fetchedUrls_app.
      * intros next. rewrite current_search_world. now apply Hmiss.
  - intros R env w url answer search searchEach Hempty.
    assert (Hmiss : forall w' : World R,
              cachedPlayers w' = None ->
              fetchedUrls (trace (snd (Legacy.NhlApi.loadAllPlayers env w')))
              = fetchedUrls (trace w') ++ [url]).
    { intros w' Hc. rewrite (legacy_load_miss env w' Hc).
      destruct (http env (trace w') Legacy.NhlApi.directoryUrl)
        as [|[] [[[[|player roster]|]]|]]; simpl;
        now rewrite fetchedUrls_app. }
    split; [reflexivity|]. split.
    + intros player roster query rest Hanswer. subst searchEach.
      rewrite legacy_searchEach_cons, legacy_search_world.
      rewrite (legacy_load_miss env w Hempty). fold url answer.
      rewrite Hanswer. simpl.
      erewrite legacy_searchEach_cached by reflexivity. simpl.
      now rewrite fetchedUrls_app.
    + intros Hfail query. subst search.
      assert (Hload : Legacy.NhlApi.loadAllPlayers env w =
                      ([], mkWorld (table w) None (trace w ++ [EvFetch url]))).
      { rewrite (legacy_load_miss env w Hempty). fold url answer.
        destruct answer as [|[] [[[[|player roster]|]]|]] eqn:E;
          try reflexivity.
        exfalso. exact (Hfail player roster eq_refl). }
      rewrite !legacy_search_world, Hload. simpl.
      repeat split.
      * apply legacy_search_empty_directory. now rewrite Hload.
      * now rewrite fetchedUrls_app.
      * intros next. rewrite legacy_search_world. now apply Hmiss.
Qed.

Lemma directory_cache_fetches_witness :
  fetchedUrls
    (trace (snd (Current.NhlApi.searchEach
                   (answering (Current.NhlApi.ArrayBody sampleHits))
                   Js.codeUnitCompare ["mcd"; "mar"; "stone"]
                   (emptyWorld (R:=unit))))) =
  [Current.NhlApi.directoryUrl] /\
  fst (Current.NhlApi.searchNHLPlayers offline Js.codeUnitCompare "mcd"
         (emptyWorld (R:=unit))) = [] /\
  fetchedUrls
    (trace (snd (Legacy.NhlApi.searchEach
                   (answering (Legacy.NhlApi.mkBody (Some [legacySkater])))
                   ["mcd"; "mar"] (emptyWorld (R:=unit))))) =
  [Legacy.NhlApi.directoryUrl].
Proof.
  split; [|split].
  - apply (proj1 (proj2 (proj1 directory_cache_fetches unit
                           (answering (Current.NhlApi.ArrayBody sampleHits))
                           Js.codeUnitCompare emptyWorld eq_refl))
             (Current.NhlApi.mkSearchHit 8478483 "Mitch Marner")
             [Current.NhlApi.mkSearchHit 8475913 "Mark Stone";
              Current.NhlApi.mkSearchHit 8478402 "Connor McDavid"]).
    reflexivity.
  - apply (proj2 (proj2 (proj1 directory_cache_fetches unit offline
                           Js.codeUnitCompare emptyWorld eq_refl))).
    intros hit hits. discriminate.
  - apply (proj1 (proj2 (proj2 directory_cache_fetches unit
                           (answering
                              (Legacy.NhlApi.mkBody (Some [legacySkater])))
                           emptyWorld eq_refl))
             legacySkater []).
    reflexivity.
Defined.

(** ** Player repository: update *)

Lemma current_handleUpdatePlayer_run (env : Env Current.NhlApi.Body)
  (rowId : string) (updates : Current.Supabase.PartialNHLPlayer)
  (w : World Current.Supabase.NHLPlayer) :
  let now := getTime (clock env (trace w)) in
  let outcome := storage env (trace w ++ [EvNow]) in
  Current.App.handleUpdatePlayer env rowId updates w =
  (outcome,
   mkWorld
     match outcome with
     | StoreOk =>
         map (fun r =>
                if bool_decide (Current.Supabase.id r = rowId)
                then Current.Supabase.assign
                       (Current.Supabase.withUpdatedAt updates now) r
                else r)
             (table w)
     | _ => table w
     end
     (cachedPlayers w) (trace w ++ [EvNow; EvUpdate rowId])).
Proof.
  intros now outcome.
  unfold Current.App.handleUpdatePlayer, bind, newDate, updateEq. simpl.
  now rewrite <- app_assoc.
Qed.

Lemma legacy_handleUpdatePlayer_run (env : Env Legacy.NhlApi.Body)
  (rowId : string) (updates : Legacy.Supabase.PartialNHLPlayer)
  (w : World Legacy.Supabase.NHLPlayer) :
  let now := getTime (clock env (trace w)) in
  let outcome := storage env (trace w ++ [EvNow]) in
  Legacy.App.handleUpdatePlayer env rowId updates w =
  (outcome,
   mkWorld
     match outcome with
     | StoreOk =>
         map (fun r =>
                if bool_decide (Legacy.Supabase.id r = rowId)
                then Legacy.Supabase.assign
                       (Legacy.Supabase.withUpdatedAt updates now) r
                else r)
             (table w)
     | _ => table w
     end
     (cachedPlayers w) (trace w ++ [EvNow; EvUpdate rowId])).
Proof.
  intros now outcome.
  unfold Legacy.App.handleUpdatePlayer, bind, newDate, updateEq. simpl.
  now rewrite <- app_assoc.
Qed.

(** C8, as the code has it: every update writes the caller's fields and,
    over any [updated_at] among them, the reading of the browser's clock
    taken at the call.  After a successful update a row with the given id
    holds exactly that: each column the caller named has the caller's value,
    every other column but [updated_at] is as before (all of them, when the
    caller named none), and [updated_at] is the clock reading; so it is at
    or after the earlier [updated_at] exactly when the clock reading is.
    Current revision first, then the legacy one. *)
Theorem update_stamps_clock_reading :
  (forall (env : Env Current.NhlApi.Body)
          (w : World Current.Supabase.NHLPlayer) (rowId : string)
          (updates : Current.Supabase.PartialNHLPlayer)
          (i : nat) (row : Current.Supabase.NHLPlayer),
     let now := getTime (clock env (trace w)) in
     let after :=
       table (snd (Current.App.handleUpdatePlayer env rowId updates w)) in
     storage env (trace w ++ [EvNow]) = StoreOk ->
     table w !! i = Some row ->
     Current.Supabase.id row = rowId ->
     exists row',
       after !! i = Some row' /\
       row' =
       Current.Supabase.assign
         (Current.Supabase.withUpdatedAt updates now) row /\
       Current.Supabase.updated_at row' = now /\
       (updates = Current.Supabase.noFields ->
        row' =
        Current.Supabase.mkNHLPlayer
          (Current.Supabase.id row) (Current.Supabase.nhl_player_id row)
          (Current.Supabase.name row) (Current.Supabase.points_games row)
          (Current.Supabase.points_total_games row)
          (Current.Supabase.shots_threshold row)
          (Current.Supabase.shots_games row)
          (Current.Supabase.shots_total_games row)
          (Current.Supabase.created_at row) now) /\
       (Current.Supabase.updated_at row <= Current.Supabase.updated_at row'
        <-> Current.Supabase.updated_at row <= now)) /\
  (forall (env : Env Legacy.NhlApi.Body)
          (w : World Legacy.Supabase.NHLPlayer) (rowId : string)
          (updates : Legacy.Supabase.PartialNHLPlayer)
          (i : nat) (row : Legacy.Supabase.NHLPlayer),
     let now := getTime (clock env (trace w)) in
     let after :=
       table (snd (Legacy.App.handleUpdatePlayer env rowId updates w)) in
     storage env (trace w ++ [EvNow]) = StoreOk ->
     table w !! i = Some row ->
     Legacy.Supabase.id row = rowId ->
     exists row',
       after !! i = Some row' /\
       row' =
       Legacy.Supabase.assign
         (Legacy.Supabase.withUpdatedAt updates now) row /\
       Legacy.Supabase.updated_at row' = now /\
       (updates = Legacy.Supabase.noFields ->
        row' =
        Legacy.Supabase.mkNHLPlayer
          (Legacy.Supabase.id row)
          (Legacy.Supabase.name row) (Legacy.Supabase.points_games row)
          (Legacy.Supabase.points_total_games row)
          (Legacy.Supabase.shots_threshold row)
          (Legacy.Supabase.shots_games row)
          (Legacy.Supabase.shots_total_games row)
          (Legacy.Supabase.created_at row) now) /\
       (Legacy.Supabase.updated_at row <= Legacy.Supabase.updated_at row'
        <-> Legacy.Supabase.updated_at row <= now)).
Proof.
  split.
  - intros env w rowId updates i row now after Hok Hrow Hid. subst after.
    rewrite current_handleUpdatePlayer_run. fold now. rewrite Hok. simpl.
    rewrite list_lookup_fmap, Hrow. simpl.
    rewrite bool_decide_eq_true_2 by exact Hid.
    eexists. split; [reflexivity|]. split; [reflexivity|].
    split; [reflexivity|]. split; [|reflexivity].
    intros ->. reflexivity.
  - intros env w rowId updates i row now after Hok Hrow Hid. subst after.
    rewrite legacy_handleUpdatePlayer_run. fold now. rewrite Hok. simpl.
    rewrite list_lookup_fmap, Hrow. simpl.
    rewrite bool_decide_eq_true_2 by exact Hid.
    eexists. split; [reflexivity|]. split; [reflexivity|].
    split; [reflexivity|]. split; [|reflexivity].
    intros ->. reflexivity.
Qed.

Lemma update_stamps_clock_reading_witness :
  exists row',
    table (snd (Current.App.handleUpdatePlayer offline "row-1"
                  Current.Supabase.noFields
                  (mkWorld [sampleRow] None []))) !! 0%nat = Some row' /\
    Current.Supabase.updated_at row' = 1762041600000.
Proof.
  destruct (proj1 update_stamps_clock_reading offline
              (mkWorld [sampleRow] None []) "row-1"
              Current.Supabase.noFields 0%nat sampleRow
              eq_refl eq_refl eq_refl)
    as (row' & Hafter & _ & Hstamp & _).
  exists row'. split; [exact Hafter | exact Hstamp].
Defined.

(** C8 as stated fails: a successful update can leave [updated_at] earlier
    than it was.  The row was stamped by the database at ...605000; the
    browser's clock shows ...600000 when the update with no other field is
    sent and accepted. *)
Lemma update_can_move_updated_at_back :
  let w := mkWorld [sampleRow] None [] in
  let result :=
    Current.App.handleUpdatePlayer offline "row-1"
      Current.Supabase.noFields w in
  fst result = StoreOk /\
  exists row',
    table (snd result) = [row'] /\
    Current.Supabase.updated_at row' < Current.Supabase.updated_at sampleRow.
Proof.
  split; [reflexivity|].
  eexists. split; [reflexivity|]. reflexivity.
Qed.

(** ** Refresh orchestrator, current revision *)

Section CurrentRefresh.
Import Current.Supabase Current.App.
Context (env : Env Current.NhlApi.Body).

Lemma current_fetch_keeps_table (playerId : Z) (w : World NHLPlayer) :
  table (snd (Current.NhlApi.getNHLPlayerStats env playerId w)) = table w.
Proof. now rewrite current_getNHLPlayerStats_run. Qed.

Lemma current_fetch_updatedRows (playerId : Z) (w : World NHLPlayer) :
  updatedRows (trace (snd (Current.NhlApi.getNHLPlayerStats env playerId w)))
  = updatedRows (trace w).
Proof.
  rewrite current_getNHLPlayerStats_run. simpl.
  unfold updatedRows. rewrite omap_app. simpl. apply app_nil_r.
Qed.

(** One turn of the loop: the summary gets the tally of the outcome, and
    the world after it does not depend on the summary. *)
Lemma current_refreshPlayer_run (player : NHLPlayer) (s : RefreshSummary)
  (w : World NHLPlayer) :
  let w1 :=
    snd (Current.NhlApi.getNHLPlayerStats env (nhl_player_id player) w) in
  refreshPlayer env player s w =
  (tally player (outcome env player w) s,
   match outcome env player w with
   | Skipped => w
   | FetchFailed | NoGames => w1
   | Updated nhlStats =>
       mkWorld
         (rowsUpdated id
            (assign (refreshFields nhlStats (stampedAt env player w)))
            (id player) (table w))
         (cachedPlayers w1) (trace w1 ++ [EvNow; EvUpdate (id player)])
   | NotStored _ =>
       mkWorld (table w) (cachedPlayers w1)
               (trace w1 ++ [EvNow; EvUpdate (id player)])
   end).
Proof.
  intros w1. unfold refreshPlayer, outcome, isFalsy.
  rewrite orb_diag.
  destruct (nhl_player_id player =? 0); [reflexivity|].
  unfold bind, fetched, stored, stampedAt. fold w1.
  pose proof (current_fetch_keeps_table (nhl_player_id player) w) as Htable.
  fold w1 in Htable.
  destruct (Current.NhlApi.getNHLPlayerStats env (nhl_player_id player) w)
    as [[nhlStats|] w1'] eqn:Hfetch; simpl in *; subst w1; simpl in *;
    [|reflexivity].
  destruct (Current.NhlApi.totalGames nhlStats =? 0); [reflexivity|].
  unfold newDate, updateEq, ret. simpl.
  rewrite <- app_assoc, Htable. simpl.
  destruct (storage env (trace w1' ++ [EvNow])) as [| |[message|]];
    reflexivity.
Qed.

Lemma current_step_summary (player : NHLPlayer) (s : RefreshSummary)
  (w : World NHLPlayer) :
  fst (refreshPlayer env player s w) = tally player (outcome env player w) s.
Proof. now rewrite current_refreshPlayer_run. Qed.

Lemma current_step_world (player : NHLPlayer) (s : RefreshSummary) (w : World NHLPlayer) :
  snd (refreshPlayer env player s w) = worldAfter env [player] w.
Proof.
  unfold worldAfter. simpl. unfold bind, ret.
  rewrite !current_refreshPlayer_run. reflexivity.
Qed.

Lemma current_step_table (player : NHLPlayer) (w : World NHLPlayer) :
  table (worldAfter env [player] w) =
  match outcome env player w with
  | Updated nhlStats =>
      rowsUpdated id
        (assign (refreshFields nhlStats (stampedAt env player w)))
        (id player) (table w)
  | _ => table w
  end.
Proof.
  rewrite <- (current_step_world player (mkSummary 0 [])).
  rewrite current_refreshPlayer_run. simpl.
  destruct (outcome env player w); simpl; try reflexivity;
    apply current_fetch_keeps_table.
Qed.

Lemma current_step_updatedRows (player : NHLPlayer) (w : World NHLPlayer) :
  updatedRows (trace (worldAfter env [player] w)) =
  match outcome env player w with
  | Updated _ | NotStored _ => updatedRows (trace w) ++ [id player]
  | _ => updatedRows (trace w)
  end.
Proof.
  rewrite <- (current_step_world player (mkSummary 0 [])).
  rewrite current_refreshPlayer_run. simpl.
  destruct (outcome env player w); simpl; try reflexivity;
    try apply current_fetch_updatedRows;
    unfold updatedRows; rewrite omap_app; simpl;
    f_equal; apply current_fetch_updatedRows.
Qed.

Lemma current_loop_cons (player : NHLPlayer) (rest : list NHLPlayer)
  (s : RefreshSummary) (w : World NHLPlayer) :
  refreshLoop env (player :: rest) s w =
  refreshLoop env rest (tally player (outcome env player w) s)
              (worldAfter env [player] w).
Proof.
  simpl. unfold bind.
  rewrite <- (current_step_world player s), <- current_step_summary.
  now destruct (refreshPlayer env player s w).
Qed.

Lemma current_loop_world (players : list NHLPlayer) (s : RefreshSummary)
  (w : World NHLPlayer) :
  snd (refreshLoop env players s w) = worldAfter env players w.
Proof.
  unfold worldAfter. revert s w.
  induction players as [|player rest IH]; intros s w; [reflexivity|].
  rewrite !current_loop_cons. rewrite IH. symmetry. apply IH.
Qed.

Lemma current_worldAfter_cons (player : NHLPlayer) (rest : list NHLPlayer)
  (w : World NHLPlayer) :
  worldAfter env (player :: rest) w =
  worldAfter env rest (worldAfter env [player] w).
Proof.
  unfold worldAfter at 1. rewrite current_loop_cons.
  apply current_loop_world.
Qed.

Lemma current_worldAfter_app (before rest : list NHLPlayer) (w : World NHLPlayer) :
  worldAfter env (before ++ rest) w =
  worldAfter env rest (worldAfter env before w).
Proof.
  revert w. induction before as [|player before IH]; intros w;
    [reflexivity|].
  simpl. rewrite current_worldAfter_cons, IH.
  now rewrite <- current_worldAfter_cons.
Qed.

End CurrentRefresh.

Section CurrentRefreshPass.
Import Current.Supabase Current.App.
Context (env : Env Current.NhlApi.Body).

Lemma current_outcome_skipped (player : NHLPlayer) (w : World NHLPlayer) :
  nhl_player_id player = 0 -> outcome env player w = Skipped.
Proof. unfold outcome. now intros ->. Qed.

Lemma current_outcome_noGames (player : NHLPlayer) (w : World NHLPlayer)
  (nhlStats : Current.NhlApi.PlayerStatsResult) :
  nhl_player_id player <> 0 ->
  fetched env player w = Some nhlStats ->
  Current.NhlApi.totalGames nhlStats = 0 ->
  outcome env player w = NoGames.
Proof.
  intros Hid Hfetch Hzero. unfold outcome.
  apply Z.eqb_neq in Hid. now rewrite Hid, Hfetch, Hzero.
Qed.

Lemma current_outcome_updated (player : NHLPlayer) (w : World NHLPlayer)
  (nhlStats : Current.NhlApi.PlayerStatsResult) :
  nhl_player_id player <> 0 ->
  fetched env player w = Some nhlStats ->
  Current.NhlApi.totalGames nhlStats <> 0 ->
  stored env player w = StoreOk ->
  outcome env player w = Updated nhlStats.
Proof.
  intros Hid Hfetch Hgames Hstore. unfold outcome.
  apply Z.eqb_neq in Hid. apply Z.eqb_neq in Hgames.
  now rewrite Hid, Hfetch, Hgames, Hstore.
Qed.

Lemma current_rowsUpdated_lookup (patch : NHLPlayer -> NHLPlayer)
  (rowId : string) (rows : list NHLPlayer) (j : nat) :
  rowsUpdated id patch rowId rows !! j =
  (fun r => if bool_decide (id r = rowId) then patch r else r)
    <$> rows !! j.
Proof. unfold rowsUpdated. apply list_lookup_fmap. Qed.

(** A turn leaves every row in its place, with its [id]; a row it changes
    has the [id] of the turn's player and the figures of the snapshot. *)
Lemma current_step_rows (player : NHLPlayer) (w : World NHLPlayer)
  (j : nat) (row' : NHLPlayer) :
  table (worldAfter env [player] w) !! j = Some row' ->
  exists row,
    table w !! j = Some row /\ id row' = id row /\
    (row' = row \/
     exists nhlStats,
       outcome env player w = Updated nhlStats /\
       id row = id player /\
       row' = assign (refreshFields nhlStats (stampedAt env player w)) row).
Proof.
  rewrite current_step_table.
  destruct (outcome env player w) as [| | |nhlStats|why] eqn:Ho;
    try solve [intros Hj; exists row'; auto].
  rewrite current_rowsUpdated_lookup.
  destruct (table w !! j) as [row|] eqn:Hrow; [|discriminate].
  simpl. intros [= <-]. exists row. split; [reflexivity|].
  case_bool_decide as Hid; [|auto].
  split; [reflexivity|]. right. exists nhlStats. auto.
Qed.

(** Rows of ids that no player of the list has are as before. *)
Lemma current_pass_frame (players : list NHLPlayer) (w : World NHLPlayer)
  (j : nat) (row : NHLPlayer) :
  table w !! j = Some row ->
  (forall p, In p players -> id p <> id row) ->
  table (worldAfter env players w) !! j = Some row.
Proof.
  revert w. induction players as [|player rest IH]; intros w Hrow Hids;
    [exact Hrow|].
  rewrite current_worldAfter_cons. apply IH.
  - rewrite current_step_table.
    destruct (outcome env player w); try exact Hrow.
    rewrite current_rowsUpdated_lookup, Hrow. simpl.
    rewrite bool_decide_eq_false_2; [reflexivity|].
    intros Heq. apply (Hids player); [now left | now symmetry].
  - intros p Hp. apply Hids. now right.
Qed.

(** After any pass a row is as before or has its two denominators equal. *)
Lemma current_pass_rows (players : list NHLPlayer) (w : World NHLPlayer)
  (j : nat) (row' : NHLPlayer) :
  table (worldAfter env players w) !! j = Some row' ->
  exists row,
    table w !! j = Some row /\ id row' = id row /\
    (row' = row \/ points_total_games row' = shots_total_games row').
Proof.
  revert w row'. induction players as [|player rest IH]; intros w row' Hj.
  - exists row'. auto.
  - rewrite current_worldAfter_cons in Hj.
    destruct (IH _ _ Hj) as (row1 & Hrow1 & Hid1 & Hcase1).
    destruct (current_step_rows _ _ _ _ Hrow1)
      as (row & Hrow & Hid & Hcase).
    exists row. split; [exact Hrow|]. split; [congruence|].
    destruct Hcase1 as [->|Heq]; [|now right].
    destruct Hcase as [->|(nhlStats & _ & _ & ->)]; [now left|].
    right. reflexivity.
Qed.

Lemma current_loop_app (before rest : list NHLPlayer) (s : RefreshSummary)
  (w : World NHLPlayer) :
  refreshLoop env (before ++ rest) s w =
  refreshLoop env rest (fst (refreshLoop env before s w))
              (worldAfter env before w).
Proof.
  revert s w. induction before as [|player before IH]; intros s w;
    [reflexivity|].
  simpl app. rewrite !current_loop_cons, IH.
  now rewrite <- current_worldAfter_cons.
Qed.

(** Failures are only ever added, at the end. *)
Lemma current_loop_failures (players : list NHLPlayer) (s : RefreshSummary)
  (w : World NHLPlayer) :
  exists more,
    failedPlayers (fst (refreshLoop env players s w)) =
    failedPlayers s ++ more.
Proof.
  revert s w. induction players as [|player rest IH]; intros s w.
  - exists []. simpl. now rewrite app_nil_r.
  - rewrite current_loop_cons.
    destruct (IH (tally player (outcome env player w) s)
                 (worldAfter env [player] w)) as [more ->].
    destruct (outcome env player w); simpl; eauto;
      rewrite <- app_assoc; eauto.
Qed.

End CurrentRefreshPass.

(** ** Refresh orchestrator, legacy revision *)

Section LegacyRefresh.
Import Legacy.Supabase Legacy.App.
Context (env : Env Legacy.NhlApi.Body).

(** By name, the legacy fetcher searches first and then fetches the first
    match by id. *)
Lemma legacy_getNHLPlayerStats_byName {R : Type} (playerName : string)
  (w : World R) :
  Legacy.NhlApi.getNHLPlayerStats env (Legacy.NhlApi.ByName playerName) w =
  match Legacy.NhlApi.searchNHLPlayers env playerName w with
  | ([], w') => (None, w')
  | (first :: _, w') =>
      Legacy.NhlApi.getNHLPlayerStats env
        (Legacy.NhlApi.ById (Legacy.NhlApi.id first)) w'
  end.
Proof.
  unfold Legacy.NhlApi.getNHLPlayerStats at 1. unfold bind at 1 2.
  destruct (Legacy.NhlApi.searchNHLPlayers env playerName w)
    as [[|first others] w']; reflexivity.
Qed.

Lemma legacy_load_keeps_rows {R : Type} (w : World R) :
  table (snd (Legacy.NhlApi.loadAllPlayers env w)) = table w /\
  updatedRows (trace (snd (Legacy.NhlApi.loadAllPlayers env w))) =
  updatedRows (trace w).
Proof.
  destruct (cachedPlayers w) as [players|] eqn:Hc.
  - now rewrite (legacy_load_cached env w players Hc).
  - rewrite (legacy_load_miss env w Hc).
    destruct (http env (trace w) Legacy.NhlApi.directoryUrl)
      as [|[] [[[[|player roster]|]]|]]; simpl; split; try reflexivity;
      unfold updatedRows; rewrite omap_app; simpl; apply app_nil_r.
Qed.

Lemma legacy_fetch_keeps_rows {R : Type} (who : Legacy.NhlApi.IdOrName)
  (w : World R) :
  table (snd (Legacy.NhlApi.getNHLPlayerStats env who w)) = table w /\
  updatedRows (trace (snd (Legacy.NhlApi.getNHLPlayerStats env who w))) =
  updatedRows (trace w).
Proof.
  assert (Hid : forall playerId (w0 : World R),
            table (snd (Legacy.NhlApi.getNHLPlayerStats env
                          (Legacy.NhlApi.ById playerId) w0)) = table w0 /\
            updatedRows
              (trace (snd (Legacy.NhlApi.getNHLPlayerStats env
                             (Legacy.NhlApi.ById playerId) w0))) =
            updatedRows (trace w0)).
  { intros playerId w0. rewrite legacy_getNHLPlayerStats_run.
    destruct (http env (trace w0) (Legacy.NhlApi.personUrl playerId))
      as [|[] [[[[|player rest]|]]|]]; simpl; split; try reflexivity;
      unfold updatedRows; rewrite omap_app; simpl; apply app_nil_r. }
  destruct who as [playerId|playerName]; [apply Hid|].
  rewrite legacy_getNHLPlayerStats_byName.
  pose proof (legacy_search_world env playerName w) as Hw.
  destruct (legacy_load_keeps_rows w) as [Ht Hu].
  destruct (Legacy.NhlApi.searchNHLPlayers env playerName w)
    as [[|first others] w']; simpl in Hw; rewrite <- Hw in Ht, Hu.
  - simpl. auto.
  - destruct (Hid (Legacy.NhlApi.id first) w') as [Ht' Hu'].
    split; congruence.
Qed.

Lemma legacy_refreshPlayer_run (player : NHLPlayer) (s : RefreshSummary)
  (w : World NHLPlayer) :
  let w1 :=
    snd (Legacy.NhlApi.getNHLPlayerStats env
           (Legacy.NhlApi.ByName (name player)) w) in
  refreshPlayer env player s w =
  (tally player (outcome env player w) s,
   match outcome env player w with
   | NotFound | NoGames => w1
   | Updated nhlStats =>
       mkWorld
         (rowsUpdated id
            (assign (refreshFields nhlStats (stampedAt env player w)))
            (id player) (table w))
         (cachedPlayers w1) (trace w1 ++ [EvNow; EvUpdate (id player)])
   | NotStored _ =>
       mkWorld (table w) (cachedPlayers w1)
               (trace w1 ++ [EvNow; EvUpdate (id player)])
   end).
Proof.
  intros w1. unfold refreshPlayer, outcome.
  unfold bind at 1. unfold fetched, stored, stampedAt. fold w1.
  pose proof (proj1 (legacy_fetch_keeps_rows
                       (Legacy.NhlApi.ByName (name player)) w)) as Htable.
  fold w1 in Htable.
  destruct (Legacy.NhlApi.getNHLPlayerStats env
              (Legacy.NhlApi.ByName (name player)) w)
    as [[nhlStats|] w1'] eqn:Hfetch; simpl in *; subst w1; simpl in *;
    [|reflexivity].
  destruct (Legacy.NhlApi.totalGames nhlStats =? 0); [reflexivity|].
  unfold bind, newDate, updateEq, ret. simpl.
  rewrite <- app_assoc, Htable. simpl.
  destruct (storage env (trace w1' ++ [EvNow])) as [| |[message|]];
    reflexivity.
Qed.

Lemma legacy_step_summary (player : NHLPlayer) (s : RefreshSummary)
  (w : World NHLPlayer) :
  fst (refreshPlayer env player s w) = tally player (outcome env player w) s.
Proof. now rewrite legacy_refreshPlayer_run. Qed.

Lemma legacy_step_world (player : NHLPlayer) (s : RefreshSummary)
  (w : World NHLPlayer) :
  snd (refreshPlayer env player s w) = worldAfter env [player] w.
Proof.
  unfold worldAfter. simpl. unfold bind, ret.
  rewrite !legacy_refreshPlayer_run. reflexivity.
Qed.

Lemma legacy_step_table (player : NHLPlayer) (w : World NHLPlayer) :
  table (worldAfter env [player] w) =
  match outcome env player w with
  | Updated nhlStats =>
      rowsUpdated id
        (assign (refreshFields nhlStats (stampedAt env player w)))
        (id player) (table w)
  | _ => table w
  end.
Proof.
  rewrite <- (legacy_step_world player (mkSummary 0 [])).
  rewrite legacy_refreshPlayer_run. simpl.
  destruct (outcome env player w); simpl; try reflexivity;
    apply legacy_fetch_keeps_rows.
Qed.

Lemma legacy_step_updatedRows (player : NHLPlayer) (w : World NHLPlayer) :
  updatedRows (trace (worldAfter env [player] w)) =
  match outcome env player w with
  | Updated _ | NotStored _ => updatedRows (trace w) ++ [id player]
  | _ => updatedRows (trace w)
  end.
Proof.
  rewrite <- (legacy_step_world player (mkSummary 0 [])).
  rewrite legacy_refreshPlayer_run. simpl.
  destruct (outcome env player w); simpl; try reflexivity;
    try apply legacy_fetch_keeps_rows;
    unfold updatedRows; rewrite omap_app; simpl;
    f_equal; apply legacy_fetch_keeps_rows.
Qed.

Lemma legacy_loop_cons (player : NHLPlayer) (rest : list NHLPlayer)
  (s : RefreshSummary) (w : World NHLPlayer) :
  refreshLoop env (player :: rest) s w =
  refreshLoop env rest (tally player (outcome env player w) s)
              (worldAfter env [player] w).
Proof.
  simpl. unfold bind.
  rewrite <- (legacy_step_world player s), <- legacy_step_summary.
  now destruct (refreshPlayer env player s w).
Qed.

Lemma legacy_loop_world (players : list NHLPlayer) (s : RefreshSummary)
  (w : World NHLPlayer) :
  snd (refreshLoop env players s w) = worldAfter env players w.
Proof.
  unfold worldAfter. revert s w.
  induction players as [|player rest IH]; intros s w; [reflexivity|].
  rewrite !legacy_loop_cons. rewrite IH. symmetry. apply IH.
Qed.

Lemma legacy_worldAfter_cons (player : NHLPlayer) (rest : list NHLPlayer)
  (w : World NHLPlayer) :
  worldAfter env (player :: rest) w =
  worldAfter env rest (worldAfter env [player] w).
Proof.
  unfold worldAfter at 1. rewrite legacy_loop_cons.
  apply legacy_loop_world.
Qed.

Lemma legacy_worldAfter_app (before rest : list NHLPlayer)
  (w : World NHLPlayer) :
  worldAfter env (before ++ rest) w =
  worldAfter env rest (worldAfter env before w).
Proof.
  revert w. induction before as [|player before IH]; intros w;
    [reflexivity|].
  simpl. rewrite legacy_worldAfter_cons, IH.
  now rewrite <- legacy_worldAfter_cons.
Qed.

Lemma legacy_outcome_noGames (player : NHLPlayer) (w : World NHLPlayer)
  (nhlStats : Legacy.NhlApi.PlayerStatsResult) :
  fetched env player w = Some nhlStats ->
  Legacy.NhlApi.totalGames nhlStats = 0 ->
  outcome env player w = NoGames.
Proof. intros Hfetch Hzero. unfold outcome. now rewrite Hfetch, Hzero. Qed.

Lemma legacy_outcome_updated (player : NHLPlayer) (w : World NHLPlayer)
  (nhlStats : Legacy.NhlApi.PlayerStatsResult) :
  fetched env player w = Some nhlStats ->
  Legacy.NhlApi.totalGames nhlStats <> 0 ->
  stored env player w = StoreOk ->
  outcome env player w = Updated nhlStats.
Proof.
  intros Hfetch Hgames Hstore. unfold outcome.
  apply Z.eqb_neq in Hgames. now rewrite Hfetch, Hgames, Hstore.
Qed.

Lemma legacy_rowsUpdated_lookup (patch : NHLPlayer -> NHLPlayer)
  (rowId : string) (rows : list NHLPlayer) (j : nat) :
  rowsUpdated id patch rowId rows !! j =
  (fun r => if bool_decide (id r = rowId) then patch r else r)
    <$> rows !! j.
Proof. unfold rowsUpdated. apply list_lookup_fmap. Qed.

Lemma legacy_step_rows (player : NHLPlayer) (w : World NHLPlayer)
  (j : nat) (row' : NHLPlayer) :
  table (worldAfter env [player] w) !! j = Some row' ->
  exists row,
    table w !! j = Some row /\ id row' = id row /\
    (row' = row \/
     exists nhlStats,
       outcome env player w = Updated nhlStats /\
       id row = id player /\
       row' = assign (refreshFields nhlStats (stampedAt env player w)) row).
Proof.
  rewrite legacy_step_table.
  destruct (outcome env player w) as [| |nhlStats|why] eqn:Ho;
    try solve [intros Hj; exists row'; auto].
  rewrite legacy_rowsUpdated_lookup.
  destruct (table w !! j) as [row|] eqn:Hrow; [|discriminate].
  simpl. intros [= <-]. exists row. split; [reflexivity|].
  case_bool_decide as Hid; [|auto].
  split; [reflexivity|]. right. exists nhlStats. auto.
Qed.

Lemma legacy_pass_frame (players : list NHLPlayer) (w : World NHLPlayer)
  (j : nat) (row : NHLPlayer) :
  table w !! j = Some row ->
  (forall p, In p players -> id p <> id row) ->
  table (worldAfter env players w) !! j = Some row.
Proof.
  revert w. induction players as [|player rest IH]; intros w Hrow Hids;
    [exact Hrow|].
  rewrite legacy_worldAfter_cons. apply IH.
  - rewrite legacy_step_table.
    destruct (outcome env player w); try exact Hrow.
    rewrite legacy_rowsUpdated_lookup, Hrow. simpl.
    rewrite bool_decide_eq_false_2; [reflexivity|].
    intros Heq. apply (Hids player); [now left | now symmetry].
  - intros p Hp. apply Hids. now right.
Qed.

Lemma legacy_pass_rows (players : list NHLPlayer) (w : World NHLPlayer)
  (j : nat) (row' : NHLPlayer) :
  table (worldAfter env players w) !! j = Some row' ->
  exists row,
    table w !! j = Some row /\ id row' = id row /\
    (row' = row \/ points_total_games row' = shots_total_games row').
Proof.
  revert w row'. induction players as [|player rest IH]; intros w row' Hj.
  - exists row'. auto.
  - rewrite legacy_worldAfter_cons in Hj.
    destruct (IH _ _ Hj) as (row1 & Hrow1 & Hid1 & Hcase1).
    destruct (legacy_step_rows _ _ _ _ Hrow1)
      as (row & Hrow & Hid & Hcase).
    exists row. split; [exact Hrow|]. split; [congruence|].
    destruct Hcase1 as [->|Heq]; [|now right].
    destruct Hcase as [->|(nhlStats & _ & _ & ->)]; [now left|].
    right. reflexivity.
Qed.

Lemma legacy_loop_app (before rest : list NHLPlayer) (s : RefreshSummary)
  (w : World NHLPlayer) :
  refreshLoop env (before ++ rest) s w =
  refreshLoop env rest (fst (refreshLoop env before s w))
              (worldAfter env before w).
Proof.
  revert s w. induction before as [|player before IH]; intros s w;
    [reflexivity|].
  simpl app. rewrite !legacy_loop_cons, IH.
  now rewrite <- legacy_worldAfter_cons.
Qed.

Lemma legacy_loop_failures (players : list NHLPlayer) (s : RefreshSummary)
  (w : World NHLPlayer) :
  exists more,
    failedPlayers (fst (refreshLoop env players s w)) =
    failedPlayers s ++ more.
Proof.
  revert s w. induction players as [|player rest IH]; intros s w.
  - exists []. simpl. now rewrite app_nil_r.
  - rewrite legacy_loop_cons.
    destruct (IH (tally player (outcome env player w) s)
                 (worldAfter env [player] w)) as [more ->].
    destruct (outcome env player w); simpl; eauto;
      rewrite <- app_assoc; eauto.
Qed.

End LegacyRefresh.

(** ** A player with no games this season *)

Lemma other_ids_differ {A : Type} (key : A -> string) (before rest : list A)
  (x : A) :
  NoDup (map key (before ++ x :: rest)) ->
  forall other, In other (before ++ rest) -> key other <> key x.
Proof.
  rewrite map_app. simpl. intros Hnd other Hin Heq.
  apply NoDup_ListNoDup, List.NoDup_remove_2 in Hnd. apply Hnd.
  rewrite <- map_app, <- Heq. now apply in_map.
Qed.

Lemma current_noGames_turn (env : Env Current.NhlApi.Body)
  (w : World Current.Supabase.NHLPlayer)
  (before rest : list Current.Supabase.NHLPlayer)
  (player : Current.Supabase.NHLPlayer)
  (nhlStats : Current.NhlApi.PlayerStatsResult) :
  let turn := Current.App.worldAfter env before w in
  let after := Current.App.worldAfter env (before ++ [player]) w in
  let result :=
    Current.App.handleRefreshStats env (before ++ player :: rest) w in
  Current.Supabase.nhl_player_id player <> 0 ->
  Current.App.fetched env player turn = Some nhlStats ->
  Current.NhlApi.totalGames nhlStats = 0 ->
  In (Current.App.mkFailedPlayer (Current.Supabase.name player)
        "No games played this season")
     (Current.App.failedPlayers (fst result)) /\
  table after = table turn /\
  updatedRows (trace after) = updatedRows (trace turn) /\
  (NoDup (map Current.Supabase.id (before ++ player :: rest)) ->
   forall j row,
     table w !! j = Some row ->
     Current.Supabase.id row = Current.Supabase.id player ->
     table (snd result) !! j = Some row).
Proof.
  intros turn after result Hid Hfetch Hzero.
  pose proof (current_outcome_noGames env player turn nhlStats
                Hid Hfetch Hzero) as Ho.
  assert (Hafter : after = Current.App.worldAfter env [player] turn)
    by apply current_worldAfter_app.
  repeat split.
  - subst result. unfold Current.App.handleRefreshStats.
    rewrite current_loop_app, current_loop_cons. fold turn. rewrite Ho.
    destruct (current_loop_failures env rest
                (Current.App.tally player Current.App.NoGames
                   (fst (Current.App.refreshLoop env before
                           (Current.App.mkSummary 0 []) w)))
                (Current.App.worldAfter env [player] turn)) as [more ->].
    simpl. rewrite !in_app_iff. left. right. now left.
  - rewrite Hafter, current_step_table. now rewrite Ho.
  - rewrite Hafter, current_step_updatedRows. now rewrite Ho.
  - intros Hnd j row Hrow Hrowid.
    pose proof (other_ids_differ _ _ _ _ Hnd) as Hother.
    change (snd result)
      with (Current.App.worldAfter env (before ++ player :: rest) w).
    rewrite current_worldAfter_app, current_worldAfter_cons. fold turn.
    apply current_pass_frame.
    + rewrite current_step_table, Ho.
      apply current_pass_frame; [exact Hrow|].
      intros p Hp. rewrite Hrowid. apply Hother.
      apply in_app_iff. now left.
    + intros p Hp. rewrite Hrowid. apply Hother.
      apply in_app_iff. now right.
Qed.

Lemma legacy_noGames_turn (env : Env Legacy.NhlApi.Body)
  (w : World Legacy.Supabase.NHLPlayer)
  (before rest : list Legacy.Supabase.NHLPlayer)
  (player : Legacy.Supabase.NHLPlayer)
  (nhlStats : Legacy.NhlApi.PlayerStatsResult) :
  let turn := Legacy.App.worldAfter env before w in
  let after := Legacy.App.worldAfter env (before ++ [player]) w in
  let result :=
    Legacy.App.handleRefreshStats env (before ++ player :: rest) w in
  Legacy.App.fetched env player turn = Some nhlStats ->
  Legacy.NhlApi.totalGames nhlStats = 0 ->
  In (Legacy.App.mkFailedPlayer (Legacy.Supabase.name player)
        "No games played this season")
     (Legacy.App.failedPlayers (fst result)) /\
  table after = table turn /\
  updatedRows (trace after) = updatedRows (trace turn) /\
  (NoDup (map Legacy.Supabase.id (before ++ player :: rest)) ->
   forall j row,
     table w !! j = Some row ->
     Legacy.Supabase.id row = Legacy.Supabase.id player ->
     table (snd result) !! j = Some row).
Proof.
  intros turn after result Hfetch Hzero.
  pose proof (legacy_outcome_noGames env player turn nhlStats
                Hfetch Hzero) as Ho.
  assert (Hafter : after = Legacy.App.worldAfter env [player] turn)
    by apply legacy_worldAfter_app.
  repeat split.
  - subst result. unfold Legacy.App.handleRefreshStats.
    rewrite legacy_loop_app, legacy_loop_cons. fold turn. rewrite Ho.
    destruct (legacy_loop_failures env rest
                (Legacy.App.tally player Legacy.App.NoGames
                   (fst (Legacy.App.refreshLoop env before
                           (Legacy.App.mkSummary 0 []) w)))
                (Legacy.App.worldAfter env [player] turn)) as [more ->].
    simpl. rewrite !in_app_iff. left. right. now left.
  - rewrite Hafter, legacy_step_table. now rewrite Ho.
  - rewrite Hafter, legacy_step_updatedRows. now rewrite Ho.
  - intros Hnd j row Hrow Hrowid.
    pose proof (other_ids_differ _ _ _ _ Hnd) as Hother.
    change (snd result)
      with (Legacy.App.worldAfter env (before ++ player :: rest) w).
    rewrite legacy_worldAfter_app, legacy_worldAfter_cons. fold turn.
    apply legacy_pass_frame.
    + rewrite legacy_step_table, Ho.
      apply legacy_pass_frame; [exact Hrow|].
      intros p Hp. rewrite Hrowid. apply Hother.
      apply in_app_iff. now left.
    + intros p Hp. rewrite Hrowid. apply Hother.
      apply in_app_iff. now right.
Qed.

(** C7: when the loop reaches a player whose fetch succeeds with 0 total
    games, it records the failure "No games played this season" and the
    turn sends no write: the table is as it was when the turn began.  With
    one list entry per row, every row of that player is at the end of the
    pass exactly as before it.  Current revision first, then the legacy
    one. *)
Theorem noGames_player_is_not_written :
  (forall (env : Env Current.NhlApi.Body)
          (w : World Current.Supabase.NHLPlayer)
          (before rest : list Current.Supabase.NHLPlayer)
          (player : Current.Supabase.NHLPlayer)
          (nhlStats : Current.NhlApi.PlayerStatsResult),
     let turn := Current.App.worldAfter env before w in
     let after := Current.App.worldAfter env (before ++ [player]) w in
     let result :=
       Current.App.handleRefreshStats env (before ++ player :: rest) w in
     Current.Supabase.nhl_player_id player <> 0 ->
     Current.App.fetched env player turn = Some nhlStats ->
     Current.NhlApi.totalGames nhlStats = 0 ->
     In (Current.App.mkFailedPlayer (Current.Supabase.name player)
           "No games played this season")
        (Current.App.failedPlayers (fst result)) /\
     table after = table turn /\
     updatedRows (trace after) = updatedRows (trace turn) /\
     (NoDup (map Current.Supabase.id (before ++ player :: rest)) ->
      forall j row,
        table w !! j = Some row ->
        Current.Supabase.id row = Current.Supabase.id player ->
        table (snd result) !! j = Some row)) /\
  (forall (env : Env Legacy.NhlApi.Body)
          (w : World Legacy.Supabase.NHLPlayer)
          (before rest : list Legacy.Supabase.NHLPlayer)
          (player : Legacy.Supabase.NHLPlayer)
          (nhlStats : Legacy.NhlApi.PlayerStatsResult),
     let turn := Legacy.App.worldAfter env before w in
     let after := Legacy.App.worldAfter env (before ++ [player]) w in
     let result :=
       Legacy.App.handleRefreshStats env (before ++ player :: rest) w in
     Legacy.App.fetched env player turn = Some nhlStats ->
     Legacy.NhlApi.totalGames nhlStats = 0 ->
     In (Legacy.App.mkFailedPlayer (Legacy.Supabase.name player)
           "No games played this season")
        (Legacy.App.failedPlayers (fst result)) /\
     table after = table turn /\
     updatedRows (trace after) = updatedRows (trace turn) /\
     (NoDup (map Legacy.Supabase.id (before ++ player :: rest)) ->
      forall j row,
        table w !! j = Some row ->
        Legacy.Supabase.id row = Legacy.Supabase.id player ->
        table (snd result) !! j = Some row)).
Proof.
  split.
  - intros env w before rest player nhlStats. apply current_noGames_turn.
  - intros env w before rest player nhlStats. apply legacy_noGames_turn.
Qed.

Lemma noGames_player_is_not_written_witness :
  table (snd (Current.App.handleRefreshStats sampleProvider samplePlayers
                (mkWorld samplePlayers None []))) !! 1%nat = Some idleRow /\
  table (snd (Legacy.App.handleRefreshStats
                (answering (Legacy.NhlApi.mkBody (Some [legacyRookie])))
                [legacyRookieRow]
                (mkWorld [legacyRookieRow] None []))) !! 0%nat =
  Some legacyRookieRow.
Proof.
  split.
  - apply (proj2 (proj2 (proj2
             (proj1 noGames_player_is_not_written sampleProvider
                (mkWorld samplePlayers None []) [manualRow] [sampleRow]
                idleRow
                (Current.NhlApi.mkPlayerStatsResult 8475913 "Mark Stone"
                   0 0 0)
                ltac:(discriminate) eq_refl eq_refl)))).
    + repeat constructor; rewrite ?list_elem_of_In; simpl; intuition congruence.
    + reflexivity.
    + reflexivity.
  - apply (proj2 (proj2 (proj2
             (proj2 noGames_player_is_not_written
                (answering (Legacy.NhlApi.mkBody (Some [legacyRookie])))
                (mkWorld [legacyRookieRow] None []) [] []
                legacyRookieRow
                (Legacy.NhlApi.zeroStats legacyRookie)
                eq_refl eq_refl)))).
    + repeat constructor; rewrite ?list_elem_of_In; simpl; intuition congruence.
    + reflexivity.
    + reflexivity.
Defined.

(** ** A player whose figures are written *)

Lemma current_updated_turn (env : Env Current.NhlApi.Body)
  (w : World Current.Supabase.NHLPlayer)
  (before rest : list Current.Supabase.NHLPlayer)
  (player : Current.Supabase.NHLPlayer)
  (nhlStats : Current.NhlApi.PlayerStatsResult) :
  let turn := Current.App.worldAfter env before w in
  let after := Current.App.worldAfter env (before ++ [player]) w in
  let result :=
    Current.App.handleRefreshStats env (before ++ player :: rest) w in
  Current.Supabase.nhl_player_id player <> 0 ->
  Current.App.fetched env player turn = Some nhlStats ->
  Current.NhlApi.totalGames nhlStats <> 0 ->
  Current.App.stored env player turn = StoreOk ->
  (forall j row',
     table after !! j = Some row' ->
     Current.Supabase.id row' = Current.Supabase.id player ->
     Current.Supabase.points_total_games row' =
     Current.NhlApi.totalGames nhlStats /\
     Current.Supabase.shots_total_games row' =
     Current.NhlApi.totalGames nhlStats) /\
  (forall j row',
     table (snd result) !! j = Some row' ->
     Current.Supabase.id row' = Current.Supabase.id player ->
     Current.Supabase.points_total_games row' =
     Current.Supabase.shots_total_games row').
Proof.
  intros turn after result Hid Hfetch Hgames Hstore.
  pose proof (current_outcome_updated env player turn nhlStats
                Hid Hfetch Hgames Hstore) as Ho.
  assert (Hafter : after = Current.App.worldAfter env [player] turn)
    by apply current_worldAfter_app.
  assert (Hturn : forall j row',
            table after !! j = Some row' ->
            Current.Supabase.id row' = Current.Supabase.id player ->
            exists row,
              row' =
              Current.Supabase.assign
                (Current.App.refreshFields nhlStats
                   (Current.App.stampedAt env player turn)) row).
  { intros j row'. rewrite Hafter, current_step_table, Ho.
    rewrite current_rowsUpdated_lookup.
    destruct (table turn !! j) as [row|]; [|discriminate].
    simpl. case_bool_decide as Hrow; intros [= <-]; [eauto|].
    intros Heq. contradiction. }
  split.
  - intros j row' Hj Hrowid.
    destruct (Hturn j row' Hj Hrowid) as [row ->]. now split.
  - intros j row' Hj Hrowid.
    change (snd result)
      with (Current.App.worldAfter env (before ++ player :: rest) w) in Hj.
    rewrite current_worldAfter_app, current_worldAfter_cons in Hj.
    fold turn in Hj. rewrite <- Hafter in Hj.
    destruct (current_pass_rows env rest after j row' Hj)
      as (row1 & Hrow1 & Hid1 & [->|Heq]); [|exact Heq].
    destruct (Hturn j row1 Hrow1 Hrowid) as [row ->]. reflexivity.
Qed.

Lemma legacy_updated_turn (env : Env Legacy.NhlApi.Body)
  (w : World Legacy.Supabase.NHLPlayer)
  (before rest : list Legacy.Supabase.NHLPlayer)
  (player : Legacy.Supabase.NHLPlayer)
  (nhlStats : Legacy.NhlApi.PlayerStatsResult) :
  let turn := Legacy.App.worldAfter env before w in
  let after := Legacy.App.worldAfter env (before ++ [player]) w in
  let result :=
    Legacy.App.handleRefreshStats env (before ++ player :: rest) w in
  Legacy.App.fetched env player turn = Some nhlStats ->
  Legacy.NhlApi.totalGames nhlStats <> 0 ->
  Legacy.App.stored env player turn = StoreOk ->
  (forall j row',
     table after !! j = Some row' ->
     Legacy.Supabase.id row' = Legacy.Supabase.id player ->
     Legacy.Supabase.points_total_games row' =
     Legacy.NhlApi.totalGames nhlStats /\
     Legacy.Supabase.shots_total_games row' =
     Legacy.NhlApi.totalGames nhlStats) /\
  (forall j row',
     table (snd result) !! j = Some row' ->
     Legacy.Supabase.id row' = Legacy.Supabase.id player ->
     Legacy.Supabase.points_total_games row' =
     Legacy.Supabase.shots_total_games row').
Proof.
  intros turn after result Hfetch Hgames Hstore.
  pose proof (legacy_outcome_updated env player turn nhlStats
                Hfetch Hgames Hstore) as Ho.
  assert (Hafter : after = Legacy.App.worldAfter env [player] turn)
    by apply legacy_worldAfter_app.
  assert (Hturn : forall j row',
            table after !! j = Some row' ->
            Legacy.Supabase.id row' = Legacy.Supabase.id player ->
            exists row,
              row' =
              Legacy.Supabase.assign
                (Legacy.App.refreshFields nhlStats
                   (Legacy.App.stampedAt env player turn)) row).
  { intros j row'. rewrite Hafter, legacy_step_table, Ho.
    rewrite legacy_rowsUpdated_lookup.
    destruct (table turn !! j) as [row|]; [|discriminate].
    simpl. case_bool_decide as Hrow; intros [= <-]; [eauto|].
    intros Heq. contradiction. }
  split.
  - intros j row' Hj Hrowid.
    destruct (Hturn j row' Hj Hrowid) as [row ->]. now split.
  - intros j row' Hj Hrowid.
    change (snd result)
      with (Legacy.App.worldAfter env (before ++ player :: rest) w) in Hj.
    rewrite legacy_worldAfter_app, legacy_worldAfter_cons in Hj.
    fold turn in Hj. rewrite <- Hafter in Hj.
    destruct (legacy_pass_rows env rest after j row' Hj)
      as (row1 & Hrow1 & Hid1 & [->|Heq]); [|exact Heq].
    destruct (Hturn j row1 Hrow1 Hrowid) as [row ->]. reflexivity.
Qed.

(** A pass leaves every row in its place, with its [id]. *)
Lemma current_pass_keeps_place (env : Env Current.NhlApi.Body)
  (players : list Current.Supabase.NHLPlayer) :
  forall (w : World Current.Supabase.NHLPlayer) (j : nat)
         (row : Current.Supabase.NHLPlayer),
    table w !! j = Some row ->
    exists row',
      table (Current.App.worldAfter env players w) !! j = Some row' /\
      Current.Supabase.id row' = Current.Supabase.id row.
Proof.
  induction players as [|player rest IH]; intros w j row Hrow.
  - exists row. auto.
  - rewrite (current_worldAfter_cons env player rest).
    assert (Hstep : exists row1,
              table (Current.App.worldAfter env [player] w) !! j = Some row1
              /\ Current.Supabase.id row1 = Current.Supabase.id row).
    { rewrite current_step_table.
      destruct (Current.App.outcome env player w); eauto.
      rewrite current_rowsUpdated_lookup, Hrow. simpl.
      eexists. split; [reflexivity|]. now case_bool_decide. }
    destruct Hstep as (row1 & Hrow1 & Hid1).
    destruct (IH _ j row1 Hrow1) as (row' & Hrow' & Hid').
    exists row'. split; [exact Hrow'|congruence].
Qed.

Lemma legacy_pass_keeps_place (env : Env Legacy.NhlApi.Body)
  (players : list Legacy.Supabase.NHLPlayer) :
  forall (w : World Legacy.Supabase.NHLPlayer) (j : nat)
         (row : Legacy.Supabase.NHLPlayer),
    table w !! j = Some row ->
    exists row',
      table (Legacy.App.worldAfter env players w) !! j = Some row' /\
      Legacy.Supabase.id row' = Legacy.Supabase.id row.
Proof.
  induction players as [|player rest IH]; intros w j row Hrow.
  - exists row. auto.
  - rewrite (legacy_worldAfter_cons env player rest).
    assert (Hstep : exists row1,
              table (Legacy.App.worldAfter env [player] w) !! j = Some row1
              /\ Legacy.Supabase.id row1 = Legacy.Supabase.id row).
    { rewrite legacy_step_table.
      destruct (Legacy.App.outcome env player w); eauto.
      rewrite legacy_rowsUpdated_lookup, Hrow. simpl.
      eexists. split; [reflexivity|]. now case_bool_decide. }
    destruct Hstep as (row1 & Hrow1 & Hid1).
    destruct (IH _ j row1 Hrow1) as (row' & Hrow' & Hid').
    exists row'. split; [exact Hrow'|congruence].
Qed.

(** The rows of a player whose figures are written are there after the
    turn and at the end of the pass. *)
Lemma current_updated_rows_present (env : Env Current.NhlApi.Body)
  (w : World Current.Supabase.NHLPlayer)
  (before rest : list Current.Supabase.NHLPlayer)
  (player : Current.Supabase.NHLPlayer)
  (nhlStats : Current.NhlApi.PlayerStatsResult) :
  let turn := Current.App.worldAfter env before w in
  let after := Current.App.worldAfter env (before ++ [player]) w in
  let result :=
    Current.App.handleRefreshStats env (before ++ player :: rest) w in
  Current.Supabase.nhl_player_id player <> 0 ->
  Current.App.fetched env player turn = Some nhlStats ->
  Current.NhlApi.totalGames nhlStats <> 0 ->
  Current.App.stored env player turn = StoreOk ->
  forall j row,
    table w !! j = Some row ->
    Current.Supabase.id row = Current.Supabase.id player ->
    (exists row',
       table after !! j = Some row' /\
       Current.Supabase.id row' = Current.Supabase.id player /\
       Current.Supabase.points_total_games row' =
       Current.NhlApi.totalGames nhlStats /\
       Current.Supabase.shots_total_games row' =
       Current.NhlApi.totalGames nhlStats) /\
    (exists row',
       table (snd result) !! j = Some row' /\
       Current.Supabase.id row' = Current.Supabase.id player /\
       Current.Supabase.points_total_games row' =
       Current.Supabase.shots_total_games row').
Proof.
  intros turn after result Hid Hfetch Hgames Hstore j row Hrow Hrowid.
  destruct (current_updated_turn env w before rest player nhlStats
              Hid Hfetch Hgames Hstore) as [Hturn Hend].
  fold turn after result in Hturn, Hend.
  destruct (current_pass_keeps_place env (before ++ [player]) w j row Hrow)
    as (row1 & Hrow1 & Hid1).
  fold after in Hrow1.
  assert (Hid1' : Current.Supabase.id row1 = Current.Supabase.id player)
    by congruence.
  split.
  - exists row1. split; [exact Hrow1|]. split; [exact Hid1'|].
    exact (Hturn j row1 Hrow1 Hid1').
  - destruct (current_pass_keeps_place env rest after j row1 Hrow1)
      as (row2 & Hrow2 & Hid2).
    assert (Hfinal : table (snd result) !! j = Some row2).
    { change (snd result)
        with (Current.App.worldAfter env (before ++ player :: rest) w).
      change (before ++ player :: rest)
        with (before ++ [player] ++ rest).
      rewrite app_assoc, current_worldAfter_app. exact Hrow2. }
    assert (Hid2' : Current.Supabase.id row2 = Current.Supabase.id player)
      by congruence.
    exists row2. split; [exact Hfinal|]. split; [exact Hid2'|].
    exact (Hend j row2 Hfinal Hid2').
Qed.

Lemma legacy_updated_rows_present (env : Env Legacy.NhlApi.Body)
  (w : World Legacy.Supabase.NHLPlayer)
  (before rest : list Legacy.Supabase.NHLPlayer)
  (player : Legacy.Supabase.NHLPlayer)
  (nhlStats : Legacy.NhlApi.PlayerStatsResult) :
  let turn := Legacy.App.worldAfter env before w in
  let after := Legacy.App.worldAfter env (before ++ [player]) w in
  let result :=
    Legacy.App.handleRefreshStats env (before ++ player :: rest) w in
  Legacy.App.fetched env player turn = Some nhlStats ->
  Legacy.NhlApi.totalGames nhlStats <> 0 ->
  Legacy.App.stored env player turn = StoreOk ->
  forall j row,
    table w !! j = Some row ->
    Legacy.Supabase.id row = Legacy.Supabase.id player ->
    (exists row',
       table after !! j = Some row' /\
       Legacy.Supabase.id row' = Legacy.Supabase.id player /\
       Legacy.Supabase.points_total_games row' =
       Legacy.NhlApi.totalGames nhlStats /\
       Legacy.Supabase.shots_total_games row' =
       Legacy.NhlApi.totalGames nhlStats) /\
    (exists row',
       table (snd result) !! j = Some row' /\
       Legacy.Supabase.id row' = Legacy.Supabase.id player /\
       Legacy.Supabase.points_total_games row' =
       Legacy.Supabase.shots_total_games row').
Proof.
  intros turn after result Hfetch Hgames Hstore j row Hrow Hrowid.
  destruct (legacy_updated_turn env w before rest player nhlStats
              Hfetch Hgames Hstore) as [Hturn Hend].
  fold turn after result in Hturn, Hend.
  destruct (legacy_pass_keeps_place env (before ++ [player]) w j row Hrow)
    as (row1 & Hrow1 & Hid1).
  fold after in Hrow1.
  assert (Hid1' : Legacy.Supabase.id row1 = Legacy.Supabase.id player)
    by congruence.
  split.
  - exists row1. split; [exact Hrow1|]. split; [exact Hid1'|].
    exact (Hturn j row1 Hrow1 Hid1').
  - destruct (legacy_pass_keeps_place env rest after j row1 Hrow1)
      as (row2 & Hrow2 & Hid2).
    assert (Hfinal : table (snd result) !! j = Some row2).
    { change (snd result)
        with (Legacy.App.worldAfter env (before ++ player :: rest) w).
      change (before ++ player :: rest)
        with (before ++ [player] ++ rest).
      rewrite app_assoc, legacy_worldAfter_app. exact Hrow2. }
    assert (Hid2' : Legacy.Supabase.id row2 = Legacy.Supabase.id player)
      by congruence.
    exists row2. split; [exact Hfinal|]. split; [exact Hid2'|].
    exact (Hend j row2 Hfinal Hid2').
Qed.

(** C9: when the loop reaches a player whose fetch succeeds with games
    played and whose write the store accepts, every row that had the
    player's id before the pass is still there, in its place, right after
    the write and at the end of the pass; right after the write it holds
    the fetched totalGames in both [points_total_games] and
    [shots_total_games], and at the end of the pass its two denominators
    are equal.  Conversely, every row of that id found right after the
    write holds the fetched totalGames in both denominators, and every
    such row found at the end of the pass has equal denominators.  Current
    revision first, then the legacy one. *)
Theorem refreshed_denominators_coincide :
  (forall (env : Env Current.NhlApi.Body)
          (w : World Current.Supabase.NHLPlayer)
          (before rest : list Current.Supabase.NHLPlayer)
          (player : Current.Supabase.NHLPlayer)
          (nhlStats : Current.NhlApi.PlayerStatsResult),
     let turn := Current.App.worldAfter env before w in
     let after := Current.App.worldAfter env (before ++ [player]) w in
     let result :=
       Current.App.handleRefreshStats env (before ++ player :: rest) w in
     Current.Supabase.nhl_player_id player <> 0 ->
     Current.App.fetched env player turn = Some nhlStats ->
     Current.NhlApi.totalGames nhlStats <> 0 ->
     Current.App.stored env player turn = StoreOk ->
     (forall j row,
        table w !! j = Some row ->
        Current.Supabase.id row = Current.Supabase.id player ->
        (exists row',
           table after !! j = Some row' /\
           Current.Supabase.id row' = Current.Supabase.id player /\
           Current.Supabase.points_total_games row' =
           Current.NhlApi.totalGames nhlStats /\
           Current.Supabase.shots_total_games row' =
           Current.NhlApi.totalGames nhlStats) /\
        (exists row',
           table (snd result) !! j = Some row' /\
           Current.Supabase.id row' = Current.Supabase.id player /\
           Current.Supabase.points_total_games row' =
           Current.Supabase.shots_total_games row')) /\
     (forall j row',
        table after !! j = Some row' ->
        Current.Supabase.id row' = Current.Supabase.id player ->
        Current.Supabase.points_total_games row' =
        Current.NhlApi.totalGames nhlStats /\
        Current.Supabase.shots_total_games row' =
        Current.NhlApi.totalGames nhlStats) /\
     (forall j row',
        table (snd result) !! j = Some row' ->
        Current.Supabase.id row' = Current.Supabase.id player ->
        Current.Supabase.points_total_games row' =
        Current.Supabase.shots_total_games row')) /\
  (forall (env : Env Legacy.NhlApi.Body)
          (w : World Legacy.Supabase.NHLPlayer)
          (before rest : list Legacy.Supabase.NHLPlayer)
          (player : Legacy.Supabase.NHLPlayer)
          (nhlStats : Legacy.NhlApi.PlayerStatsResult),
     let turn := Legacy.App.worldAfter env before w in
     let after := Legacy.App.worldAfter env (before ++ [player]) w in
     let result :=
       Legacy.App.handleRefreshStats env (before ++ player :: rest) w in
     Legacy.App.fetched env player turn = Some nhlStats ->
     Legacy.NhlApi.totalGames nhlStats <> 0 ->
     Legacy.App.stored env player turn = StoreOk ->
     (forall j row,
        table w !! j = Some row ->
        Legacy.Supabase.id row = Legacy.Supabase.id player ->
        (exists row',
           table after !! j = Some row' /\
           Legacy.Supabase.id row' = Legacy.Supabase.id player /\
           Legacy.Supabase.points_total_games row' =
           Legacy.NhlApi.totalGames nhlStats /\
           Legacy.Supabase.shots_total_games row' =
           Legacy.NhlApi.totalGames nhlStats) /\
        (exists row',
           table (snd result) !! j = Some row' /\
           Legacy.Supabase.id row' = Legacy.Supabase.id player /\
           Legacy.Supabase.points_total_games row' =
           Legacy.Supabase.shots_total_games row')) /\
     (forall j row',
        table after !! j = Some row' ->
        Legacy.Supabase.id row' = Legacy.Supabase.id player ->
        Legacy.Supabase.points_total_games row' =
        Legacy.NhlApi.totalGames nhlStats /\
        Legacy.Supabase.shots_total_games row' =
        Legacy.NhlApi.totalGames nhlStats) /\
     (forall j row',
        table (snd result) !! j = Some row' ->
        Legacy.Supabase.id row' = Legacy.Supabase.id player ->
        Legacy.Supabase.points_total_games row' =
        Legacy.Supabase.shots_total_games row')).
Proof.
  split.
  - intros env w before rest player nhlStats turn after result
           Hid Hfetch Hgames Hstore.
    split.
    + exact (current_updated_rows_present env w before rest player nhlStats
               Hid Hfetch Hgames Hstore).
    + exact (current_updated_turn env w before rest player nhlStats
               Hid Hfetch Hgames Hstore).
  - intros env w before rest player nhlStats turn after result
           Hfetch Hgames Hstore.
    split.
    + exact (legacy_updated_rows_present env w before rest player nhlStats
               Hfetch Hgames Hstore).
    + exact (legacy_updated_turn env w before rest player nhlStats
               Hfetch Hgames Hstore).
Qed.

Lemma refreshed_denominators_coincide_witness :
  (exists row',
     table (snd (Current.App.handleRefreshStats sampleProvider
                   [manualRow; idleRow; sampleRow]
                   (mkWorld
                      [manualRow; idleRow;
                       Current.Supabase.mkNHLPlayer "row-1" 8478402
                         "Connor McDavid" 12 9 (3 # 2) 30 7
                         1762041605000 1762041605000]
                      None []))) !! 2%nat = Some row' /\
     Current.Supabase.id row' = "row-1" /\
     Current.Supabase.points_total_games row' = 10 /\
     Current.Supabase.shots_total_games row' = 10) /\
  (exists row',
     table (snd (Legacy.App.handleRefreshStats
                   (answering (Legacy.NhlApi.mkBody (Some [legacySkater])))
                   [legacySkaterRow]
                   (mkWorld [legacySkaterRow] None []))) !! 0%nat =
     Some row' /\
     Legacy.Supabase.id row' = "row-1" /\
     Legacy.Supabase.points_total_games row' = 10 /\
     Legacy.Supabase.shots_total_games row' = 10).
Proof.
  split.
  - apply (proj1 (proj1 (proj1 refreshed_denominators_coincide
                           sampleProvider
                           (mkWorld
                              [manualRow; idleRow;
                               Current.Supabase.mkNHLPlayer "row-1" 8478402
                                 "Connor McDavid" 12 9 (3 # 2) 30 7
                                 1762041605000 1762041605000]
                              None [])
                           [manualRow; idleRow] [] sampleRow
                           (Current.NhlApi.mkPlayerStatsResult 8478402
                              "Connor McDavid" 15 10 40)
                           ltac:(discriminate) eq_refl ltac:(discriminate)
                           eq_refl)
                    2%nat
                    (Current.Supabase.mkNHLPlayer "row-1" 8478402
                       "Connor McDavid" 12 9 (3 # 2) 30 7
                       1762041605000 1762041605000)
                    eq_refl eq_refl)).
  - apply (proj1 (proj1 (proj2 refreshed_denominators_coincide
                           (answering
                              (Legacy.NhlApi.mkBody (Some [legacySkater])))
                           (mkWorld [legacySkaterRow] None []) [] []
                           legacySkaterRow
                           (Legacy.NhlApi.mkPlayerStatsResult 8478402
                              "Connor McDavid" 15 10 10 40)
                           eq_refl ltac:(discriminate) eq_refl)
                    0%nat legacySkaterRow eq_refl eq_refl)).
Defined.

(** ** The three-player pass *)

Section ThreePlayers.
Import Current.Supabase Current.App.
Context (env : Env Current.NhlApi.Body).

Lemma current_worldAfter_nil (w : World NHLPlayer) :
  worldAfter env [] w = w.
Proof. reflexivity. Qed.

Lemma current_written_row (player : NHLPlayer)
  (nhlStats : Current.NhlApi.PlayerStatsResult) (now : Date)
  (rows : list NHLPlayer) (n : nat) (row : NHLPlayer) :
  rows !! n = Some row ->
  id row = id player ->
  exists row',
    rowsUpdated id (assign (refreshFields nhlStats now)) (id player) rows !! n
    = Some row' /\
    points_games row' = Current.NhlApi.pointsGames nhlStats /\
    points_total_games row' = Current.NhlApi.totalGames nhlStats /\
    shots_games row' = Current.NhlApi.shots nhlStats /\
    shots_total_games row' = Current.NhlApi.totalGames nhlStats.
Proof.
  intros Hrow Hid. rewrite current_rowsUpdated_lookup, Hrow. simpl.
  rewrite bool_decide_eq_true_2 by exact Hid.
  eexists. split; [reflexivity|]. now repeat split.
Qed.

Lemma current_worldAfter_two (x y : NHLPlayer) (w : World NHLPlayer) :
  worldAfter env [x; y] w = worldAfter env [y] (worldAfter env [x] w).
Proof. apply current_worldAfter_cons. Qed.

Lemma current_worldAfter_three (x y z : NHLPlayer) (w : World NHLPlayer) :
  worldAfter env [x; y; z] w =
  worldAfter env [z] (worldAfter env [y] (worldAfter env [x] w)).
Proof.
  rewrite (current_worldAfter_cons env x [y; z]).
  apply current_worldAfter_two.
Qed.

Lemma three_turns (x y z : NHLPlayer) (w : World NHLPlayer) :
  handleRefreshStats env [x; y; z] w =
  (tally z (outcome env z (worldAfter env [y] (worldAfter env [x] w)))
     (tally y (outcome env y (worldAfter env [x] w))
        (tally x (outcome env x w) (mkSummary 0 []))),
   worldAfter env [z] (worldAfter env [y] (worldAfter env [x] w))).
Proof.
  unfold handleRefreshStats.
  rewrite (current_loop_cons env x), (current_loop_cons env y),
    (current_loop_cons env z).
  reflexivity.
Qed.

End ThreePlayers.

(** C1: a pass over three players, in any order, of which one has provider
    id 0, one is fetched with 0 total games, and one is fetched with 10
    total games and written with success, ends with updatedCount 1 and
    exactly two failures, one "Missing NHL Player ID (Old manual entry)"
    for the first and one "No games played this season" for the second (two
    different reasons); every row of the third then holds the fetched
    pointsGames, shots and, in both denominators, totalGames. *)
Theorem refreshAll_three_players
  (env : Env Current.NhlApi.Body) (w : World Current.Supabase.NHLPlayer)
  (players : list Current.Supabase.NHLPlayer) (i j k : nat)
  (manual idle active : Current.Supabase.NHLPlayer)
  (idleStats activeStats : Current.NhlApi.PlayerStatsResult) :
  let result := Current.App.handleRefreshStats env players w in
  let missing := "Missing NHL Player ID (Old manual entry)" in
  let noGames := "No games played this season" in
  length players = 3%nat ->
  players !! i = Some manual ->
  players !! j = Some idle ->
  players !! k = Some active ->
  i <> j -> i <> k -> j <> k ->
  Current.Supabase.nhl_player_id manual = 0 ->
  Current.Supabase.nhl_player_id idle <> 0 ->
  Current.App.fetched env idle
    (Current.App.worldAfter env (take j players) w) = Some idleStats ->
  Current.NhlApi.totalGames idleStats = 0 ->
  Current.Supabase.nhl_player_id active <> 0 ->
  Current.App.fetched env active
    (Current.App.worldAfter env (take k players) w) = Some activeStats ->
  Current.NhlApi.totalGames activeStats = 10 ->
  Current.App.stored env active
    (Current.App.worldAfter env (take k players) w) = StoreOk ->
  Current.App.updatedCount (fst result) = 1%nat /\
  Permutation
    (Current.App.failedPlayers (fst result))
    [Current.App.mkFailedPlayer (Current.Supabase.name manual) missing;
     Current.App.mkFailedPlayer (Current.Supabase.name idle) noGames] /\
  missing <> noGames /\
  (forall n row,
     table w !! n = Some row ->
     Current.Supabase.id row = Current.Supabase.id active ->
     exists row',
       table (snd result) !! n = Some row' /\
       Current.Supabase.points_games row' =
       Current.NhlApi.pointsGames activeStats /\
       Current.Supabase.points_total_games row' =
       Current.NhlApi.totalGames activeStats /\
       Current.Supabase.shots_games row' =
       Current.NhlApi.shots activeStats /\
       Current.Supabase.shots_total_games row' =
       Current.NhlApi.totalGames activeStats).
Proof.
  intros result missing noGames Hlen Hi Hj Hk Hij Hik Hjk
         Hmanual Hidle Hfetch_idle Hzero Hactive Hfetch_active Hten Hstore.
  assert (Hgames : Current.NhlApi.totalGames activeStats <> 0)
    by (rewrite Hten; discriminate).
  pose proof (fun w0 => current_outcome_skipped env manual w0 Hmanual)
    as Ho_manual.
  pose proof (current_outcome_noGames env idle _ idleStats
                Hidle Hfetch_idle Hzero) as Ho_idle.
  pose proof (current_outcome_updated env active _ activeStats
                Hactive Hfetch_active Hgames Hstore) as Ho_active.
  clear Hfetch_idle Hfetch_active Hstore.
  destruct players as [|x [|y [|z [|extra more]]]]; try discriminate Hlen.
  subst result. rewrite three_turns. cbn [fst snd].
  split; [|split; [|split; [discriminate|]]].
  all: destruct i as [|[|[|i]]]; try discriminate Hi;
       destruct j as [|[|[|j]]]; try discriminate Hj;
       destruct k as [|[|[|k]]]; try discriminate Hk;
       try contradiction;
       cbn [take firstn] in Ho_idle, Ho_active;
       rewrite ?current_worldAfter_two, ?current_worldAfter_nil in Ho_idle;
       rewrite ?current_worldAfter_two, ?current_worldAfter_nil in Ho_active;
       injection Hi as ->; injection Hj as ->; injection Hk as ->;
       repeat (progress
                 (rewrite ?current_step_table,
                    ?Ho_manual, ?Ho_idle, ?Ho_active));
       try reflexivity;
       try (cbn; apply perm_swap);
       try (intros n row Hrow Hrowid;
            exact (current_written_row active activeStats _ (table w)
                     n row Hrow Hrowid)).
Qed.

Lemma refreshAll_three_players_witness :
  let result :=
    Current.App.handleRefreshStats sampleProvider samplePlayers
      (mkWorld samplePlayers None []) in
  Current.App.updatedCount (fst result) = 1%nat /\
  length (Current.App.failedPlayers (fst result)) = 2%nat /\
  exists row',
    table (snd result) !! 2%nat = Some row' /\
    Current.Supabase.points_games row' = 15 /\
    Current.Supabase.points_total_games row' = 10 /\
    Current.Supabase.shots_games row' = 40 /\
    Current.Supabase.shots_total_games row' = 10.
Proof.
  destruct (refreshAll_three_players sampleProvider
              (mkWorld samplePlayers None []) samplePlayers
              0%nat 1%nat 2%nat manualRow idleRow sampleRow
              (Current.NhlApi.mkPlayerStatsResult 8475913 "Mark Stone" 0 0 0)
              (Current.NhlApi.mkPlayerStatsResult 8478402 "Connor McDavid"
                 15 10 40)
              eq_refl eq_refl eq_refl eq_refl
              ltac:(discriminate) ltac:(discriminate) ltac:(discriminate)
              eq_refl ltac:(discriminate) eq_refl eq_refl
              ltac:(discriminate) eq_refl eq_refl eq_refl)
    as (Hcount & Hfailed & _ & Hrows).
  split; [exact Hcount|]. split.
  - apply Permutation_length in Hfailed. exact Hfailed.
  - exact (Hrows 2%nat sampleRow eq_refl eq_refl).
Defined.

(** ** Search ranking *)

(** *** The stable sort *)

Section SortFacts.
Context {A : Type} (cmp : A -> A -> Z).

Lemma insertSorted_Permutation (x : A) (l : list A) :
  Permutation (Js.insertSorted cmp x l) (x :: l).
Proof.
  induction l as [|y l IH]; simpl; [reflexivity|].
  destruct (cmp x y <=? 0); [reflexivity|].
  rewrite IH. apply perm_swap.
Qed.

Lemma sort_Permutation (l : list A) : Permutation (Js.sort cmp l) l.
Proof.
  induction l as [|x l IH]; simpl; [reflexivity|].
  rewrite insertSorted_Permutation. now rewrite IH.
Qed.

Hypothesis inOrder_total :
  forall a b, Js.inOrder cmp a b \/ Js.inOrder cmp b a.
Hypothesis inOrder_trans :
  forall a b c, Js.inOrder cmp a b -> Js.inOrder cmp b c -> Js.inOrder cmp a c.

Lemma insertSorted_sorted (x : A) (l : list A) :
  StronglySorted (Js.inOrder cmp) l -> StronglySorted (Js.inOrder cmp) (Js.insertSorted cmp x l).
Proof.
  induction l as [|y l IH]; simpl; intros Hs.
  - repeat constructor.
  - destruct (cmp x y <=? 0) eqn:E.
    + apply Z.leb_le in E.
      apply StronglySorted_cons in Hs as Hs'. destruct Hs' as [Hy Hl].
      constructor; [exact Hs|].
      constructor; [exact E|].
      eapply Forall_impl; [exact Hy|].
      intros z Hz. now apply (inOrder_trans x y z).
    + apply Z.leb_gt in E.
      apply StronglySorted_cons in Hs as [Hy Hl].
      constructor; [now apply IH|].
      rewrite (insertSorted_Permutation x l).
      constructor; [|exact Hy].
      destruct (inOrder_total y x) as [H|H]; [exact H|].
      unfold Js.inOrder in H. lia.
Qed.

Lemma sort_sorted (l : list A) : StronglySorted (Js.inOrder cmp) (Js.sort cmp l).
Proof.
  induction l as [|x l IH]; simpl; [constructor|].
  now apply insertSorted_sorted.
Qed.

End SortFacts.

Lemma StronglySorted_lookup {A : Type} (R : A -> A -> Prop) (l : list A)
  (i j : nat) (a b : A) :
  StronglySorted R l -> (i < j)%nat ->
  l !! i = Some a -> l !! j = Some b -> R a b.
Proof.
  intros Hs. revert i j. induction Hs as [|x l Hs IH Hx]; intros i j Hij Hi Hj.
  - discriminate.
  - destruct j as [|j]; [lia|]. simpl in Hj.
    destruct i as [|i].
    + injection Hi as <-. rewrite Forall_forall in Hx.
      apply Hx. eapply list_elem_of_lookup_2. exact Hj.
    + simpl in Hi. apply (IH i j); [lia | exact Hi | exact Hj].
Qed.

(** Elements that the comparator never tells apart keep their order: a
    class [P] whose members compare as equal or in order is left as it
    was. *)
Lemma insertSorted_stable {A : Type} (cmp : A -> A -> Z) (P : A -> bool)
  (x : A) (l : list A) :
  (forall a b, P a = true -> P b = true -> cmp a b <= 0) ->
  List.filter P (Js.insertSorted cmp x l) = List.filter P (x :: l).
Proof.
  intros Hclass. induction l as [|y l IH]; [reflexivity|].
  simpl Js.insertSorted. destruct (cmp x y <=? 0) eqn:E; [reflexivity|].
  apply Z.leb_gt in E.
  simpl List.filter at 1. rewrite IH. simpl.
  destruct (P x) eqn:Hx, (P y) eqn:Hy; try reflexivity.
  specialize (Hclass x y Hx Hy). lia.
Qed.

Lemma sort_stable {A : Type} (cmp : A -> A -> Z) (P : A -> bool)
  (l : list A) :
  (forall a b, P a = true -> P b = true -> cmp a b <= 0) ->
  List.filter P (Js.sort cmp l) = List.filter P l.
Proof.
  intros Hclass. induction l as [|x l IH]; [reflexivity|].
  simpl Js.sort. rewrite insertSorted_stable by exact Hclass.
  simpl. now rewrite IH.
Qed.

(** *** The comparators *)

Lemma prefix_refl (s : string) : String.prefix s s = true.
Proof.
  induction s as [|c s IH]; [reflexivity|]. simpl.
  destruct (Ascii.ascii_dec c c); [exact IH | contradiction].
Qed.

Lemma exact_startsWith (a q : string) :
  Js.strictEq a q = true -> Js.startsWith a q = true.
Proof.
  unfold Js.strictEq, Js.startsWith. intros H.
  apply bool_decide_eq_true in H. subst a. apply prefix_refl.
Qed.

(** The current comparator orders by tier, then by [localeCompare] of the
    lowercased names. *)
Lemma current_compare_inOrder (localeCompare : string -> string -> Z)
  (q : string) (a b : Current.NhlApi.NHLApiPlayer) :
  Js.inOrder (Current.NhlApi.compareResults localeCompare q) a b <->
  (Current.NhlApi.tier q a < Current.NhlApi.tier q b)%nat \/
  (Current.NhlApi.tier q a = Current.NhlApi.tier q b /\
   localeCompare (Js.toLowerCase (Current.NhlApi.name a))
                 (Js.toLowerCase (Current.NhlApi.name b)) <= 0).
Proof.
  unfold Js.inOrder, Current.NhlApi.compareResults, Current.NhlApi.tier.
  pose proof (exact_startsWith (Js.toLowerCase (Current.NhlApi.name a)) q)
    as Ha.
  pose proof (exact_startsWith (Js.toLowerCase (Current.NhlApi.name b)) q)
    as Hb.
  destruct (Js.strictEq (Js.toLowerCase (Current.NhlApi.name a)) q),
    (Js.strictEq (Js.toLowerCase (Current.NhlApi.name b)) q);
    try rewrite (Ha eq_refl); try rewrite (Hb eq_refl); simpl;
    destruct (Js.startsWith (Js.toLowerCase (Current.NhlApi.name a)) q),
      (Js.startsWith (Js.toLowerCase (Current.NhlApi.name b)) q);
    simpl; intuition (try lia; try discriminate).
Qed.

(** The legacy comparator orders by tier and by nothing else. *)
Lemma legacy_compare_inOrder (q : string)
  (a b : Legacy.NhlApi.NHLApiPlayer) :
  Js.inOrder (Legacy.NhlApi.compareResults q) a b <->
  (Legacy.NhlApi.tier q a <= Legacy.NhlApi.tier q b)%nat.
Proof.
  unfold Js.inOrder, Legacy.NhlApi.compareResults, Legacy.NhlApi.tier.
  pose proof (exact_startsWith (Js.toLowerCase (Legacy.NhlApi.name a)) q)
    as Ha.
  pose proof (exact_startsWith (Js.toLowerCase (Legacy.NhlApi.name b)) q)
    as Hb.
  destruct (Js.strictEq (Js.toLowerCase (Legacy.NhlApi.name a)) q),
    (Js.strictEq (Js.toLowerCase (Legacy.NhlApi.name b)) q);
    try rewrite (Ha eq_refl); try rewrite (Hb eq_refl); simpl;
    destruct (Js.startsWith (Js.toLowerCase (Legacy.NhlApi.name a)) q),
      (Js.startsWith (Js.toLowerCase (Legacy.NhlApi.name b)) q);
    simpl; intuition (try lia; try discriminate).
Qed.

Lemma current_search_cached {R : Type} (env : Env Current.NhlApi.Body)
  (localeCompare : string -> string -> Z) (query : string) (w : World R)
  (directory : Js.Map DirectoryEntry) :
  cachedPlayers w = Some directory ->
  fst (Current.NhlApi.searchNHLPlayers env localeCompare query w) =
  Js.sort
    (Current.NhlApi.compareResults localeCompare
       (Js.trim (Js.toLowerCase query)))
    (Current.NhlApi.matching (Js.trim (Js.toLowerCase query)) directory).
Proof.
  intros Hc. unfold Current.NhlApi.searchNHLPlayers, bind.
  rewrite (current_load_cached env w directory Hc).
  destruct directory as [|entry directory]; reflexivity.
Qed.

Lemma legacy_search_cached {R : Type} (env : Env Legacy.NhlApi.Body)
  (query : string) (w : World R) (directory : Js.Map DirectoryEntry) :
  cachedPlayers w = Some directory ->
  fst (Legacy.NhlApi.searchNHLPlayers env query w) =
  Js.sort
    (Legacy.NhlApi.compareResults (Js.trim (Js.toLowerCase query)))
    (Legacy.NhlApi.matching (Js.trim (Js.toLowerCase query)) directory).
Proof.
  intros Hc. unfold Legacy.NhlApi.searchNHLPlayers, bind.
  rewrite (legacy_load_cached env w directory Hc).
  destruct directory as [|entry directory]; reflexivity.
Qed.

Lemma current_matching_In (searchLower : string)
  (directory : Js.Map DirectoryEntry) (p : Current.NhlApi.NHLApiPlayer) :
  In p (Current.NhlApi.matching searchLower directory) <->
  exists entry,
    In entry (Js.mapValues directory) /\
    Js.includes (Js.toLowerCase (entry_fullName entry)) searchLower = true /\
    p = Current.NhlApi.mkNHLApiPlayer (entry_id entry)
          (entry_fullName entry).
Proof.
  unfold Current.NhlApi.matching. rewrite in_map_iff. split.
  - intros (entry & <- & Hin). apply filter_In in Hin as [Hin Hinc]. eauto.
  - intros (entry & Hin & Hinc & ->). exists entry. split; [reflexivity|].
    apply filter_In. auto.
Qed.

Lemma legacy_matching_In (searchLower : string)
  (directory : Js.Map DirectoryEntry) (p : Legacy.NhlApi.NHLApiPlayer) :
  In p (Legacy.NhlApi.matching searchLower directory) <->
  exists entry,
    In entry (Js.mapValues directory) /\
    Js.includes (Js.toLowerCase (entry_fullName entry)) searchLower = true /\
    p = Legacy.NhlApi.mkNHLApiPlayer (entry_id entry)
          (entry_fullName entry).
Proof.
  unfold Legacy.NhlApi.matching. rewrite in_map_iff. split.
  - intros (entry & <- & Hin). apply filter_In in Hin as [Hin Hinc]. eauto.
  - intros (entry & Hin & Hinc & ->). exists entry. split; [reflexivity|].
    apply filter_In. auto.
Qed.

Lemma current_ranked {R : Type} (env : Env Current.NhlApi.Body)
  (localeCompare : string -> string -> Z) (w : World R)
  (directory : Js.Map DirectoryEntry) (query : string) :
  let searchLower := Js.trim (Js.toLowerCase query) in
  let result :=
    fst (Current.NhlApi.searchNHLPlayers env localeCompare query w) in
  (forall a b, localeCompare a b <= 0 \/ localeCompare b a <= 0) ->
  (forall a b c,
     localeCompare a b <= 0 -> localeCompare b c <= 0 ->
     localeCompare a c <= 0) ->
  cachedPlayers w = Some directory ->
  (forall p,
     In p result <->
     exists entry,
       In entry (Js.mapValues directory) /\
       Js.includes (Js.toLowerCase (entry_fullName entry)) searchLower
       = true /\
       p = Current.NhlApi.mkNHLApiPlayer (entry_id entry)
             (entry_fullName entry)) /\
  Permutation result (Current.NhlApi.matching searchLower directory) /\
  (forall i j a b,
     (i < j)%nat -> result !! i = Some a -> result !! j = Some b ->
     (Current.NhlApi.tier searchLower a <=
      Current.NhlApi.tier searchLower b)%nat /\
     (Current.NhlApi.tier searchLower a =
      Current.NhlApi.tier searchLower b ->
      localeCompare (Js.toLowerCase (Current.NhlApi.name a))
                    (Js.toLowerCase (Current.NhlApi.name b)) <= 0)).
Proof.
  intros searchLower result Htotal Htrans Hc. subst result.
  rewrite (current_search_cached env localeCompare query w directory Hc).
  fold searchLower.
  set (cmp := Current.NhlApi.compareResults localeCompare searchLower).
  pose proof (sort_Permutation cmp
                (Current.NhlApi.matching searchLower directory)) as Hperm.
  split; [|split; [exact Hperm|]].
  - intros p. rewrite <- current_matching_In.
    split; apply Permutation_in; [exact Hperm | now symmetry].
  - assert (Hsorted : StronglySorted (Js.inOrder cmp)
                        (Js.sort cmp
                           (Current.NhlApi.matching searchLower directory))).
    { apply sort_sorted.
      - intros a b. subst cmp. rewrite !current_compare_inOrder.
        destruct (Htotal (Js.toLowerCase (Current.NhlApi.name a))
                         (Js.toLowerCase (Current.NhlApi.name b)));
          destruct (lt_eq_lt_dec (Current.NhlApi.tier searchLower a)
                                 (Current.NhlApi.tier searchLower b))
            as [[?|?]|?]; auto.
      - intros a b c. subst cmp. rewrite !current_compare_inOrder.
        intros [Hab|[Hab Hlab]] [Hbc|[Hbc Hlbc]];
          try (left; lia).
        right. split; [congruence|]. eapply Htrans; eassumption. }
    intros i j a b Hij Hi Hj.
    pose proof (StronglySorted_lookup _ _ i j a b Hsorted Hij Hi Hj) as Hab.
    subst cmp. rewrite current_compare_inOrder in Hab.
    destruct Hab as [Hlt|[Heq Hle]]; split; try lia; auto.
Qed.

Lemma legacy_ranked {R : Type} (env : Env Legacy.NhlApi.Body)
  (w : World R) (directory : Js.Map DirectoryEntry) (query : string) :
  let searchLower := Js.trim (Js.toLowerCase query) in
  let result := fst (Legacy.NhlApi.searchNHLPlayers env query w) in
  cachedPlayers w = Some directory ->
  (forall p,
     In p result <->
     exists entry,
       In entry (Js.mapValues directory) /\
       Js.includes (Js.toLowerCase (entry_fullName entry)) searchLower
       = true /\
       p = Legacy.NhlApi.mkNHLApiPlayer (entry_id entry)
             (entry_fullName entry)) /\
  Permutation result (Legacy.NhlApi.matching searchLower directory) /\
  (forall i j a b,
     (i < j)%nat -> result !! i = Some a -> result !! j = Some b ->
     (Legacy.NhlApi.tier searchLower a <=
      Legacy.NhlApi.tier searchLower b)%nat) /\
  (forall t,
     List.filter (fun p => Legacy.NhlApi.tier searchLower p =? t)%nat result
     = List.filter (fun p => Legacy.NhlApi.tier searchLower p =? t)%nat
         (Legacy.NhlApi.matching searchLower directory)).
Proof.
  intros searchLower result Hc. subst result.
  rewrite (legacy_search_cached env query w directory Hc).
  fold searchLower.
  set (cmp := Legacy.NhlApi.compareResults searchLower).
  pose proof (sort_Permutation cmp
                (Legacy.NhlApi.matching searchLower directory)) as Hperm.
  split; [|split; [exact Hperm|split]].
  - intros p. rewrite <- legacy_matching_In.
    split; apply Permutation_in; [exact Hperm | now symmetry].
  - assert (Hsorted : StronglySorted (Js.inOrder cmp)
                        (Js.sort cmp
                           (Legacy.NhlApi.matching searchLower directory))).
    { apply sort_sorted.
      - intros a b. subst cmp. rewrite !legacy_compare_inOrder. lia.
      - intros a b c. subst cmp. rewrite !legacy_compare_inOrder. lia. }
    intros i j a b Hij Hi Hj.
    pose proof (StronglySorted_lookup _ _ i j a b Hsorted Hij Hi Hj) as Hab.
    subst cmp. now rewrite legacy_compare_inOrder in Hab.
  - intros t. apply sort_stable. intros a b Ha Hb.
    apply Nat.eqb_eq in Ha, Hb.
    apply legacy_compare_inOrder. lia.
Qed.

(** *** Code-unit order is a collation *)

Lemma codeUnitCompare_cons (x y : ascii) (a b : string) :
  Js.codeUnitCompare (String x a) (String y b) <= 0 <->
  (nat_of_ascii x < nat_of_ascii y)%nat \/
  (nat_of_ascii x = nat_of_ascii y /\ Js.codeUnitCompare a b <= 0).
Proof.
  simpl.
  destruct (Z.of_nat (nat_of_ascii x) - Z.of_nat (nat_of_ascii y) =? 0)
    eqn:E.
  - apply Z.eqb_eq in E. split; [intros H; right; split; [lia|exact H]|].
    intros [H|[_ H]]; [lia | exact H].
  - apply Z.eqb_neq in E. rewrite Z.sgn_nonpos. lia.
Qed.

Lemma codeUnitCompare_total (a b : string) :
  Js.codeUnitCompare a b <= 0 \/ Js.codeUnitCompare b a <= 0.
Proof.
  revert b. induction a as [|x a IH]; intros [|y b]; simpl; try lia.
  change (Js.codeUnitCompare (String x a) (String y b) <= 0 \/
          Js.codeUnitCompare (String y b) (String x a) <= 0).
  rewrite !codeUnitCompare_cons.
  destruct (IH b); destruct (lt_eq_lt_dec (nat_of_ascii x) (nat_of_ascii y))
    as [[?|?]|?]; auto.
Qed.

Lemma codeUnitCompare_trans (a b c : string) :
  Js.codeUnitCompare a b <= 0 -> Js.codeUnitCompare b c <= 0 ->
  Js.codeUnitCompare a c <= 0.
Proof.
  revert b c. induction a as [|x a IH]; intros [|y b] [|z c];
    try (simpl; lia).
  rewrite !codeUnitCompare_cons.
  intros [Hxy|[Hxy Hab]] [Hyz|[Hyz Hbc]]; try (left; lia).
  right. split; [lia|]. now apply (IH b c).
Qed.

(** C2, as the code has it.  With the directory cached, a search returns
    exactly the entries whose lowercased full name contains the lowercased,
    trimmed query, every exact match before every other prefix match and
    every prefix match before every other match.  Within a tier the
    current revision orders by [localeCompare] of the lowercased names
    (for a collation that is a total preorder); the legacy revision keeps
    the entries of a tier in the order of the directory. *)
Theorem search_results_ranked :
  (forall (R : Type) (env : Env Current.NhlApi.Body)
          (localeCompare : string -> string -> Z) (w : World R)
          (directory : Js.Map DirectoryEntry) (query : string),
     let searchLower := Js.trim (Js.toLowerCase query) in
     let result :=
       fst (Current.NhlApi.searchNHLPlayers env localeCompare query w) in
     (forall a b, localeCompare a b <= 0 \/ localeCompare b a <= 0) ->
     (forall a b c,
        localeCompare a b <= 0 -> localeCompare b c <= 0 ->
        localeCompare a c <= 0) ->
     cachedPlayers w = Some directory ->
     (forall p,
        In p result <->
        exists entry,
          In entry (Js.mapValues directory) /\
          Js.includes (Js.toLowerCase (entry_fullName entry)) searchLower
          = true /\
          p = Current.NhlApi.mkNHLApiPlayer (entry_id entry)
                (entry_fullName entry)) /\
     Permutation result (Current.NhlApi.matching searchLower directory) /\
     (forall i j a b,
        (i < j)%nat -> result !! i = Some a -> result !! j = Some b ->
        (Current.NhlApi.tier searchLower a <=
         Current.NhlApi.tier searchLower b)%nat /\
        (Current.NhlApi.tier searchLower a =
         Current.NhlApi.tier searchLower b ->
         localeCompare (Js.toLowerCase (Current.NhlApi.name a))
                       (Js.toLowerCase (Current.NhlApi.name b)) <= 0))) /\
  (forall (R : Type) (env : Env Legacy.NhlApi.Body) (w : World R)
          (directory : Js.Map DirectoryEntry) (query : string),
     let searchLower := Js.trim (Js.toLowerCase query) in
     let result := fst (Legacy.NhlApi.searchNHLPlayers env query w) in
     cachedPlayers w = Some directory ->
     (forall p,
        In p result <->
        exists entry,
          In entry (Js.mapValues directory) /\
          Js.includes (Js.toLowerCase (entry_fullName entry)) searchLower
          = true /\
          p = Legacy.NhlApi.mkNHLApiPlayer (entry_id entry)
                (entry_fullName entry)) /\
     Permutation result (Legacy.NhlApi.matching searchLower directory) /\
     (forall i j a b,
        (i < j)%nat -> result !! i = Some a -> result !! j = Some b ->
        (Legacy.NhlApi.tier searchLower a <=
         Legacy.NhlApi.tier searchLower b)%nat) /\
     (forall t,
        List.filter (fun p => Legacy.NhlApi.tier searchLower p =? t)%nat
                    result
        = List.filter (fun p => Legacy.NhlApi.tier searchLower p =? t)%nat
            (Legacy.NhlApi.matching searchLower directory))).
Proof.
  split.
  - intros R env localeCompare w directory query. apply current_ranked.
  - intros R env w directory query. apply legacy_ranked.
Qed.

Lemma search_results_ranked_witness :
  Permutation
    (fst (Current.NhlApi.searchNHLPlayers offline Js.codeUnitCompare " M "
            (mkWorld (R:=unit) [] (Some sampleDirectory) [])))
    (Current.NhlApi.matching "m" sampleDirectory) /\
  Permutation
    (fst (Legacy.NhlApi.searchNHLPlayers offline " M "
            (mkWorld (R:=unit) [] (Some sampleDirectory) [])))
    (Legacy.NhlApi.matching "m" sampleDirectory).
Proof.
  split.
  - apply (proj1 search_results_ranked unit offline Js.codeUnitCompare
             (mkWorld [] (Some sampleDirectory) []) sampleDirectory " M "
             codeUnitCompare_total codeUnitCompare_trans eq_refl).
  - apply (proj2 search_results_ranked unit offline
             (mkWorld [] (Some sampleDirectory) []) sampleDirectory " M "
             eq_refl).
Defined.

(** C2 as stated fails on the legacy revision: for the query "m" over the
    directory Mitch Marner, Mark Stone, Connor McDavid, the two prefix
    matches come out in directory order, Mitch Marner first, although
    "mark stone" is alphabetically before "mitch marner". *)
Lemma legacy_search_not_alphabetical :
  let result :=
    fst (Legacy.NhlApi.searchNHLPlayers offline "m"
           (mkWorld (R:=unit) [] (Some sampleDirectory) [])) in
  result =
  [Legacy.NhlApi.mkNHLApiPlayer 8478483 "Mitch Marner";
   Legacy.NhlApi.mkNHLApiPlayer 8475913 "Mark Stone";
   Legacy.NhlApi.mkNHLApiPlayer 8478402 "Connor McDavid"] /\
  exists a b,
    result !! 0%nat = Some a /\ result !! 1%nat = Some b /\
    Legacy.NhlApi.tier "m" a = 1%nat /\
    Legacy.NhlApi.tier "m" b = 1%nat /\
    Js.codeUnitCompare (Js.toLowerCase (Legacy.NhlApi.name b))
                       (Js.toLowerCase (Legacy.NhlApi.name a)) < 0.
Proof.
  split; [reflexivity|].
  eexists. eexists. repeat split.
Qed.

(** ** The stats fetcher: absent statistics and failed transport *)

(** C4, as the code has it.  A call by id sends exactly one stats request
    and never repeats it; a failure of the transport (no answer, a status
    that is not a success, or a body that is not JSON) gives null.  Current
    revision: a parsed answer whose first statistics group is missing or has
    no split gives the zero-filled snapshot.  Legacy revision, called by id:
    a parsed
    answer that holds the player's record but no regular-season record of
    the current season gives the zero-filled snapshot; a parsed answer that
    holds no player record at all ([people] missing or empty) gives null
    although the transport succeeded.  Legacy revision, called by name: the
    call first searches the directory, which sends one directory request
    when the cache is empty and none otherwise; a search without result
    (no name matches, or the directory request failed) gives null and no
    stats request is sent; otherwise the call goes on exactly as the call
    by the id of the first result. *)
Theorem fetchStats_absent_block_and_transport_failure :
  (forall (R : Type) (env : Env Current.NhlApi.Body) (w : World R)
          (playerId : Z),
     let url :=
       Current.NhlApi.statsUrl playerId
         (getCurrentNHLSeason (clock env (trace w))) in
     let answer := http env (trace w ++ [EvNow]) url in
     let result := Current.NhlApi.getNHLPlayerStats env playerId w in
     (forall data,
        answer = Response true (Some data) ->
        (forall d g gs s ss,
           data = Current.NhlApi.ObjectBody d ->
           Current.NhlApi.data_stats d = Some (g :: gs) ->
           Current.NhlApi.group_splits g = Some (s :: ss) -> False) ->
        fst result =
        Some (Current.NhlApi.mkPlayerStatsResult
                playerId "Unknown Player" 0 0 0)) /\
     (transportFailed answer = true -> fst result = None) /\
     fetchedUrls (trace (snd result)) = fetchedUrls (trace w) ++ [url]) /\
  (forall (R : Type) (env : Env Legacy.NhlApi.Body) (w : World R)
          (playerId : Z),
     let url := Legacy.NhlApi.personUrl playerId in
     let answer := http env (trace w) url in
     let result :=
       Legacy.NhlApi.getNHLPlayerStats env (Legacy.NhlApi.ById playerId) w in
     (forall player rest,
        answer =
        Response true (Some (Legacy.NhlApi.mkBody (Some (player :: rest)))) ->
        (forall grp rec,
           In grp (default [] (Legacy.NhlApi.person_stats player)) ->
           Legacy.NhlApi.type_displayName grp =
           Some "regularSeasonStatRest" ->
           In rec (default [] (Legacy.NhlApi.group_stats grp)) ->
           Legacy.NhlApi.season rec <>
           getCurrentNHLSeason (clock env (trace w ++ [EvFetch url]))) ->
        fst result =
        Some (Legacy.NhlApi.mkPlayerStatsResult
                (Legacy.NhlApi.person_id player)
                (Legacy.NhlApi.person_fullName player) 0 0 0 0)) /\
     (forall data,
        answer = Response true (Some data) ->
        default [] (Legacy.NhlApi.people data) = [] ->
        fst result = None) /\
     (transportFailed answer = true -> fst result = None) /\
     fetchedUrls (trace (snd result)) = fetchedUrls (trace w) ++ [url]) /\
  (forall (R : Type) (env : Env Legacy.NhlApi.Body) (w : World R)
          (playerName : string),
     let found := Legacy.NhlApi.searchNHLPlayers env playerName w in
     let result :=
       Legacy.NhlApi.getNHLPlayerStats env
         (Legacy.NhlApi.ByName playerName) w in
     fetchedUrls (trace (snd found)) =
     fetchedUrls (trace w) ++
     match cachedPlayers w with
     | Some _ => []
     | None => [Legacy.NhlApi.directoryUrl]
     end /\
     (fst found = [] -> result = (None, snd found)) /\
     (forall first others,
        fst found = first :: others ->
        result =
        Legacy.NhlApi.getNHLPlayerStats env
          (Legacy.NhlApi.ById (Legacy.NhlApi.id first)) (snd found)) /\
     (cachedPlayers w = None ->
      transportFailed (http env (trace w) Legacy.NhlApi.directoryUrl)
      = true ->
      fst result = None /\
      fetchedUrls (trace (snd result)) =
      fetchedUrls (trace w) ++ [Legacy.NhlApi.directoryUrl])).
Proof.
  split; [|split].
  - intros R env w playerId url answer result. subst result.
    rewrite current_getNHLPlayerStats_run. fold url answer. simpl.
    repeat split.
    + intros data -> Habsent.
      destruct data as [hits|d]; [reflexivity|].
      unfold Current.NhlApi.statsOfData.
      destruct (Current.NhlApi.data_stats d) as [[|g gs]|] eqn:Hs;
        try reflexivity.
      destruct (Current.NhlApi.group_splits g) as [[|s ss]|] eqn:Hg;
        try reflexivity.
      exfalso. exact (Habsent d g gs s ss eq_refl Hs Hg).
    + destruct answer as [|[] [data|]]; simpl; intros Hf;
        try reflexivity; discriminate.
    + unfold fetchedUrls. now rewrite omap_app.
  - intros R env w playerId url answer result. subst result.
    rewrite legacy_getNHLPlayerStats_run. fold url answer.
    repeat split.
    + intros player rest -> Habsent. simpl.
      rewrite legacy_statsOfPerson_zero by exact Habsent. reflexivity.
    + intros [[[|player rest]|]] -> Hnone; try reflexivity.
      discriminate Hnone.
    + destruct answer as [|[] [data|]]; simpl in *; try reflexivity;
        discriminate.
    + unfold fetchedUrls.
      destruct answer as [|[] [[[[|player rest]|]]|]]; simpl;
        now rewrite omap_app.
  - intros R env w playerName found result. subst found result.
    rewrite legacy_getNHLPlayerStats_byName.
    assert (Hurls :
              fetchedUrls
                (trace (snd (Legacy.NhlApi.searchNHLPlayers env playerName w)))
              = fetchedUrls (trace w) ++
                match cachedPlayers w with
                | Some _ => []
                | None => [Legacy.NhlApi.directoryUrl]
                end).
    { rewrite legacy_search_world.
      destruct (cachedPlayers w) as [players|] eqn:Hc.
      - rewrite (legacy_load_cached env w players Hc). simpl.
        now rewrite app_nil_r.
      - rewrite (legacy_load_miss env w Hc).
        destruct (http env (trace w) Legacy.NhlApi.directoryUrl)
          as [|[] [[[[|player roster]|]]|]]; simpl;
          now rewrite fetchedUrls_app. }
    split; [exact Hurls|].
    split; [|split].
    + destruct (Legacy.NhlApi.searchNHLPlayers env playerName w)
        as [[|first others] w']; simpl; [reflexivity|discriminate].
    + intros first others.
      destruct (Legacy.NhlApi.searchNHLPlayers env playerName w)
        as [[|first' others'] w']; simpl; [discriminate|].
      now intros [= -> ->].
    + intros Hc Hfailed. rewrite Hc in Hurls.
      assert (Hempty :
                fst (Legacy.NhlApi.searchNHLPlayers env playerName w) = []).
      { apply legacy_search_empty_directory.
        rewrite (legacy_load_miss env w Hc).
        destruct (http env (trace w) Legacy.NhlApi.directoryUrl)
          as [|[] [data|]]; try reflexivity; discriminate Hfailed. }
      destruct (Legacy.NhlApi.searchNHLPlayers env playerName w)
        as [[|first others] w']; simpl in *; [|discriminate].
      split; [reflexivity|exact Hurls].
Qed.

Lemma fetchStats_absent_block_and_transport_failure_witness :
  fst (Current.NhlApi.getNHLPlayerStats
         (answering (Current.NhlApi.ObjectBody
                       (Current.NhlApi.mkStatsObject (Some []) None)))
         8478402 (emptyWorld (R:=unit))) =
  Some (Current.NhlApi.mkPlayerStatsResult 8478402 "Unknown Player" 0 0 0) /\
  fst (Current.NhlApi.getNHLPlayerStats offline 8478402
         (emptyWorld (R:=unit))) = None /\
  fst (Legacy.NhlApi.getNHLPlayerStats
         (answering (Legacy.NhlApi.mkBody (Some [legacyRookie])))
         (Legacy.NhlApi.ById 8484144) (emptyWorld (R:=unit))) =
  Some (Legacy.NhlApi.mkPlayerStatsResult 8484144 "Macklin Celebrini"
          0 0 0 0) /\
  fst (Legacy.NhlApi.getNHLPlayerStats
         (answering (Legacy.NhlApi.mkBody None))
         (Legacy.NhlApi.ById 8484144) (emptyWorld (R:=unit))) = None /\
  fst (Legacy.NhlApi.getNHLPlayerStats offline (Legacy.NhlApi.ById 8478402)
         (emptyWorld (R:=unit))) = None /\
  Legacy.NhlApi.getNHLPlayerStats offline
    (Legacy.NhlApi.ByName "Gretzky")
    (mkWorld (R:=unit) [] (Some sampleDirectory) []) =
  (None, mkWorld [] (Some sampleDirectory) []) /\
  fst (Legacy.NhlApi.getNHLPlayerStats offline
         (Legacy.NhlApi.ByName "Connor McDavid") (emptyWorld (R:=unit))) =
  None.
Proof.
  pose proof fetchStats_absent_block_and_transport_failure
    as (Hcurrent & HbyId & HbyName).
  refine (conj _ (conj _ (conj _ (conj _ (conj _ (conj _ _)))))).
  - eapply (proj1 (Hcurrent unit _ _ _)).
    + reflexivity.
    + intros d g gs s ss Hd Hs Hg. inversion Hd; subst d. discriminate Hs.
  - apply (proj1 (proj2 (Hcurrent unit _ _ _))). reflexivity.
  - apply (proj1 (HbyId unit
                    (answering (Legacy.NhlApi.mkBody (Some [legacyRookie])))
                    emptyWorld 8484144) legacyRookie []).
    + reflexivity.
    + intros grp rec Hgrp. destruct Hgrp.
  - apply (proj1 (proj2 (HbyId unit (answering (Legacy.NhlApi.mkBody None))
                           emptyWorld 8484144))
             (Legacy.NhlApi.mkBody None)); reflexivity.
  - apply (proj1 (proj2 (proj2 (HbyId unit offline emptyWorld 8478402)))).
    reflexivity.
  - apply (proj1 (proj2 (HbyName unit offline
                           (mkWorld [] (Some sampleDirectory) [])
                           "Gretzky"))).
    reflexivity.
  - apply (proj2 (proj2 (proj2 (HbyName unit offline emptyWorld
                                  "Connor McDavid")))); reflexivity.
Defined.

(** C4 as stated fails in the legacy revision: the answer arrives, has a
    success status and is JSON, holds no statistics of the player (its
    [people] array is empty), and the result is null, not the zero-filled
    snapshot. *)
Lemma legacy_answer_without_player_gives_null :
  let env := answering (Legacy.NhlApi.mkBody (Some [])) in
  let w := emptyWorld (R:=unit) in
  let result :=
    Legacy.NhlApi.getNHLPlayerStats env (Legacy.NhlApi.ById 8478402) w in
  transportFailed (http env (trace w) (Legacy.NhlApi.personUrl 8478402))
  = false /\
  fst result = None /\
  fetchedUrls (trace (snd result)) = [Legacy.NhlApi.personUrl 8478402].
Proof. repeat split. Qed.

(** * Further properties *)

(** ** The refresh pass as a whole, current revision *)

Section CurrentPassAccounts.
Import Current.Supabase Current.App.
Context (env : Env Current.NhlApi.Body).

(** The requests of one turn. *)
Lemma current_step_trace (player : NHLPlayer) (w : World NHLPlayer) :
  let url :=
    Current.NhlApi.statsUrl (nhl_player_id player)
      (getCurrentNHLSeason (clock env (trace w))) in
  trace (worldAfter env [player] w) =
  trace w ++
  match outcome env player w with
  | Skipped => []
  | FetchFailed | NoGames => [EvNow; EvFetch url]
  | Updated _ | NotStored _ =>
      [EvNow; EvFetch url; EvNow; EvUpdate (id player)]
  end.
Proof.
  intros url.
  rewrite <- (current_step_world env player (mkSummary 0 [])).
  rewrite current_refreshPlayer_run. simpl.
  rewrite current_getNHLPlayerStats_run. simpl. fold url.
  destruct (outcome env player w); simpl;
    rewrite <- ?app_assoc; simpl; try reflexivity.
  now rewrite app_nil_r.
Qed.

Lemma current_step_cache (player : NHLPlayer) (w : World NHLPlayer) :
  cachedPlayers (worldAfter env [player] w) = cachedPlayers w.
Proof.
  rewrite <- (current_step_world env player (mkSummary 0 [])).
  rewrite current_refreshPlayer_run. simpl.
  rewrite current_getNHLPlayerStats_run. simpl.
  now destruct (outcome env player w).
Qed.

Lemma current_outcome_skipped_iff (player : NHLPlayer) (w : World NHLPlayer) :
  outcome env player w = Skipped <-> nhl_player_id player = 0.
Proof.
  unfold outcome. destruct (nhl_player_id player =? 0) eqn:E.
  - apply Z.eqb_eq in E. tauto.
  - apply Z.eqb_neq in E.
    destruct (fetched env player w) as [nhlStats|]; [|split; [discriminate|tauto]].
    destruct (Current.NhlApi.totalGames nhlStats =? 0);
      [split; [discriminate|tauto]|].
    destruct (stored env player w) as [| |[m|]];
      split; try discriminate; tauto.
Qed.

Lemma current_tally_accounts (player : NHLPlayer) (o : Outcome)
  (s : RefreshSummary) :
  (updatedCount (tally player o s) + length (failedPlayers (tally player o s))
   = S (updatedCount s + length (failedPlayers s)))%nat.
Proof.
  destruct o; simpl; rewrite ?length_app; simpl; lia.
Qed.

Lemma current_loop_accounts (players : list NHLPlayer) (s : RefreshSummary)
  (w : World NHLPlayer) :
  (updatedCount (fst (refreshLoop env players s w)) +
   length (failedPlayers (fst (refreshLoop env players s w))) =
   updatedCount s + length (failedPlayers s) + length players)%nat /\
  exists more,
    failedPlayers (fst (refreshLoop env players s w)) =
    failedPlayers s ++ more /\
    sublist (map failed_name more) (map name players).
Proof.
  revert s w. induction players as [|player rest IH]; intros s w.
  - simpl. split; [lia|]. exists []. split; [now rewrite app_nil_r|].
    constructor.
  - rewrite current_loop_cons.
    destruct (IH (tally player (outcome env player w) s)
                 (worldAfter env [player] w)) as (Hcount & more & Hmore & Hsub).
    split.
    + rewrite Hcount, current_tally_accounts. simpl. lia.
    + rewrite Hmore.
      destruct (outcome env player w); simpl;
        rewrite <- ?app_assoc; simpl;
        eexists; (split; [reflexivity|]); simpl;
        first [now apply sublist_skip | now apply sublist_cons].
Qed.

End CurrentPassAccounts.

Section CurrentPassFrame.
Import Current.Supabase Current.App.
Context (env : Env Current.NhlApi.Body).

Lemma current_pass_identity (players : list NHLPlayer) (w : World NHLPlayer) :
  length (table (worldAfter env players w)) = length (table w) /\
  forall j row',
    table (worldAfter env players w) !! j = Some row' ->
    exists row,
      table w !! j = Some row /\
      id row' = id row /\
      nhl_player_id row' = nhl_player_id row /\
      name row' = name row /\
      shots_threshold row' = shots_threshold row /\
      created_at row' = created_at row.
Proof.
  revert w. induction players as [|player rest IH]; intros w.
  - split; [reflexivity|]. intros j row' Hj. exists row'. auto 10.
  - rewrite current_worldAfter_cons.
    destruct (IH (worldAfter env [player] w)) as [Hlen Hrows]. split.
    + rewrite Hlen, current_step_table.
      destruct (outcome env player w); try reflexivity.
      unfold rowsUpdated. apply length_map.
    + intros j row' Hj.
      destruct (Hrows j row' Hj) as (row1 & Hrow1 & H1 & H2 & H3 & H4 & H5).
      destruct (current_step_rows env player w j row1 Hrow1)
        as (row & Hrow & _ & [->|(nhlStats & _ & _ & ->)]);
        exists row; (split; [exact Hrow|]);
        rewrite H1, H2, H3, H4, H5; auto 10.
Qed.

Lemma other_url_is_not_directory (playerId : Z) (season : string) :
  Current.NhlApi.statsUrl playerId season <> Current.NhlApi.directoryUrl.
Proof.
  unfold Current.NhlApi.statsUrl, Current.NhlApi.directoryUrl,
    Current.NhlApi.NHL_API_BASE, Current.NhlApi.NHL_SEARCH_API.
  simpl. discriminate.
Qed.

Lemma current_pass_io (players : list NHLPlayer) (w : World NHLPlayer) :
  cachedPlayers (worldAfter env players w) = cachedPlayers w /\
  exists urls writes,
    fetchedUrls (trace (worldAfter env players w)) =
    fetchedUrls (trace w) ++ urls /\
    updatedRows (trace (worldAfter env players w)) =
    updatedRows (trace w) ++ writes /\
    length urls =
    length (List.filter (fun p => negb (nhl_player_id p =? 0)) players) /\
    ~ In Current.NhlApi.directoryUrl urls /\
    sublist writes (map id players) /\
    (length writes <= length urls)%nat.
Proof.
  revert w. induction players as [|player rest IH]; intros w.
  - split; [reflexivity|]. exists [], []. simpl. rewrite !app_nil_r.
    repeat split; auto; constructor.
  - rewrite current_worldAfter_cons.
    destruct (IH (worldAfter env [player] w))
      as (Hcache & urls & writes & Hurls & Hwrites & Hlen & Hdir & Hsub & Hle).
    split; [now rewrite Hcache, current_step_cache|].
    rewrite Hurls, Hwrites, current_step_trace.
    unfold fetchedUrls, updatedRows. rewrite !omap_app.
    pose proof (current_outcome_skipped_iff env player w) as Hskip.
    simpl List.filter. simpl map.
    destruct (outcome env player w) eqn:Ho; simpl;
      (destruct (nhl_player_id player =? 0) eqn:E;
       [apply Z.eqb_eq in E; apply Hskip in E; try discriminate E
       |apply Z.eqb_neq in E;
        try (exfalso; apply E, Hskip; reflexivity)]);
      rewrite <- ?app_assoc; simpl;
      eexists; eexists;
      (split; [reflexivity|]); (split; [reflexivity|]); simpl;
      repeat split;
      try (f_equal; exact Hlen);
      try exact Hlen;
      try (intros [Hbad|Hbad];
           [now apply other_url_is_not_directory in Hbad | now apply Hdir]);
      try exact Hdir;
      try (now apply sublist_skip);
      try (now apply sublist_cons);
      try lia.
Qed.

End CurrentPassFrame.

Section CurrentOffline.
Import Current.Supabase Current.App.
Context (env : Env Current.NhlApi.Body).
Hypothesis network_down :
  forall history url, transportFailed (http env history url) = true.

Lemma current_offline_fetch (playerId : Z) (w : World NHLPlayer) :
  fst (Current.NhlApi.getNHLPlayerStats env playerId w) = None.
Proof.
  rewrite current_getNHLPlayerStats_run. simpl.
  match goal with |- context [http env ?h ?u] =>
    pose proof (network_down h u) as Hdown;
    destruct (http env h u) as [|[] [data|]]
  end; try reflexivity; discriminate.
Qed.

Lemma current_offline_outcome (player : NHLPlayer) (w : World NHLPlayer) :
  outcome env player w =
  if nhl_player_id player =? 0 then Skipped else FetchFailed.
Proof.
  unfold outcome, fetched. now rewrite current_offline_fetch.
Qed.

Lemma current_offline_loop (players : list NHLPlayer) (s : RefreshSummary)
  (w : World NHLPlayer) :
  fst (refreshLoop env players s w) =
  mkSummary (updatedCount s)
    (failedPlayers s ++
     map (fun p =>
            mkFailedPlayer (name p)
              (if nhl_player_id p =? 0
               then "Missing NHL Player ID (Old manual entry)"
               else "Could not fetch stats from NHL API"))
         players) /\
  table (worldAfter env players w) = table w /\
  updatedRows (trace (worldAfter env players w)) = updatedRows (trace w).
Proof.
  revert s w. induction players as [|player rest IH]; intros s w.
  - simpl. rewrite app_nil_r. now destruct s.
  - rewrite current_loop_cons, (current_worldAfter_cons env player rest).
    destruct (IH (tally player (outcome env player w) s)
                 (worldAfter env [player] w)) as (-> & -> & ->).
    rewrite current_step_table, current_step_updatedRows.
    rewrite current_offline_outcome.
    destruct (nhl_player_id player =? 0) eqn:E; simpl;
      rewrite <- app_assoc, ?E; auto.
Qed.

End CurrentOffline.

(** ** The refresh pass as a whole, legacy revision *)

Section LegacyPassAccounts.
Import Legacy.Supabase Legacy.App.
Context (env : Env Legacy.NhlApi.Body).

Lemma legacy_tally_accounts (player : NHLPlayer) (o : Outcome)
  (s : RefreshSummary) :
  (updatedCount (tally player o s) + length (failedPlayers (tally player o s))
   = S (updatedCount s + length (failedPlayers s)))%nat.
Proof.
  destruct o; simpl; rewrite ?length_app; simpl; lia.
Qed.

Lemma legacy_loop_accounts (players : list NHLPlayer) (s : RefreshSummary)
  (w : World NHLPlayer) :
  (updatedCount (fst (refreshLoop env players s w)) +
   length (failedPlayers (fst (refreshLoop env players s w))) =
   updatedCount s + length (failedPlayers s) + length players)%nat /\
  exists more,
    failedPlayers (fst (refreshLoop env players s w)) =
    failedPlayers s ++ more /\
    sublist (map failed_name more) (map name players).
Proof.
  revert s w. induction players as [|player rest IH]; intros s w.
  - simpl. split; [lia|]. exists []. split; [now rewrite app_nil_r|].
    constructor.
  - rewrite legacy_loop_cons.
    destruct (IH (tally player (outcome env player w) s)
                 (worldAfter env [player] w)) as (Hcount & more & Hmore & Hsub).
    split.
    + rewrite Hcount, legacy_tally_accounts. simpl. lia.
    + rewrite Hmore.
      destruct (outcome env player w); simpl;
        rewrite <- ?app_assoc; simpl;
        eexists; (split; [reflexivity|]); simpl;
        first [now apply sublist_skip | now apply sublist_cons].
Qed.

Lemma legacy_pass_identity (players : list NHLPlayer) (w : World NHLPlayer) :
  length (table (worldAfter env players w)) = length (table w) /\
  forall j row',
    table (worldAfter env players w) !! j = Some row' ->
    exists row,
      table w !! j = Some row /\
      id row' = id row /\
      name row' = name row /\
      shots_threshold row' = shots_threshold row /\
      created_at row' = created_at row.
Proof.
  revert w. induction players as [|player rest IH]; intros w.
  - split; [reflexivity|]. intros j row' Hj. exists row'. auto 10.
  - rewrite (legacy_worldAfter_cons env player rest).
    destruct (IH (worldAfter env [player] w)) as [Hlen Hrows]. split.
    + rewrite Hlen, legacy_step_table.
      destruct (outcome env player w); try reflexivity.
      unfold rowsUpdated. apply length_map.
    + intros j row' Hj.
      destruct (Hrows j row' Hj) as (row1 & Hrow1 & H1 & H2 & H3 & H4).
      destruct (legacy_step_rows env player w j row1 Hrow1)
        as (row & Hrow & _ & [->|(nhlStats & _ & _ & ->)]);
        exists row; (split; [exact Hrow|]);
        rewrite H1, H2, H3, H4; auto 10.
Qed.

Hypothesis network_down :
  forall history url, transportFailed (http env history url) = true.

Lemma legacy_offline_fetch (who : Legacy.NhlApi.IdOrName)
  (w : World NHLPlayer) :
  fst (Legacy.NhlApi.getNHLPlayerStats env who w) = None.
Proof.
  assert (Hid : forall playerId (w0 : World NHLPlayer),
            fst (Legacy.NhlApi.getNHLPlayerStats env
                   (Legacy.NhlApi.ById playerId) w0) = None).
  { intros playerId w0. rewrite legacy_getNHLPlayerStats_run.
    match goal with |- context [http env ?h ?u] =>
      pose proof (network_down h u) as Hdown;
      destruct (http env h u) as [|[] [data|]]
    end; try reflexivity; discriminate. }
  destruct who as [playerId|playerName]; [apply Hid|].
  rewrite legacy_getNHLPlayerStats_byName.
  destruct (Legacy.NhlApi.searchNHLPlayers env playerName w)
    as [[|first others] w']; [reflexivity | apply Hid].
Qed.

Lemma legacy_offline_loop (players : list NHLPlayer) (s : RefreshSummary)
  (w : World NHLPlayer) :
  fst (refreshLoop env players s w) =
  mkSummary (updatedCount s)
    (failedPlayers s ++
     map (fun p => mkFailedPlayer (name p) "Player not found in NHL database")
         players) /\
  table (worldAfter env players w) = table w /\
  updatedRows (trace (worldAfter env players w)) = updatedRows (trace w).
Proof.
  revert s w. induction players as [|player rest IH]; intros s w.
  - simpl. rewrite app_nil_r. now destruct s.
  - rewrite legacy_loop_cons, (legacy_worldAfter_cons env player rest).
    destruct (IH (tally player (outcome env player w) s)
                 (worldAfter env [player] w)) as (-> & -> & ->).
    rewrite legacy_step_table, legacy_step_updatedRows.
    unfold outcome, fetched. rewrite legacy_offline_fetch. simpl.
    rewrite <- app_assoc. auto.
Qed.

End LegacyPassAccounts.

(** ** What a pass always does *)

(** X1: a pass accounts for every player exactly once: the number of
    updates and the number of failure records add up to the number of
    players, and the names of the failure records are names of the list, in
    its order.  One player's failure never ends the pass.  Current revision
    first, then the legacy one. *)
Theorem refresh_accounts_for_every_player :
  (forall (env : Env Current.NhlApi.Body)
          (players : list Current.Supabase.NHLPlayer)
          (w : World Current.Supabase.NHLPlayer),
     let summary := fst (Current.App.handleRefreshStats env players w) in
     (Current.App.updatedCount summary +
      length (Current.App.failedPlayers summary) = length players)%nat /\
     sublist (map Current.App.failed_name (Current.App.failedPlayers summary))
             (map Current.Supabase.name players)) /\
  (forall (env : Env Legacy.NhlApi.Body)
          (players : list Legacy.Supabase.NHLPlayer)
          (w : World Legacy.Supabase.NHLPlayer),
     let summary := fst (Legacy.App.handleRefreshStats env players w) in
     (Legacy.App.updatedCount summary +
      length (Legacy.App.failedPlayers summary) = length players)%nat /\
     sublist (map Legacy.App.failed_name (Legacy.App.failedPlayers summary))
             (map Legacy.Supabase.name players)).
Proof.
  split.
  - intros env players w summary. subst summary.
    unfold Current.App.handleRefreshStats.
    destruct (current_loop_accounts env players
                (Current.App.mkSummary 0 []) w)
      as (Hcount & more & Hmore & Hsub).
    split; [exact Hcount|]. rewrite Hmore. exact Hsub.
  - intros env players w summary. subst summary.
    unfold Legacy.App.handleRefreshStats.
    destruct (legacy_loop_accounts env players
                (Legacy.App.mkSummary 0 []) w)
      as (Hcount & more & Hmore & Hsub).
    split; [exact Hcount|]. rewrite Hmore. exact Hsub.
Qed.

(** X2: a pass never adds, removes or reorders rows, and never changes who
    a row is: [id], [name], [shots_threshold] and [created_at] (and
    [nhl_player_id] in the current revision) of every row are as before the
    pass, whatever the provider and the store answer. *)
Theorem refresh_keeps_row_identity :
  (forall (env : Env Current.NhlApi.Body)
          (players : list Current.Supabase.NHLPlayer)
          (w : World Current.Supabase.NHLPlayer),
     let after := table (snd (Current.App.handleRefreshStats env players w)) in
     length after = length (table w) /\
     forall j row',
       after !! j = Some row' ->
       exists row,
         table w !! j = Some row /\
         Current.Supabase.id row' = Current.Supabase.id row /\
         Current.Supabase.nhl_player_id row' =
         Current.Supabase.nhl_player_id row /\
         Current.Supabase.name row' = Current.Supabase.name row /\
         Current.Supabase.shots_threshold row' =
         Current.Supabase.shots_threshold row /\
         Current.Supabase.created_at row' = Current.Supabase.created_at row) /\
  (forall (env : Env Legacy.NhlApi.Body)
          (players : list Legacy.Supabase.NHLPlayer)
          (w : World Legacy.Supabase.NHLPlayer),
     let after := table (snd (Legacy.App.handleRefreshStats env players w)) in
     length after = length (table w) /\
     forall j row',
       after !! j = Some row' ->
       exists row,
         table w !! j = Some row /\
         Legacy.Supabase.id row' = Legacy.Supabase.id row /\
         Legacy.Supabase.name row' = Legacy.Supabase.name row /\
         Legacy.Supabase.shots_threshold row' =
         Legacy.Supabase.shots_threshold row /\
         Legacy.Supabase.created_at row' = Legacy.Supabase.created_at row).
Proof.
  split.
  - intros env players w. apply (current_pass_identity env players w).
  - intros env players w. apply (legacy_pass_identity env players w).
Qed.

(** X3: a pass of the current revision leaves the directory cache as it
    was and never asks for the directory; it sends one stats request for
    each player whose provider id is not 0 and none for the others; the
    rows it writes are rows of listed players, in list order, at most one
    write per request. *)
Theorem current_refresh_requests
  (env : Env Current.NhlApi.Body)
  (players : list Current.Supabase.NHLPlayer)
  (w : World Current.Supabase.NHLPlayer) :
  let after := snd (Current.App.handleRefreshStats env players w) in
  cachedPlayers after = cachedPlayers w /\
  exists urls writes,
    fetchedUrls (trace after) = fetchedUrls (trace w) ++ urls /\
    updatedRows (trace after) = updatedRows (trace w) ++ writes /\
    length urls =
    length (List.filter
              (fun p => negb (Current.Supabase.nhl_player_id p =? 0))
              players) /\
    ~ In Current.NhlApi.directoryUrl urls /\
    sublist writes (map Current.Supabase.id players) /\
    (length writes <= length urls)%nat.
Proof. apply (current_pass_io env players w). Qed.

(** X4: with the network down (every request fails in transport) a pass
    updates nothing and writes nothing: the table is as before, and every
    player has one failure record, in list order.  In the current revision
    the reason is "Missing NHL Player ID (Old manual entry)" for provider
    id 0 and "Could not fetch stats from NHL API" otherwise; in the legacy
    revision it is "Player not found in NHL database" for everybody. *)
Theorem refresh_with_network_down :
  (forall (env : Env Current.NhlApi.Body)
          (players : list Current.Supabase.NHLPlayer)
          (w : World Current.Supabase.NHLPlayer),
     (forall history url, transportFailed (http env history url) = true) ->
     let result := Current.App.handleRefreshStats env players w in
     fst result =
     Current.App.mkSummary 0
       (map (fun p =>
               Current.App.mkFailedPlayer (Current.Supabase.name p)
                 (if Current.Supabase.nhl_player_id p =? 0
                  then "Missing NHL Player ID (Old manual entry)"
                  else "Could not fetch stats from NHL API"))
            players) /\
     table (snd result) = table w /\
     updatedRows (trace (snd result)) = updatedRows (trace w)) /\
  (forall (env : Env Legacy.NhlApi.Body)
          (players : list Legacy.Supabase.NHLPlayer)
          (w : World Legacy.Supabase.NHLPlayer),
     (forall history url, transportFailed (http env history url) = true) ->
     let result := Legacy.App.handleRefreshStats env players w in
     fst result =
     Legacy.App.mkSummary 0
       (map (fun p =>
               Legacy.App.mkFailedPlayer (Legacy.Supabase.name p)
                 "Player not found in NHL database")
            players) /\
     table (snd result) = table w /\
     updatedRows (trace (snd result)) = updatedRows (trace w)).
Proof.
  split.
  - intros env players w Hdown.
    apply (current_offline_loop env Hdown players
             (Current.App.mkSummary 0 []) w).
  - intros env players w Hdown.
    apply (legacy_offline_loop env Hdown players
             (Legacy.App.mkSummary 0 []) w).
Qed.

Lemma refresh_with_network_down_witness :
  Current.App.updatedCount
    (fst (Current.App.handleRefreshStats offline samplePlayers
            (mkWorld samplePlayers None []))) = 0%nat /\
  table (snd (Legacy.App.handleRefreshStats offline [legacySkaterRow]
                (mkWorld [legacySkaterRow] None []))) = [legacySkaterRow].
Proof.
  split.
  - rewrite (proj1 (proj1 refresh_with_network_down offline samplePlayers
                      (mkWorld samplePlayers None [])
                      (fun _ _ => eq_refl))).
    reflexivity.
  - apply (proj1 (proj2 (proj2 refresh_with_network_down offline
                           [legacySkaterRow]
                           (mkWorld [legacySkaterRow] None [])
                           (fun _ _ => eq_refl)))).
Defined.

(** ** The migration and the rows it leaves *)

Lemma setNotNull_backfill (rows : list Migration.MigratingRow) :
  Migration.setNotNull (Migration.backfill rows) =
  Some (map (fun r =>
               Migration.withProviderId (Migration.columns r)
                 (default 0 (Migration.nhl_player_id r)))
            rows).
Proof.
  induction rows as [|r rows IH]; [reflexivity|].
  unfold Migration.backfill in *. cbn [map Migration.setNotNull].
  rewrite IH. destruct r as [cols [n|]]; reflexivity.
Qed.

Lemma migrate_rows (rows : list Legacy.Supabase.NHLPlayer) :
  Migration.migrate rows =
  Some (map (fun r => Migration.withProviderId r 0) rows).
Proof.
  unfold Migration.migrate. rewrite setNotNull_backfill.
  unfold Migration.addColumn. now rewrite map_map.
Qed.

Lemma current_pass_all_skipped (env : Env Current.NhlApi.Body)
  (players : list Current.Supabase.NHLPlayer)
  (s : Current.App.RefreshSummary) (w : World Current.Supabase.NHLPlayer) :
  Forall (fun p => Current.Supabase.nhl_player_id p = 0) players ->
  Current.App.refreshLoop env players s w =
  (Current.App.mkSummary (Current.App.updatedCount s)
     (Current.App.failedPlayers s ++
      map (fun p =>
             Current.App.mkFailedPlayer (Current.Supabase.name p)
               "Missing NHL Player ID (Old manual entry)")
          players),
   w).
Proof.
  intros Hall. revert s. induction Hall as [|player rest Hzero Hall IH];
    intros s.
  - simpl. rewrite app_nil_r. now destruct s.
  - simpl. unfold bind. rewrite current_refreshPlayer_run.
    rewrite (current_outcome_skipped env player w Hzero).
    rewrite IH. simpl. now rewrite <- app_assoc.
Qed.

(** X5: the migration always goes through: after the backfill no row holds
    NULL, so SET NOT NULL is accepted; a row that had a provider id keeps
    it, every other row gets 0, and no other column changes.  Run on the
    legacy table it gives every row provider id 0, and a refresh pass of
    the current revision over such rows sends no request, writes nothing
    and reports "Missing NHL Player ID (Old manual entry)" for each. *)
Theorem migration_backfills_zero_and_refresh_skips :
  (forall rows : list Migration.MigratingRow,
     Migration.setNotNull (Migration.backfill rows) =
     Some (map (fun r =>
                  Migration.withProviderId (Migration.columns r)
                    (default 0 (Migration.nhl_player_id r)))
               rows)) /\
  (forall (rows : list Legacy.Supabase.NHLPlayer)
          (env : Env Current.NhlApi.Body)
          (w : World Current.Supabase.NHLPlayer),
     exists migrated,
       Migration.migrate rows = Some migrated /\
       migrated = map (fun r => Migration.withProviderId r 0) rows /\
       Current.App.handleRefreshStats env migrated w =
       (Current.App.mkSummary 0
          (map (fun r =>
                  Current.App.mkFailedPlayer (Legacy.Supabase.name r)
                    "Missing NHL Player ID (Old manual entry)")
               rows),
        w)).
Proof.
  split; [exact setNotNull_backfill|].
  intros rows env w. eexists. split; [apply migrate_rows|].
  split; [reflexivity|].
  unfold Current.App.handleRefreshStats.
  rewrite current_pass_all_skipped.
  - simpl. now rewrite map_map.
  - apply List.Forall_forall. intros p Hp. apply in_map_iff in Hp.
    now destruct Hp as (r & <- & _).
Qed.

(** ** The shape of a season identifier *)

Lemma string_length_append (a b : string) :
  String.length (a +:+ b) = (String.length a + String.length b)%nat.
Proof. induction a as [|c a IH]; simpl; [reflexivity | now rewrite IH]. Qed.

Lemma four_digit_numeral (n : Z) :
  1000 <= n <= 9999 -> String.length (Js.numberToString n) = 4%nat.
Proof.
  intros Hn.
  assert (Hall : forallb
                   (fun k => String.length
                               (Js.numberToString (1000 + Z.of_nat k))
                             =? 4)%nat
                   (seq 0 (Z.to_nat 9000)) = true)
    by (vm_compute; reflexivity).
  rewrite forallb_forall in Hall.
  specialize (Hall (Z.to_nat (n - 1000))).
  replace (1000 + Z.of_nat (Z.to_nat (n - 1000))) with n in Hall by lia.
  apply Nat.eqb_eq, Hall, in_seq. lia.
Qed.

(** X6: the season does not change at New Year: every date from September
    of year Y to August of year Y+1 resolves to the same identifier; and
    for the four-digit years 1001 to 9998 the identifier has exactly eight
    characters. *)
Theorem season_spans_new_year_and_has_eight_digits :
  (forall (Y m m' t t' : Z),
     8 <= m -> m' < 8 ->
     getCurrentNHLSeason (mkDate Y m t) =
     getCurrentNHLSeason (mkDate (Y + 1) m' t')) /\
  (forall now : Date,
     1001 <= getFullYear now <= 9998 ->
     String.length (getCurrentNHLSeason now) = 8%nat).
Proof.
  split.
  - intros Y m m' t t' Hm Hm'. unfold getCurrentNHLSeason. simpl.
    apply Z.ltb_ge in Hm. apply Z.ltb_lt in Hm'. rewrite Hm, Hm'.
    now replace (Y + 1 - 1) with Y by lia.
  - intros now Hyear. unfold getCurrentNHLSeason.
    destruct (getMonth now <? 8); rewrite string_length_append;
      rewrite !four_digit_numeral by lia; reflexivity.
Qed.

Lemma season_spans_new_year_and_has_eight_digits_witness :
  getCurrentNHLSeason (mkDate 2025 11 0) =
  getCurrentNHLSeason (mkDate 2026 0 86400000) /\
  String.length (getCurrentNHLSeason (mkDate 2025 11 0)) = 8%nat.
Proof.
  split.
  - apply (proj1 season_spans_new_year_and_has_eight_digits 2025 11 0);
      simpl; lia.
  - apply (proj2 season_spans_new_year_and_has_eight_digits
             (mkDate 2025 11 0)).
    simpl. lia.
Defined.

(** ** The directory as a map *)

Section MapFacts.
Context {V : Type}.

Lemma mapSet_keys (k : Z) (v : V) (m : Js.Map V) (k' : Z) :
  In k' (map fst (Js.mapSet k v m)) <-> k' = k \/ In k' (map fst m).
Proof.
  induction m as [|[k0 v0] m IH]; simpl; [intuition congruence|].
  destruct (k0 =? k) eqn:E; simpl.
  - apply Z.eqb_eq in E. subst k0. intuition congruence.
  - rewrite IH. intuition congruence.
Qed.

Lemma mapSet_NoDup (k : Z) (v : V) (m : Js.Map V) :
  List.NoDup (map fst m) -> List.NoDup (map fst (Js.mapSet k v m)).
Proof.
  induction m as [|[k0 v0] m IH]; simpl; intros Hnd.
  - constructor; [tauto | constructor].
  - inversion Hnd as [|? ? Hnotin Hnd']; subst.
    destruct (k0 =? k) eqn:E; simpl.
    + apply Z.eqb_eq in E. subst k0. now constructor.
    + apply Z.eqb_neq in E. constructor; [|now apply IH].
      rewrite mapSet_keys. intros [Heq|Hin]; [congruence | contradiction].
Qed.

Lemma mapSet_In (k : Z) (v : V) (m : Js.Map V) : In (k, v) (Js.mapSet k v m).
Proof.
  induction m as [|[k0 v0] m IH]; simpl; [now left|].
  destruct (k0 =? k); simpl; auto.
Qed.

Lemma mapSet_In_other (k k' : Z) (v v' : V) (m : Js.Map V) :
  k' <> k -> In (k, v) m -> In (k, v) (Js.mapSet k' v' m).
Proof.
  intros Hne. induction m as [|[k0 v0] m IH]; simpl; [tauto|].
  intros [Heq|Hin].
  - injection Heq as -> ->.
    destruct (k =? k') eqn:E; [apply Z.eqb_eq in E; congruence|].
    now left.
  - destruct (k0 =? k'); simpl; auto.
Qed.

Lemma mapSet_values (P : Z -> V -> Prop) (k : Z) (v : V) (m : Js.Map V) :
  P k v -> (forall k0 v0, In (k0, v0) m -> P k0 v0) ->
  forall k0 v0, In (k0, v0) (Js.mapSet k v m) -> P k0 v0.
Proof.
  intros Hkv. induction m as [|[k1 v1] m IH]; simpl; intros Hm k0 v0.
  - intros [[= <- <-]|[]]. exact Hkv.
  - destruct (k1 =? k); simpl.
    + intros [[= <- <-]|Hin]; [exact Hkv | apply Hm; now right].
    + intros [[= <- <-]|Hin]; [apply Hm; now left|].
      apply IH; [|exact Hin]. intros k2 v2 H2. apply Hm. now right.
Qed.

Lemma fold_mapSet_NoDup (entries : list (Z * V)) (m : Js.Map V) :
  List.NoDup (map fst m) ->
  List.NoDup
    (map fst (fold_left (fun m e => Js.mapSet (fst e) (snd e) m) entries m)).
Proof.
  revert m. induction entries as [|e entries IH]; intros m Hnd; [exact Hnd|].
  simpl. apply IH. now apply mapSet_NoDup.
Qed.

Lemma fold_mapSet_values (P : Z -> V -> Prop) (entries : list (Z * V))
  (m : Js.Map V) :
  (forall e, In e entries -> P (fst e) (snd e)) ->
  (forall k0 v0, In (k0, v0) m -> P k0 v0) ->
  forall k0 v0,
    In (k0, v0)
       (fold_left (fun m e => Js.mapSet (fst e) (snd e) m) entries m) ->
    P k0 v0.
Proof.
  revert m. induction entries as [|e entries IH]; intros m He Hm; [exact Hm|].
  simpl. apply IH.
  - intros e' He'. apply He. now right.
  - apply mapSet_values; [apply He; now left | exact Hm].
Qed.

Lemma fold_mapSet_keeps (entries : list (Z * V)) (m : Js.Map V)
  (k : Z) (v : V) :
  (forall e, In e entries -> fst e <> k) ->
  In (k, v) m ->
  In (k, v) (fold_left (fun m e => Js.mapSet (fst e) (snd e) m) entries m).
Proof.
  revert m. induction entries as [|e entries IH]; intros m He Hm; [exact Hm|].
  simpl. apply IH.
  - intros e' He'. apply He. now right.
  - apply mapSet_In_other; [apply He; now left | exact Hm].
Qed.

(** [new Map(entries)] has one entry per key, and for a key the value of
    its last occurrence. *)
Lemma mapOf_NoDup (entries : list (Z * V)) :
  List.NoDup (map fst (Js.mapOf entries)).
Proof. apply fold_mapSet_NoDup. constructor. Qed.

Lemma mapOf_last_wins (before after : list (Z * V)) (k : Z) (v : V) :
  (forall e, In e after -> fst e <> k) ->
  In (k, v) (Js.mapOf (before ++ (k, v) :: after)).
Proof.
  intros Hafter. unfold Js.mapOf. rewrite fold_left_app. simpl.
  apply fold_mapSet_keeps; [exact Hafter | apply mapSet_In].
Qed.

Lemma mapOf_values (P : Z -> V -> Prop) (entries : list (Z * V)) :
  (forall e, In e entries -> P (fst e) (snd e)) ->
  forall k0 v0, In (k0, v0) (Js.mapOf entries) -> P k0 v0.
Proof.
  intros He. apply fold_mapSet_values; [exact He|]. intros k0 v0 [].
Qed.

End MapFacts.

(** A map whose entries carry their key as [entry_id] lists every id
    once. *)
Lemma keyed_directory_ids (directory : Js.Map DirectoryEntry) :
  List.NoDup (map fst directory) ->
  (forall k e, In (k, e) directory -> entry_id e = k) ->
  List.NoDup (map entry_id (Js.mapValues directory)).
Proof.
  intros Hnd Hkey. unfold Js.mapValues. rewrite map_map.
  erewrite map_ext_in; [exact Hnd|].
  intros [k e] Hin. simpl. now apply Hkey.
Qed.

Lemma NoDup_map_filter {A B : Type} (f : A -> B) (p : A -> bool)
  (l : list A) :
  List.NoDup (map f l) -> List.NoDup (map f (List.filter p l)).
Proof.
  induction l as [|x l IH]; simpl; intros Hnd; [constructor|].
  inversion Hnd as [|? ? Hnotin Hnd']; subst.
  destruct (p x); simpl; [|now apply IH].
  constructor; [|now apply IH].
  intros Hin. apply Hnotin. apply in_map_iff in Hin as (y & Hy & Hin).
  apply filter_In in Hin as [Hin _]. apply in_map_iff. eauto.
Qed.

Lemma current_directoryOf_keyed (data : list Current.NhlApi.SearchHit) :
  List.NoDup (map fst (Current.NhlApi.directoryOf data)) /\
  forall k e, In (k, e) (Current.NhlApi.directoryOf data) -> entry_id e = k.
Proof.
  split; [apply mapOf_NoDup|].
  apply (mapOf_values (fun k e => entry_id e = k)).
  intros e He. apply in_map_iff in He as (hit & <- & _). reflexivity.
Qed.

Lemma legacy_directoryOf_keyed (roster : list Legacy.NhlApi.Person) :
  List.NoDup (map fst (Legacy.NhlApi.directoryOf roster)) /\
  forall k e, In (k, e) (Legacy.NhlApi.directoryOf roster) -> entry_id e = k.
Proof.
  split; [apply mapOf_NoDup|].
  apply (mapOf_values (fun k e => entry_id e = k)).
  intros e He. apply in_map_iff in He as (person & <- & _). reflexivity.
Qed.

Lemma current_matching_ids (searchLower : string)
  (directory : Js.Map DirectoryEntry) :
  List.NoDup (map entry_id (Js.mapValues directory)) ->
  List.NoDup (map Current.NhlApi.id
                (Current.NhlApi.matching searchLower directory)).
Proof.
  intros Hnd. unfold Current.NhlApi.matching. rewrite map_map. simpl.
  now apply NoDup_map_filter.
Qed.

Lemma legacy_matching_ids (searchLower : string)
  (directory : Js.Map DirectoryEntry) :
  List.NoDup (map entry_id (Js.mapValues directory)) ->
  List.NoDup (map Legacy.NhlApi.id
                (Legacy.NhlApi.matching searchLower directory)).
Proof.
  intros Hnd. unfold Legacy.NhlApi.matching. rewrite map_map. simpl.
  now apply NoDup_map_filter.
Qed.

(** X7: the directory built from a provider answer lists every provider id
    once, whatever the answer repeats, and keeps for an id the name of its
    last occurrence in the answer; a search over it never returns the same
    provider id twice.  Current revision first, then the legacy one. *)
Theorem directory_lists_each_id_once :
  (forall data : list Current.NhlApi.SearchHit,
     let directory := Current.NhlApi.directoryOf data in
     NoDup (map entry_id (Js.mapValues directory)) /\
     (forall before hit after,
        data = before ++ hit :: after ->
        (forall h, In h after ->
                   Current.NhlApi.hit_playerId h <>
                   Current.NhlApi.hit_playerId hit) ->
        In (mkEntry (Current.NhlApi.hit_playerId hit)
                    (Current.NhlApi.hit_fullName hit))
           (Js.mapValues directory)) /\
     (forall (R : Type) (env : Env Current.NhlApi.Body)
             (localeCompare : string -> string -> Z) (query : string)
             (w : World R),
        cachedPlayers w = Some directory ->
        NoDup (map Current.NhlApi.id
                 (fst (Current.NhlApi.searchNHLPlayers env localeCompare
                         query w))))) /\
  (forall roster : list Legacy.NhlApi.Person,
     let directory := Legacy.NhlApi.directoryOf roster in
     NoDup (map entry_id (Js.mapValues directory)) /\
     (forall before person after,
        roster = before ++ person :: after ->
        (forall p, In p after ->
                   Legacy.NhlApi.person_id p <>
                   Legacy.NhlApi.person_id person) ->
        In (mkEntry (Legacy.NhlApi.person_id person)
                    (Legacy.NhlApi.person_fullName person))
           (Js.mapValues directory)) /\
     (forall (R : Type) (env : Env Legacy.NhlApi.Body) (query : string)
             (w : World R),
        cachedPlayers w = Some directory ->
        NoDup (map Legacy.NhlApi.id
                 (fst (Legacy.NhlApi.searchNHLPlayers env query w))))).
Proof.
  split.
  - intros data directory.
    destruct (current_directoryOf_keyed data) as [Hkeys Hkeyed].
    pose proof (keyed_directory_ids _ Hkeys Hkeyed) as Hids. fold directory in Hids.
    split; [now apply NoDup_ListNoDup|]. split.
    + intros before hit after -> Hafter.
      unfold Js.mapValues. apply in_map_iff.
      exists (Current.NhlApi.hit_playerId hit,
              mkEntry (Current.NhlApi.hit_playerId hit)
                      (Current.NhlApi.hit_fullName hit)).
      split; [reflexivity|].
      subst directory. unfold Current.NhlApi.directoryOf.
      rewrite map_app. simpl. apply mapOf_last_wins.
      intros e He. apply in_map_iff in He as (h & <- & Hh). simpl.
      now apply Hafter.
    + intros R env localeCompare query w Hc.
      rewrite (current_search_cached env localeCompare query w directory Hc).
      apply NoDup_ListNoDup.
      eapply Permutation_NoDup;
        [apply Permutation_map; symmetry; apply sort_Permutation|].
      now apply current_matching_ids.
  - intros roster directory.
    destruct (legacy_directoryOf_keyed roster) as [Hkeys Hkeyed].
    pose proof (keyed_directory_ids _ Hkeys Hkeyed) as Hids. fold directory in Hids.
    split; [now apply NoDup_ListNoDup|]. split.
    + intros before person after -> Hafter.
      unfold Js.mapValues. apply in_map_iff.
      exists (Legacy.NhlApi.person_id person,
              mkEntry (Legacy.NhlApi.person_id person)
                      (Legacy.NhlApi.person_fullName person)).
      split; [reflexivity|].
      subst directory. unfold Legacy.NhlApi.directoryOf.
      rewrite map_app. simpl. apply mapOf_last_wins.
      intros e He. apply in_map_iff in He as (p & <- & Hp). simpl.
      now apply Hafter.
    + intros R env query w Hc.
      rewrite (legacy_search_cached env query w directory Hc).
      apply NoDup_ListNoDup.
      eapply Permutation_NoDup;
        [apply Permutation_map; symmetry; apply sort_Permutation|].
      now apply legacy_matching_ids.
Qed.

Lemma directory_lists_each_id_once_witness :
  In (mkEntry 8478402 "Connor McDavid")
     (Js.mapValues
        (Current.NhlApi.directoryOf
           [Current.NhlApi.mkSearchHit 8478402 "C. McDavid";
            Current.NhlApi.mkSearchHit 8475913 "Mark Stone";
            Current.NhlApi.mkSearchHit 8478402 "Connor McDavid"])) /\
  NoDup (map Legacy.NhlApi.id
           (fst (Legacy.NhlApi.searchNHLPlayers offline "mc"
                   (mkWorld (R:=unit) []
                      (Some (Legacy.NhlApi.directoryOf
                               [legacySkater; legacyRookie; legacySkater]))
                      [])))).
Proof.
  split.
  - apply (proj1 (proj2 (proj1 directory_lists_each_id_once _))
             [Current.NhlApi.mkSearchHit 8478402 "C. McDavid";
              Current.NhlApi.mkSearchHit 8475913 "Mark Stone"]
             (Current.NhlApi.mkSearchHit 8478402 "Connor McDavid") []
             eq_refl).
    intros h [].
  - apply (proj2 (proj2 (proj2 directory_lists_each_id_once
                           [legacySkater; legacyRookie; legacySkater]))
             unit offline "mc"
             (mkWorld []
                (Some (Legacy.NhlApi.directoryOf
                         [legacySkater; legacyRookie; legacySkater])) [])
             eq_refl).
Defined.

(** ** Queries of blanks and short queries *)

Lemma includes_empty (s : string) : Js.includes s "" = true.
Proof. now destruct s. Qed.

Lemma filter_all {A : Type} (p : A -> bool) (l : list A) :
  (forall x, p x = true) -> List.filter p l = l.
Proof.
  intros Hp. induction l as [|x l IH]; simpl; [reflexivity|].
  now rewrite Hp, IH.
Qed.

(** X8: the search form does not search for a query of fewer than two
    characters: it shows no result and sends no request.  But a query of
    blanks only, two or more, passes that test, is trimmed to the empty
    string, and then matches every name: the result is the whole cached
    directory.  The same holds for a blank query given to the legacy
    search. *)
Theorem blank_query_returns_whole_directory :
  (forall (R : Type) (env : Env Current.NhlApi.Body)
          (localeCompare : string -> string -> Z) (w : World R)
          (query : string),
     (String.length query < 2)%nat ->
     Current.AddPlayerForm.performSearch env localeCompare query w = ([], w))
  /\
  (forall (R : Type) (env : Env Current.NhlApi.Body)
          (localeCompare : string -> string -> Z) (w : World R)
          (directory : Js.Map DirectoryEntry) (query : string),
     cachedPlayers w = Some directory ->
     Js.trim (Js.toLowerCase query) = "" ->
     (2 <= String.length query)%nat ->
     Permutation
       (fst (Current.AddPlayerForm.performSearch env localeCompare query w))
       (map (fun e =>
               Current.NhlApi.mkNHLApiPlayer (entry_id e) (entry_fullName e))
            (Js.mapValues directory))) /\
  (forall (R : Type) (env : Env Legacy.NhlApi.Body) (w : World R)
          (directory : Js.Map DirectoryEntry) (query : string),
     cachedPlayers w = Some directory ->
     Js.trim (Js.toLowerCase query) = "" ->
     Permutation
       (fst (Legacy.NhlApi.searchNHLPlayers env query w))
       (map (fun e =>
               Legacy.NhlApi.mkNHLApiPlayer (entry_id e) (entry_fullName e))
            (Js.mapValues directory))).
Proof.
  split; [|split].
  - intros R env localeCompare w query Hshort.
    unfold Current.AddPlayerForm.performSearch.
    destruct (2 <=? String.length query)%nat eqn:E; [|reflexivity].
    apply Nat.leb_le in E. lia.
  - intros R env localeCompare w directory query Hc Hblank Hlong.
    unfold Current.AddPlayerForm.performSearch.
    apply Nat.leb_le in Hlong. rewrite Hlong.
    rewrite (current_search_cached env localeCompare query w directory Hc).
    rewrite Hblank, sort_Permutation.
    unfold Current.NhlApi.matching.
    rewrite filter_all; [reflexivity|]. intros e. apply includes_empty.
  - intros R env w directory query Hc Hblank.
    rewrite (legacy_search_cached env query w directory Hc).
    rewrite Hblank, sort_Permutation.
    unfold Legacy.NhlApi.matching.
    rewrite filter_all; [reflexivity|]. intros e. apply includes_empty.
Qed.

Lemma blank_query_returns_whole_directory_witness :
  Current.AddPlayerForm.performSearch offline Js.codeUnitCompare "m"
    (emptyWorld (R:=unit)) = ([], emptyWorld) /\
  length (fst (Current.AddPlayerForm.performSearch offline
                 Js.codeUnitCompare "  "
                 (mkWorld (R:=unit) [] (Some sampleDirectory) []))) = 3%nat.
Proof.
  split.
  - apply (proj1 blank_query_returns_whole_directory). simpl. lia.
  - rewrite (Permutation_length
               (proj1 (proj2 blank_query_returns_whole_directory)
                  unit offline Js.codeUnitCompare
                  (mkWorld [] (Some sampleDirectory) []) sampleDirectory
                  "  " eq_refl eq_refl ltac:(simpl; lia))).
    reflexivity.
Defined.

(** ** The legacy fetcher called by name *)

Lemma includes_refl (s : string) : Js.includes s s = true.
Proof.
  destruct s as [|c s]; [reflexivity|].
  change (String.prefix (String c s) (String c s)
          || Js.includes s (String c s) = true).
  now rewrite prefix_refl.
Qed.

Lemma filter_none {A : Type} (p : A -> bool) (l : list A) :
  (forall x, In x l -> p x = false) -> List.filter p l = [].
Proof.
  induction l as [|x l IH]; simpl; intros Hp; [reflexivity|].
  rewrite (Hp x) by now left. apply IH. intros y Hy. apply Hp. now right.
Qed.

Lemma sort_head_first {A : Type} (cmp : A -> A -> Z) (l : list A)
  (first : A) (others : list A) :
  (forall a b, Js.inOrder cmp a b \/ Js.inOrder cmp b a) ->
  (forall a b c,
     Js.inOrder cmp a b -> Js.inOrder cmp b c -> Js.inOrder cmp a c) ->
  Js.sort cmp l = first :: others ->
  forall x, In x l -> Js.inOrder cmp first x.
Proof.
  intros Htotal Htrans Hsort x Hx.
  pose proof (sort_sorted cmp Htotal Htrans l) as Hsorted.
  rewrite Hsort in Hsorted. apply StronglySorted_cons in Hsorted as [Hall _].
  apply (Permutation_in _ (Permutation_sym (sort_Permutation cmp l))) in Hx.
  rewrite Hsort in Hx. destruct Hx as [<-|Hx].
  - destruct (Htotal first first); assumption.
  - rewrite List.Forall_forall in Hall. now apply Hall.
Qed.

Lemma legacy_search_cached_run {R : Type} (env : Env Legacy.NhlApi.Body)
  (query : string) (w : World R) (directory : Js.Map DirectoryEntry) :
  cachedPlayers w = Some directory ->
  Legacy.NhlApi.searchNHLPlayers env query w =
  (Js.sort
     (Legacy.NhlApi.compareResults (Js.trim (Js.toLowerCase query)))
     (Legacy.NhlApi.matching (Js.trim (Js.toLowerCase query)) directory),
   w).
Proof.
  intros Hc.
  rewrite (surjective_pairing (Legacy.NhlApi.searchNHLPlayers env query w)).
  rewrite (legacy_search_cached env query w directory Hc).
  rewrite legacy_search_world, (legacy_load_cached env w directory Hc).
  reflexivity.
Qed.

(** X10: called by name with the directory cached, the legacy fetcher
    returns null without any request when no name of the directory
    contains the lowercased, trimmed name; and when the directory has a
    player whose lowercased name is that string, the fetch goes to the id
    of such a player (the exact matches rank first), as if called with
    that id. *)
Theorem legacy_fetch_by_name_resolves_exact_match
  (R : Type) (env : Env Legacy.NhlApi.Body) (w : World R)
  (directory : Js.Map DirectoryEntry) (playerName : string) :
  let searchLower := Js.trim (Js.toLowerCase playerName) in
  let byName :=
    Legacy.NhlApi.getNHLPlayerStats env (Legacy.NhlApi.ByName playerName) w in
  cachedPlayers w = Some directory ->
  ((forall e, In e (Js.mapValues directory) ->
              Js.includes (Js.toLowerCase (entry_fullName e)) searchLower
              = false) ->
   byName = (None, w)) /\
  (forall e,
     In e (Js.mapValues directory) ->
     Js.toLowerCase (entry_fullName e) = searchLower ->
     exists e',
       In e' (Js.mapValues directory) /\
       Js.toLowerCase (entry_fullName e') = searchLower /\
       byName =
       Legacy.NhlApi.getNHLPlayerStats env
         (Legacy.NhlApi.ById (entry_id e')) w).
Proof.
  intros searchLower byName Hc. subst byName.
  rewrite legacy_getNHLPlayerStats_byName.
  rewrite (legacy_search_cached_run env playerName w directory Hc).
  fold searchLower. split.
  - intros Hnone. unfold Legacy.NhlApi.matching.
    rewrite filter_none by exact Hnone. reflexivity.
  - intros e He Hexact.
    set (cmp := Legacy.NhlApi.compareResults searchLower).
    set (a := Legacy.NhlApi.mkNHLApiPlayer (entry_id e) (entry_fullName e)).
    assert (Ha : In a (Legacy.NhlApi.matching searchLower directory)).
    { apply legacy_matching_In. exists e. split; [exact He|].
      split; [|reflexivity]. rewrite Hexact. apply includes_refl. }
    assert (Htier : Legacy.NhlApi.tier searchLower a = 0%nat).
    { unfold Legacy.NhlApi.tier, Js.strictEq. simpl.
      now rewrite bool_decide_eq_true_2. }
    destruct (Js.sort cmp (Legacy.NhlApi.matching searchLower directory))
      as [|first others] eqn:Hsort.
    { apply (Permutation_in a
               (Permutation_sym
                  (sort_Permutation cmp
                     (Legacy.NhlApi.matching searchLower directory))))
        in Ha.
      rewrite Hsort in Ha. destruct Ha. }
    assert (Hfirst : Js.inOrder cmp first a).
    { apply (sort_head_first cmp
               (Legacy.NhlApi.matching searchLower directory) first others);
        [| |exact Hsort|exact Ha].
      - intros x y. subst cmp. rewrite !legacy_compare_inOrder. lia.
      - intros x y z. subst cmp. rewrite !legacy_compare_inOrder. lia. }
    subst cmp. rewrite legacy_compare_inOrder, Htier in Hfirst.
    assert (Hin : In first (Legacy.NhlApi.matching searchLower directory)).
    { apply (Permutation_in first
               (sort_Permutation
                  (Legacy.NhlApi.compareResults searchLower)
                  (Legacy.NhlApi.matching searchLower directory))).
      rewrite Hsort. now left. }
    apply legacy_matching_In in Hin as (e' & He' & _ & ->).
    exists e'. split; [exact He'|]. split; [|reflexivity].
    unfold Legacy.NhlApi.tier, Js.strictEq in Hfirst. simpl in Hfirst.
    case_bool_decide as Heq; [exact Heq|].
    destruct (Js.startsWith _ _); lia.
Qed.

Lemma legacy_fetch_by_name_resolves_exact_match_witness :
  Legacy.NhlApi.getNHLPlayerStats offline (Legacy.NhlApi.ByName "Gretzky")
    (mkWorld (R:=unit) [] (Some sampleDirectory) []) =
  (None, mkWorld [] (Some sampleDirectory) []) /\
  exists e',
    In e' (Js.mapValues sampleDirectory) /\
    Js.toLowerCase (entry_fullName e') = "mark stone" /\
    Legacy.NhlApi.getNHLPlayerStats offline
      (Legacy.NhlApi.ByName " MARK STONE ")
      (mkWorld (R:=unit) [] (Some sampleDirectory) []) =
    Legacy.NhlApi.getNHLPlayerStats offline
      (Legacy.NhlApi.ById (entry_id e'))
      (mkWorld [] (Some sampleDirectory) []).
Proof.
  split.
  - apply (proj1 (legacy_fetch_by_name_resolves_exact_match unit offline
                    (mkWorld [] (Some sampleDirectory) []) sampleDirectory
                    "Gretzky" eq_refl)).
    intros e He. simpl in He.
    destruct He as [<-|[<-|[<-|[]]]]; reflexivity.
  - apply (proj2 (legacy_fetch_by_name_resolves_exact_match unit offline
                    (mkWorld [] (Some sampleDirectory) []) sampleDirectory
                    " MARK STONE " eq_refl)
             (mkEntry 8475913 "Mark Stone")).
    + simpl. auto.
    + reflexivity.
Defined.

(** ** Saving a row *)

(** X11: saving a row sends one write for the row's [id].  In the current
    revision a write that succeeds changes, in the rows of that [id],
    [shots_threshold] to the chosen value and [updated_at] to the clock
    reading, and nothing else; in the legacy revision it sets the name and
    the five figures to the edited values and [updated_at] to the clock
    reading, and keeps [id] and [created_at].  Rows of other ids are as
    before, and a write that fails changes no row. *)
Theorem saving_a_row_writes_the_edited_fields :
  (forall (env : Env Current.NhlApi.Body)
          (w : World Current.Supabase.NHLPlayer)
          (player : Current.Supabase.NHLPlayer) (shotsThreshold : Q),
     let now := getTime (clock env (trace w)) in
     let result :=
       Current.PlayerRow.handleSave env player shotsThreshold w in
     (storage env (trace w ++ [EvNow]) = StoreOk ->
      forall j row,
        table w !! j = Some row ->
        table (snd result) !! j =
        Some (if bool_decide (Current.Supabase.id row =
                              Current.Supabase.id player)
              then Current.Supabase.mkNHLPlayer
                     (Current.Supabase.id row)
                     (Current.Supabase.nhl_player_id row)
                     (Current.Supabase.name row)
                     (Current.Supabase.points_games row)
                     (Current.Supabase.points_total_games row)
                     shotsThreshold
                     (Current.Supabase.shots_games row)
                     (Current.Supabase.shots_total_games row)
                     (Current.Supabase.created_at row) now
              else row)) /\
     (storage env (trace w ++ [EvNow]) <> StoreOk ->
      table (snd result) = table w) /\
     updatedRows (trace (snd result)) =
     updatedRows (trace w) ++ [Current.Supabase.id player]) /\
  (forall (env : Env Legacy.NhlApi.Body)
          (w : World Legacy.Supabase.NHLPlayer)
          (player editedPlayer : Legacy.Supabase.NHLPlayer),
     let now := getTime (clock env (trace w)) in
     let result :=
       Legacy.PlayerRow.handleSave env player editedPlayer w in
     (storage env (trace w ++ [EvNow]) = StoreOk ->
      forall j row,
        table w !! j = Some row ->
        table (snd result) !! j =
        Some (if bool_decide (Legacy.Supabase.id row =
                              Legacy.Supabase.id player)
              then Legacy.Supabase.mkNHLPlayer
                     (Legacy.Supabase.id row)
                     (Legacy.Supabase.name editedPlayer)
                     (Legacy.Supabase.points_games editedPlayer)
                     (Legacy.Supabase.points_total_games editedPlayer)
                     (Legacy.Supabase.shots_threshold editedPlayer)
                     (Legacy.Supabase.shots_games editedPlayer)
                     (Legacy.Supabase.shots_total_games editedPlayer)
                     (Legacy.Supabase.created_at row) now
              else row)) /\
     (storage env (trace w ++ [EvNow]) <> StoreOk ->
      table (snd result) = table w) /\
     updatedRows (trace (snd result)) =
     updatedRows (trace w) ++ [Legacy.Supabase.id player]).
Proof.
  split.
  - intros env w player shotsThreshold now result. subst result.
    unfold Current.PlayerRow.handleSave.
    rewrite current_handleUpdatePlayer_run. fold now. simpl.
    repeat split.
    + intros Hok j row Hrow. rewrite Hok.
      rewrite list_lookup_fmap, Hrow. simpl.
      now case_bool_decide.
    + intros Hfail.
      destruct (storage env (trace w ++ [EvNow])); [contradiction| |];
        reflexivity.
    + unfold updatedRows. now rewrite omap_app.
  - intros env w player editedPlayer now result. subst result.
    unfold Legacy.PlayerRow.handleSave.
    rewrite legacy_handleUpdatePlayer_run. fold now. simpl.
    repeat split.
    + intros Hok j row Hrow. rewrite Hok.
      rewrite list_lookup_fmap, Hrow. simpl.
      now case_bool_decide.
    + intros Hfail.
      destruct (storage env (trace w ++ [EvNow])); [contradiction| |];
        reflexivity.
    + unfold updatedRows. now rewrite omap_app.
Qed.

Lemma saving_a_row_writes_the_edited_fields_witness :
  table (snd (Current.PlayerRow.handleSave offline sampleRow (5 # 2)
                (mkWorld samplePlayers None []))) !! 2%nat =
  Some (Current.Supabase.mkNHLPlayer "row-1" 8478402 "Connor McDavid"
          15 10 (5 # 2) 40 10 1762041605000 1762041600000) /\
  table (snd (Current.PlayerRow.handleSave offline sampleRow (5 # 2)
                (mkWorld samplePlayers None []))) !! 1%nat = Some idleRow.
Proof.
  split.
  - apply (proj1 (proj1 saving_a_row_writes_the_edited_fields offline
                    (mkWorld samplePlayers None []) sampleRow (5 # 2))
             eq_refl 2%nat sampleRow eq_refl).
  - apply (proj1 (proj1 saving_a_row_writes_the_edited_fields offline
                    (mkWorld samplePlayers None []) sampleRow (5 # 2))
             eq_refl 1%nat idleRow eq_refl).
Defined.

(** ** The figures of a snapshot and of a draft *)

Lemma current_statsOfData_no_split (playerId : Z)
  (data : Current.NhlApi.Body) :
  (forall d g gs s ss,
     data = Current.NhlApi.ObjectBody d ->
     Current.NhlApi.data_stats d = Some (g :: gs) ->
     Current.NhlApi.group_splits g = Some (s :: ss) -> False) ->
  Current.NhlApi.statsOfData playerId data =
  Some (Current.NhlApi.mkPlayerStatsResult playerId "Unknown Player" 0 0 0).
Proof.
  intros Habsent. destruct data as [hits|d]; [reflexivity|].
  unfold Current.NhlApi.statsOfData.
  destruct (Current.NhlApi.data_stats d) as [[|g gs]|] eqn:Hs;
    try reflexivity.
  destruct (Current.NhlApi.group_splits g) as [[|s ss]|] eqn:Hg;
    try reflexivity.
  exfalso. exact (Habsent d g gs s ss eq_refl Hs Hg).
Qed.

(** X15: when the answer of the current provider holds a first split with
    statistics, the snapshot has the games of that split as totalGames, its
    shots as shots, and goals plus assists as pointsGames, a number that is
    absent counting as 0, under the name of the first [people] entry; when
    the answer holds such a split but no [people] entry, the fetcher
    returns null although the statistics are there. *)
Theorem current_snapshot_is_goals_plus_assists
  (R : Type) (env : Env Current.NhlApi.Body) (w : World R) (playerId : Z)
  (d : Current.NhlApi.StatsObject)
  (g : Current.NhlApi.StatsGroup) (gs : list Current.NhlApi.StatsGroup)
  (s : Current.NhlApi.Split) (ss : list Current.NhlApi.Split)
  (st : Current.NhlApi.SeasonStat) :
  let url :=
    Current.NhlApi.statsUrl playerId
      (getCurrentNHLSeason (clock env (trace w))) in
  let result := fst (Current.NhlApi.getNHLPlayerStats env playerId w) in
  http env (trace w ++ [EvNow]) url =
  Response true (Some (Current.NhlApi.ObjectBody d)) ->
  Current.NhlApi.data_stats d = Some (g :: gs) ->
  Current.NhlApi.group_splits g = Some (s :: ss) ->
  Current.NhlApi.split_stat s = Some st ->
  (forall person others,
     Current.NhlApi.data_people d = Some (person :: others) ->
     result =
     Some (Current.NhlApi.mkPlayerStatsResult playerId
             (Current.NhlApi.person_fullName person)
             (Js.orZero (Current.NhlApi.stat_goals st) +
              Js.orZero (Current.NhlApi.stat_assists st))
             (Js.orZero (Current.NhlApi.stat_games st))
             (Js.orZero (Current.NhlApi.stat_shots st)))) /\
  (Current.NhlApi.data_people d = None \/
   Current.NhlApi.data_people d = Some [] ->
   result = None).
Proof.
  intros url result Hanswer Hstats Hsplits Hstat. subst result.
  rewrite current_getNHLPlayerStats_run. fold url. rewrite Hanswer. simpl.
  rewrite Hstats, Hsplits, Hstat. split.
  - intros person others ->. reflexivity.
  - intros [->| ->]; reflexivity.
Qed.

Lemma current_snapshot_is_goals_plus_assists_witness :
  fst (Current.NhlApi.getNHLPlayerStats sampleProvider 8478402
         (emptyWorld (R:=unit))) =
  Some (Current.NhlApi.mkPlayerStatsResult 8478402 "Connor McDavid"
          15 10 40) /\
  fst (Current.NhlApi.getNHLPlayerStats (answering anonymousStats)
         8478402 (emptyWorld (R:=unit))) = None.
Proof.
  split.
  - apply (proj1 (current_snapshot_is_goals_plus_assists unit sampleProvider
                    emptyWorld 8478402 _ _ _ _ _ _
                    eq_refl eq_refl eq_refl eq_refl)
             (Current.NhlApi.mkPerson "Connor McDavid") []).
    reflexivity.
  - apply (proj2 (current_snapshot_is_goals_plus_assists unit
                    (answering anonymousStats)
                    emptyWorld 8478402 _ _ _ _ _ _
                    eq_refl eq_refl eq_refl eq_refl)).
    now left.
Defined.

(** X12: selecting a search result fills the draft with the id and name of
    the result and keeps the threshold of the draft; the four figures come
    from the fetch alone, never from the draft as it was, and the two
    denominators are equal.  The figures are all 0 both when the fetch
    fails in transport and when the answer holds no statistics block.  The
    table and the directory cache are not touched. *)
Theorem selecting_a_player_fills_the_draft
  (R : Type) (env : Env Current.NhlApi.Body) (w : World R)
  (player : Current.NhlApi.NHLApiPlayer)
  (prev : Current.AddPlayerForm.NewPlayer) :
  let url :=
    Current.NhlApi.statsUrl (Current.NhlApi.id player)
      (getCurrentNHLSeason (clock env (trace w))) in
  let answer := http env (trace w ++ [EvNow]) url in
  let result := Current.AddPlayerForm.handleSelectPlayer env player prev w in
  let draft := fst result in
  let figures := fun d =>
    (Current.AddPlayerForm.points_games d,
     Current.AddPlayerForm.points_total_games d,
     Current.AddPlayerForm.shots_games d,
     Current.AddPlayerForm.shots_total_games d) in
  Current.AddPlayerForm.nhl_player_id draft = Current.NhlApi.id player /\
  Current.AddPlayerForm.name draft = Current.NhlApi.name player /\
  Current.AddPlayerForm.shots_threshold draft =
  Current.AddPlayerForm.shots_threshold prev /\
  Current.AddPlayerForm.points_total_games draft =
  Current.AddPlayerForm.shots_total_games draft /\
  (forall prev',
     figures (fst (Current.AddPlayerForm.handleSelectPlayer env player
                     prev' w)) = figures draft) /\
  (transportFailed answer = true -> figures draft = (0, 0, 0, 0)) /\
  (forall data,
     answer = Response true (Some data) ->
     (forall d g gs s ss,
        data = Current.NhlApi.ObjectBody d ->
        Current.NhlApi.data_stats d = Some (g :: gs) ->
        Current.NhlApi.group_splits g = Some (s :: ss) -> False) ->
     figures draft = (0, 0, 0, 0)) /\
  table (snd result) = table w /\
  cachedPlayers (snd result) = cachedPlayers w.
Proof.
  intros url answer result draft figures. subst draft result figures.
  unfold Current.AddPlayerForm.handleSelectPlayer, bind.
  rewrite current_getNHLPlayerStats_run. fold url answer.
  repeat split.
  - now destruct (match answer with Response true (Some data) => _ | _ => _ end).
  - now destruct (match answer with Response true (Some data) => _ | _ => _ end).
  - now destruct (match answer with Response true (Some data) => _ | _ => _ end).
  - now destruct (match answer with Response true (Some data) => _ | _ => _ end).
  - intros prev'.
    now destruct (match answer with Response true (Some data) => _ | _ => _ end).
  - intros Hfail. destruct answer as [|[] [data|]]; try reflexivity.
    discriminate.
  - intros data -> Habsent.
    now rewrite (current_statsOfData_no_split _ data Habsent).
  - now destruct (match answer with Response true (Some data) => _ | _ => _ end).
  - now destruct (match answer with Response true (Some data) => _ | _ => _ end).
Qed.

Lemma selecting_a_player_fills_the_draft_witness :
  let draft :=
    fst (Current.AddPlayerForm.handleSelectPlayer offline
           (Current.NhlApi.mkNHLApiPlayer 8478402 "Connor McDavid")
           (Current.AddPlayerForm.mkNewPlayer 8475913 "Mark Stone"
              7 9 (5 # 2) 21 9)
           (emptyWorld (R:=unit))) in
  (Current.AddPlayerForm.points_games draft,
   Current.AddPlayerForm.points_total_games draft,
   Current.AddPlayerForm.shots_games draft,
   Current.AddPlayerForm.shots_total_games draft) = (0, 0, 0, 0).
Proof.
  apply (proj1 (proj2 (proj2 (proj2 (proj2 (proj2
           (selecting_a_player_fills_the_draft unit offline emptyWorld
              (Current.NhlApi.mkNHLApiPlayer 8478402 "Connor McDavid")
              (Current.AddPlayerForm.mkNewPlayer 8475913 "Mark Stone"
                 7 9 (5 # 2) 21 9)))))))).
  reflexivity.
Defined.

(** ** The displayed order *)

Lemma guarded_ratio_Finite (a b : Z) :
  (if b >? 0 then Js.div a b else Js.Finite 0) =
  Js.Finite (Js.finiteValue (if b >? 0 then Js.div a b else Js.Finite 0)).
Proof.
  pose proof (guarded_ratio_finite a b) as H.
  now destruct (if b >? 0 then Js.div a b else Js.Finite 0).
Qed.

Lemma difference_sign (qa qb : Q) :
  Js.comparatorSign (Js.sub (Js.Finite qb) (Js.Finite qa)) <= 0 <->
  (qb <= qa)%Q.
Proof.
  destruct qa as [na da], qb as [nb db]. simpl.
  rewrite Z.sgn_nonpos. unfold Qle. simpl. lia.
Qed.

Lemma current_points_inOrder (localeCompare : string -> string -> Z)
  (a b : Current.Supabase.NHLPlayer) :
  Js.inOrder (Current.App.compareRows localeCompare Current.App.SortByPoints)
             a b <->
  (Js.finiteValue (Current.PlayerRow.pointsAverage b) <=
   Js.finiteValue (Current.PlayerRow.pointsAverage a))%Q.
Proof.
  unfold Js.inOrder, Current.App.compareRows, Current.PlayerRow.pointsAverage.
  rewrite (guarded_ratio_Finite (Current.Supabase.points_games a)),
    (guarded_ratio_Finite (Current.Supabase.points_games b)).
  apply difference_sign.
Qed.

Lemma current_shots_inOrder (localeCompare : string -> string -> Z)
  (a b : Current.Supabase.NHLPlayer) :
  Js.inOrder (Current.App.compareRows localeCompare Current.App.SortByShots)
             a b <->
  (Js.finiteValue (Current.PlayerRow.shotsPerGame b) <=
   Js.finiteValue (Current.PlayerRow.shotsPerGame a))%Q.
Proof.
  unfold Js.inOrder, Current.App.compareRows, Current.PlayerRow.shotsPerGame.
  rewrite (guarded_ratio_Finite (Current.Supabase.shots_games a)),
    (guarded_ratio_Finite (Current.Supabase.shots_games b)).
  apply difference_sign.
Qed.

Lemma Qle_total (x y : Q) : (x <= y)%Q \/ (y <= x)%Q.
Proof.
  destruct (Qlt_le_dec x y) as [H|H]; [left; now apply Qlt_le_weak | now right].
Qed.

Lemma sorted_by_key_descending {A : Type} (cmp : A -> A -> Z) (key : A -> Q)
  (l : list A) (i j : nat) (a b : A) :
  (forall x y, Js.inOrder cmp x y <-> (key y <= key x)%Q) ->
  (i < j)%nat ->
  Js.sort cmp l !! i = Some a -> Js.sort cmp l !! j = Some b ->
  (key b <= key a)%Q.
Proof.
  intros Hkey Hij Hi Hj. apply Hkey.
  apply (StronglySorted_lookup (Js.inOrder cmp) (Js.sort cmp l) i j a b);
    try assumption.
  apply sort_sorted.
  - intros x y. rewrite !Hkey. apply Qle_total.
  - intros x y z. rewrite !Hkey. intros Hxy Hyz.
    now apply (Qle_trans _ (key y)).
Qed.

(** X13: whatever the key, the displayed list holds the same rows as
    [players], none dropped and none twice.  With the key 'name' it is in
    [localeCompare] order of the names (for a collation that is a total
    preorder) and rows of names that compare equal keep the order they had.
    Current revision first, then the legacy one. *)
Theorem sortedPlayers_is_a_reordering :
  (forall (localeCompare : string -> string -> Z)
          (sortBy : Current.App.SortBy)
          (players : list Current.Supabase.NHLPlayer),
     Permutation (Current.App.sortedPlayers localeCompare sortBy players)
                 players) /\
  (forall (localeCompare : string -> string -> Z)
          (players : list Current.Supabase.NHLPlayer),
     (forall a b, localeCompare a b <= 0 \/ localeCompare b a <= 0) ->
     (forall a b c,
        localeCompare a b <= 0 -> localeCompare b c <= 0 ->
        localeCompare a c <= 0) ->
     let shown :=
       Current.App.sortedPlayers localeCompare Current.App.SortByName
         players in
     (forall i j a b,
        (i < j)%nat -> shown !! i = Some a -> shown !! j = Some b ->
        localeCompare (Current.Supabase.name a) (Current.Supabase.name b)
        <= 0) /\
     (forall n,
        List.filter
          (fun p => (localeCompare (Current.Supabase.name p) n =? 0)
                    && (localeCompare n (Current.Supabase.name p) =? 0))
          shown =
        List.filter
          (fun p => (localeCompare (Current.Supabase.name p) n =? 0)
                    && (localeCompare n (Current.Supabase.name p) =? 0))
          players)) /\
  (forall (localeCompare : string -> string -> Z)
          (sortBy : Legacy.App.SortBy)
          (players : list Legacy.Supabase.NHLPlayer),
     Permutation (Legacy.App.sortedPlayers localeCompare sortBy players)
                 players) /\
  (forall (localeCompare : string -> string -> Z)
          (players : list Legacy.Supabase.NHLPlayer),
     (forall a b, localeCompare a b <= 0 \/ localeCompare b a <= 0) ->
     (forall a b c,
        localeCompare a b <= 0 -> localeCompare b c <= 0 ->
        localeCompare a c <= 0) ->
     let shown :=
       Legacy.App.sortedPlayers localeCompare Legacy.App.SortByName
         players in
     forall i j a b,
       (i < j)%nat -> shown !! i = Some a -> shown !! j = Some b ->
       localeCompare (Legacy.Supabase.name a) (Legacy.Supabase.name b) <= 0).
Proof.
  split; [|split; [|split]].
  - intros localeCompare sortBy players. apply sort_Permutation.
  - intros localeCompare players Htotal Htrans shown. split.
    + intros i j a b Hij Hi Hj.
      apply (StronglySorted_lookup
               (Js.inOrder (Current.App.compareRows localeCompare
                              Current.App.SortByName))
               shown i j a b); try assumption.
      apply sort_sorted.
      * intros x y. apply Htotal.
      * intros x y z. apply Htrans.
    + intros n. apply sort_stable. intros a b Ha Hb.
      apply andb_true_iff in Ha as [Ha1 Ha2].
      apply andb_true_iff in Hb as [Hb1 Hb2].
      apply Z.eqb_eq in Ha1, Ha2, Hb1, Hb2.
      unfold Current.App.compareRows.
      apply (Htrans _ n); lia.
  - intros localeCompare sortBy players. apply sort_Permutation.
  - intros localeCompare players Htotal Htrans shown i j a b Hij Hi Hj.
    apply (StronglySorted_lookup
             (Js.inOrder (Legacy.App.compareRows localeCompare
                            Legacy.App.SortByName))
             shown i j a b); try assumption.
    apply sort_sorted.
    + intros x y. apply Htotal.
    + intros x y z. apply Htrans.
Qed.

Lemma sortedPlayers_is_a_reordering_witness :
  Js.codeUnitCompare (Current.Supabase.name sampleRow)
                     (Current.Supabase.name idleRow) <= 0.
Proof.
  apply (proj1 (proj1 (proj2 sortedPlayers_is_a_reordering)
                  Js.codeUnitCompare samplePlayers
                  codeUnitCompare_total codeUnitCompare_trans)
           0%nat 1%nat sampleRow idleRow);
    [lia | reflexivity | reflexivity].
Defined.

Lemma guarded_ratio_value (a b : Z) :
  exists (n : Z) (d : positive),
    (Js.finiteValue (if b >? 0 then Js.div a b else Js.Finite 0) == n # d)%Q
    /\ Z.abs n <= Z.abs a /\ (Z.pos d <= b \/ Z.pos d = 1).
Proof.
  destruct b as [|p|p]; simpl.
  - exists 0, 1%positive. split; [reflexivity|]. lia.
  - exists a, p. split; [|lia].
    unfold Js.div. simpl. unfold Qdiv, Qinv, Qmult, Qeq. simpl. lia.
  - exists 0, 1%positive. split; [reflexivity|]. lia.
Qed.

(** Two averages of figures up to 100000 are equal or at least 10^-10
    apart, and neither exceeds 100000 in magnitude. *)
Lemma guarded_ratios_separated (a1 a2 b1 b2 : Z) :
  let qa := Js.finiteValue (if a2 >? 0 then Js.div a1 a2 else Js.Finite 0) in
  let qb := Js.finiteValue (if b2 >? 0 then Js.div b1 b2 else Js.Finite 0) in
  Z.abs a1 <= 100000 -> a2 <= 100000 ->
  Z.abs b1 <= 100000 -> b2 <= 100000 ->
  (qb <= qa)%Q ->
  ((qb == qa)%Q \/ (qb + (1 # 10000000000) <= qa)%Q) /\
  (- (100000 # 1) <= qa /\ qa <= 100000 # 1)%Q /\
  (- (100000 # 1) <= qb /\ qb <= 100000 # 1)%Q.
Proof.
  intros qa qb Ha1 Ha2 Hb1 Hb2. subst qa qb.
  destruct (guarded_ratio_value a1 a2) as (na & da & -> & Hna & Hda).
  destruct (guarded_ratio_value b1 b2) as (nb & db & -> & Hnb & Hdb).
  assert (Hda' : Z.pos da <= 100000) by lia.
  assert (Hdb' : Z.pos db <= 100000) by lia.
  assert (Hna' : Z.abs na <= 100000) by lia.
  assert (Hnb' : Z.abs nb <= 100000) by lia.
  clear Hna Hnb Hda Hdb Ha1 Ha2 Hb1 Hb2.
  unfold Qle, Qeq, Qplus, Qopp. simpl.
  rewrite ?Pos2Z.inj_mul. intros Hle.
  pose proof (Pos2Z.is_pos da). pose proof (Pos2Z.is_pos db).
  repeat split; nia.
Qed.

(** X14: for rows whose figures are at most 100000 in magnitude, with the
    key 'points' the displayed list is in descending order of the points
    average shown in the rows, and with the key 'shots' in descending order
    of the shots per game, a row without games counting as 0.  The
    averages are taken here as exact quotients, where the code compares
    their doubles; within this range the two orders are the same: the
    averages of two rows are equal or at least 10^-10 apart and at most
    100000 in magnitude, while the double of a number of that magnitude is
    less than 10^-11 away from it, so equal averages give equal doubles
    and unequal ones doubles in the same order. *)
Theorem sortedPlayers_descending_averages
  (localeCompare : string -> string -> Z)
  (players : list Current.Supabase.NHLPlayer) (i j : nat)
  (a b : Current.Supabase.NHLPlayer) :
  (forall p,
     In p players ->
     Z.abs (Current.Supabase.points_games p) <= 100000 /\
     Current.Supabase.points_total_games p <= 100000 /\
     Z.abs (Current.Supabase.shots_games p) <= 100000 /\
     Current.Supabase.shots_total_games p <= 100000) ->
  (i < j)%nat ->
  (Current.App.sortedPlayers localeCompare Current.App.SortByPoints players
     !! i = Some a ->
   Current.App.sortedPlayers localeCompare Current.App.SortByPoints players
     !! j = Some b ->
   exists qa qb,
     Current.PlayerRow.pointsAverage a = Js.Finite qa /\
     Current.PlayerRow.pointsAverage b = Js.Finite qb /\
     (qb <= qa)%Q /\
     ((qb == qa)%Q \/ (qb + (1 # 10000000000) <= qa)%Q) /\
     (- (100000 # 1) <= qa /\ qa <= 100000 # 1)%Q /\
     (- (100000 # 1) <= qb /\ qb <= 100000 # 1)%Q) /\
  (Current.App.sortedPlayers localeCompare Current.App.SortByShots players
     !! i = Some a ->
   Current.App.sortedPlayers localeCompare Current.App.SortByShots players
     !! j = Some b ->
   exists qa qb,
     Current.PlayerRow.shotsPerGame a = Js.Finite qa /\
     Current.PlayerRow.shotsPerGame b = Js.Finite qb /\
     (qb <= qa)%Q /\
     ((qb == qa)%Q \/ (qb + (1 # 10000000000) <= qa)%Q) /\
     (- (100000 # 1) <= qa /\ qa <= 100000 # 1)%Q /\
     (- (100000 # 1) <= qb /\ qb <= 100000 # 1)%Q).
Proof.
  intros Hrange Hij.
  assert (Hshown : forall sortBy k p,
            Current.App.sortedPlayers localeCompare sortBy players !! k
            = Some p -> In p players).
  { intros sortBy k p Hk. apply list_elem_of_lookup_2 in Hk.
    apply list_elem_of_In in Hk.
    exact (Permutation_in p
             (sort_Permutation
                (Current.App.compareRows localeCompare sortBy) players) Hk). }
  split; intros Hi Hj.
  - destruct (Hrange a (Hshown _ _ _ Hi)) as (Ha1 & Ha2 & _ & _).
    destruct (Hrange b (Hshown _ _ _ Hj)) as (Hb1 & Hb2 & _ & _).
    exists (Js.finiteValue (Current.PlayerRow.pointsAverage a)),
           (Js.finiteValue (Current.PlayerRow.pointsAverage b)).
    split; [apply guarded_ratio_Finite|].
    split; [apply guarded_ratio_Finite|].
    assert (Hle : (Js.finiteValue (Current.PlayerRow.pointsAverage b) <=
                   Js.finiteValue (Current.PlayerRow.pointsAverage a))%Q).
    { apply (sorted_by_key_descending
               (Current.App.compareRows localeCompare
                  Current.App.SortByPoints)
               (fun p => Js.finiteValue (Current.PlayerRow.pointsAverage p))
               players i j a b); try assumption.
      intros x y. apply current_points_inOrder. }
    split; [exact Hle|].
    exact (guarded_ratios_separated _ _ _ _ Ha1 Ha2 Hb1 Hb2 Hle).
  - destruct (Hrange a (Hshown _ _ _ Hi)) as (_ & _ & Ha1 & Ha2).
    destruct (Hrange b (Hshown _ _ _ Hj)) as (_ & _ & Hb1 & Hb2).
    exists (Js.finiteValue (Current.PlayerRow.shotsPerGame a)),
           (Js.finiteValue (Current.PlayerRow.shotsPerGame b)).
    split; [apply guarded_ratio_Finite|].
    split; [apply guarded_ratio_Finite|].
    assert (Hle : (Js.finiteValue (Current.PlayerRow.shotsPerGame b) <=
                   Js.finiteValue (Current.PlayerRow.shotsPerGame a))%Q).
    { apply (sorted_by_key_descending
               (Current.App.compareRows localeCompare
                  Current.App.SortByShots)
               (fun p => Js.finiteValue (Current.PlayerRow.shotsPerGame p))
               players i j a b); try assumption.
      intros x y. apply current_shots_inOrder. }
    split; [exact Hle|].
    exact (guarded_ratios_separated _ _ _ _ Ha1 Ha2 Hb1 Hb2 Hle).
Qed.

Lemma sortedPlayers_descending_averages_witness :
  exists qa qb,
    Current.PlayerRow.pointsAverage sampleRow = Js.Finite qa /\
    Current.PlayerRow.pointsAverage manualRow = Js.Finite qb /\
    (qb <= qa)%Q /\
    ((qb == qa)%Q \/ (qb + (1 # 10000000000) <= qa)%Q) /\
    (- (100000 # 1) <= qa /\ qa <= 100000 # 1)%Q /\
    (- (100000 # 1) <= qb /\ qb <= 100000 # 1)%Q.
Proof.
  refine (proj1 (sortedPlayers_descending_averages Js.codeUnitCompare
                   samplePlayers 0%nat 2%nat sampleRow manualRow
                   _ ltac:(lia)) eq_refl eq_refl).
  intros p Hp. simpl in Hp.
  destruct Hp as [<-|[<-|[<-|[]]]]; simpl; lia.
Defined.

(** ** The row of an updated player at the end of a pass *)

Lemma current_updated_row_stays (env : Env Current.NhlApi.Body)
  (w : World Current.Supabase.NHLPlayer)
  (before rest : list Current.Supabase.NHLPlayer)
  (player : Current.Supabase.NHLPlayer)
  (nhlStats : Current.NhlApi.PlayerStatsResult) :
  let turn := Current.App.worldAfter env before w in
  let result :=
    Current.App.handleRefreshStats env (before ++ player :: rest) w in
  NoDup (map Current.Supabase.id (before ++ player :: rest)) ->
  Current.Supabase.nhl_player_id player <> 0 ->
  Current.App.fetched env player turn = Some nhlStats ->
  Current.NhlApi.totalGames nhlStats <> 0 ->
  Current.App.stored env player turn = StoreOk ->
  forall j row,
    table w !! j = Some row ->
    Current.Supabase.id row = Current.Supabase.id player ->
    table (snd result) !! j =
    Some (Current.Supabase.assign
            (Current.App.refreshFields nhlStats
               (Current.App.stampedAt env player turn)) row).
Proof.
  intros turn result Hnd Hid Hfetch Hgames Hstore j row Hrow Hrowid.
  pose proof (current_outcome_updated env player turn nhlStats
                Hid Hfetch Hgames Hstore) as Ho.
  pose proof (other_ids_differ _ _ _ _ Hnd) as Hother.
  change (snd result)
    with (Current.App.worldAfter env (before ++ player :: rest) w).
  rewrite current_worldAfter_app,
    (current_worldAfter_cons env player rest). fold turn.
  apply current_pass_frame.
  - rewrite current_step_table, Ho, current_rowsUpdated_lookup.
    unfold turn. rewrite (current_pass_frame env before w j row Hrow).
    + simpl. now rewrite bool_decide_eq_true_2.
    + intros p Hp. rewrite Hrowid. apply Hother. apply in_app_iff. now left.
  - intros p Hp. simpl. rewrite Hrowid. apply Hother.
    apply in_app_iff. now right.
Qed.

Lemma legacy_updated_row_stays (env : Env Legacy.NhlApi.Body)
  (w : World Legacy.Supabase.NHLPlayer)
  (before rest : list Legacy.Supabase.NHLPlayer)
  (player : Legacy.Supabase.NHLPlayer)
  (nhlStats : Legacy.NhlApi.PlayerStatsResult) :
  let turn := Legacy.App.worldAfter env before w in
  let result :=
    Legacy.App.handleRefreshStats env (before ++ player :: rest) w in
  NoDup (map Legacy.Supabase.id (before ++ player :: rest)) ->
  Legacy.App.fetched env player turn = Some nhlStats ->
  Legacy.NhlApi.totalGames nhlStats <> 0 ->
  Legacy.App.stored env player turn = StoreOk ->
  forall j row,
    table w !! j = Some row ->
    Legacy.Supabase.id row = Legacy.Supabase.id player ->
    table (snd result) !! j =
    Some (Legacy.Supabase.assign
            (Legacy.App.refreshFields nhlStats
               (Legacy.App.stampedAt env player turn)) row).
Proof.
  intros turn result Hnd Hfetch Hgames Hstore j row Hrow Hrowid.
  pose proof (legacy_outcome_updated env player turn nhlStats
                Hfetch Hgames Hstore) as Ho.
  pose proof (other_ids_differ _ _ _ _ Hnd) as Hother.
  change (snd result)
    with (Legacy.App.worldAfter env (before ++ player :: rest) w).
  rewrite legacy_worldAfter_app,
    (legacy_worldAfter_cons env player rest). fold turn.
  apply legacy_pass_frame.
  - rewrite legacy_step_table, Ho, legacy_rowsUpdated_lookup.
    unfold turn. rewrite (legacy_pass_frame env before w j row Hrow).
    + simpl. now rewrite bool_decide_eq_true_2.
    + intros p Hp. rewrite Hrowid. apply Hother. apply in_app_iff. now left.
  - intros p Hp. simpl. rewrite Hrowid. apply Hother.
    apply in_app_iff. now right.
Qed.

(** X17: in a pass over a list with one entry per row id, of any length,
    a player whose fetch succeeds with games played and whose write the
    store accepts has, at the end of the pass, in every row of its id the
    fetched pointsGames, totalGames (both denominators) and shots and the
    clock reading of its turn as [updated_at]; every other column of the
    row is as before the pass.  Current revision first, then the legacy
    one. *)
Theorem updated_player_row_at_end_of_pass :
  (forall (env : Env Current.NhlApi.Body)
          (w : World Current.Supabase.NHLPlayer)
          (before rest : list Current.Supabase.NHLPlayer)
          (player : Current.Supabase.NHLPlayer)
          (nhlStats : Current.NhlApi.PlayerStatsResult),
     let turn := Current.App.worldAfter env before w in
     let result :=
       Current.App.handleRefreshStats env (before ++ player :: rest) w in
     NoDup (map Current.Supabase.id (before ++ player :: rest)) ->
     Current.Supabase.nhl_player_id player <> 0 ->
     Current.App.fetched env player turn = Some nhlStats ->
     Current.NhlApi.totalGames nhlStats <> 0 ->
     Current.App.stored env player turn = StoreOk ->
     forall j row,
       table w !! j = Some row ->
       Current.Supabase.id row = Current.Supabase.id player ->
       table (snd result) !! j =
       Some (Current.Supabase.mkNHLPlayer
               (Current.Supabase.id row)
               (Current.Supabase.nhl_player_id row)
               (Current.Supabase.name row)
               (Current.NhlApi.pointsGames nhlStats)
               (Current.NhlApi.totalGames nhlStats)
               (Current.Supabase.shots_threshold row)
               (Current.NhlApi.shots nhlStats)
               (Current.NhlApi.totalGames nhlStats)
               (Current.Supabase.created_at row)
               (getTime (Current.App.stampedAt env player turn)))) /\
  (forall (env : Env Legacy.NhlApi.Body)
          (w : World Legacy.Supabase.NHLPlayer)
          (before rest : list Legacy.Supabase.NHLPlayer)
          (player : Legacy.Supabase.NHLPlayer)
          (nhlStats : Legacy.NhlApi.PlayerStatsResult),
     let turn := Legacy.App.worldAfter env before w in
     let result :=
       Legacy.App.handleRefreshStats env (before ++ player :: rest) w in
     NoDup (map Legacy.Supabase.id (before ++ player :: rest)) ->
     Legacy.App.fetched env player turn = Some nhlStats ->
     Legacy.NhlApi.totalGames nhlStats <> 0 ->
     Legacy.App.stored env player turn = StoreOk ->
     forall j row,
       table w !! j = Some row ->
       Legacy.Supabase.id row = Legacy.Supabase.id player ->
       table (snd result) !! j =
       Some (Legacy.Supabase.mkNHLPlayer
               (Legacy.Supabase.id row)
               (Legacy.Supabase.name row)
               (Legacy.NhlApi.pointsGames nhlStats)
               (Legacy.NhlApi.totalGames nhlStats)
               (Legacy.Supabase.shots_threshold row)
               (Legacy.NhlApi.shots nhlStats)
               (Legacy.NhlApi.totalGames nhlStats)
               (Legacy.Supabase.created_at row)
               (getTime (Legacy.App.stampedAt env player turn)))).
Proof.
  split.
  - intros env w before rest player nhlStats turn result
           Hnd Hid Hfetch Hgames Hstore j row Hrow Hrowid.
    apply (current_updated_row_stays env w before rest player nhlStats
             Hnd Hid Hfetch Hgames Hstore j row Hrow Hrowid).
  - intros env w before rest player nhlStats turn result
           Hnd Hfetch Hgames Hstore j row Hrow Hrowid.
    apply (legacy_updated_row_stays env w before rest player nhlStats
             Hnd Hfetch Hgames Hstore j row Hrow Hrowid).
Qed.

Lemma updated_player_row_at_end_of_pass_witness :
  table (snd (Current.App.handleRefreshStats sampleProvider samplePlayers
                (mkWorld samplePlayers None []))) !! 2%nat =
  Some (Current.Supabase.mkNHLPlayer "row-1" 8478402 "Connor McDavid"
          15 10 (3 # 2) 40 10 1762041605000 1762041600000).
Proof.
  refine (proj1 updated_player_row_at_end_of_pass sampleProvider
            (mkWorld samplePlayers None []) [manualRow; idleRow] []
            sampleRow
            (Current.NhlApi.mkPlayerStatsResult 8478402 "Connor McDavid"
               15 10 40) _ _ eq_refl _ eq_refl 2%nat sampleRow
            eq_refl eq_refl).
  - repeat constructor; rewrite ?list_elem_of_In; simpl; intuition congruence.
  - discriminate.
  - discriminate.
Defined.

(** ** Requests of a legacy pass once the directory is cached *)

Lemma legacy_person_url_is_not_directory (playerId : Z) :
  Legacy.NhlApi.personUrl playerId <> Legacy.NhlApi.directoryUrl.
Proof.
  unfold Legacy.NhlApi.personUrl, Legacy.NhlApi.directoryUrl,
    Legacy.NhlApi.NHL_API_BASE.
  simpl. discriminate.
Qed.

Lemma legacy_fetch_cached_requests {R : Type} (env : Env Legacy.NhlApi.Body)
  (who : Legacy.NhlApi.IdOrName) (w : World R)
  (directory : Js.Map DirectoryEntry) :
  cachedPlayers w = Some directory ->
  cachedPlayers (snd (Legacy.NhlApi.getNHLPlayerStats env who w)) =
  Some directory /\
  exists urls,
    fetchedUrls (trace (snd (Legacy.NhlApi.getNHLPlayerStats env who w))) =
    fetchedUrls (trace w) ++ urls /\
    (length urls <= 1)%nat /\
    ~ In Legacy.NhlApi.directoryUrl urls.
Proof.
  intros Hc.
  assert (Hid : forall playerId,
            cachedPlayers
              (snd (Legacy.NhlApi.getNHLPlayerStats env
                      (Legacy.NhlApi.ById playerId) w)) = Some directory /\
            exists urls,
              fetchedUrls
                (trace (snd (Legacy.NhlApi.getNHLPlayerStats env
                               (Legacy.NhlApi.ById playerId) w))) =
              fetchedUrls (trace w) ++ urls /\
              (length urls <= 1)%nat /\
              ~ In Legacy.NhlApi.directoryUrl urls).
  { intros playerId. rewrite legacy_getNHLPlayerStats_run.
    assert (Hnot : ~ In Legacy.NhlApi.directoryUrl
                     [Legacy.NhlApi.personUrl playerId]).
    { intros [H|[]]. exact (legacy_person_url_is_not_directory _ H). }
    destruct (http env (trace w) (Legacy.NhlApi.personUrl playerId))
      as [|[] [[[[|player rest]|]]|]]; simpl; (split; [exact Hc|]);
      exists [Legacy.NhlApi.personUrl playerId];
      rewrite fetchedUrls_app; repeat split; auto. }
  destruct who as [playerId|playerName]; [apply Hid|].
  rewrite legacy_getNHLPlayerStats_byName.
  rewrite (legacy_search_cached_run env playerName w directory Hc).
  destruct (Js.sort _ _) as [|first others].
  - simpl. split; [exact Hc|]. exists []. rewrite app_nil_r.
    repeat split; auto.
  - apply Hid.
Qed.

Lemma legacy_step_cached_requests (env : Env Legacy.NhlApi.Body)
  (player : Legacy.Supabase.NHLPlayer)
  (w : World Legacy.Supabase.NHLPlayer)
  (directory : Js.Map DirectoryEntry) :
  cachedPlayers w = Some directory ->
  cachedPlayers (Legacy.App.worldAfter env [player] w) = Some directory /\
  exists urls,
    fetchedUrls (trace (Legacy.App.worldAfter env [player] w)) =
    fetchedUrls (trace w) ++ urls /\
    (length urls <= 1)%nat /\
    ~ In Legacy.NhlApi.directoryUrl urls.
Proof.
  intros Hc.
  destruct (legacy_fetch_cached_requests env
              (Legacy.NhlApi.ByName (Legacy.Supabase.name player))
              w directory Hc) as [Hc1 (urls & Hu & Hlen & Hnot)].
  rewrite <- (legacy_step_world env player (Legacy.App.mkSummary 0 [])).
  rewrite legacy_refreshPlayer_run.
  destruct (Legacy.App.outcome env player w); simpl;
    (split; [exact Hc1|]); exists urls;
    rewrite ?fetchedUrls_app, ?app_nil_r; simpl; rewrite ?app_nil_r;
    repeat split; auto.
Qed.

Lemma legacy_pass_cached_requests (env : Env Legacy.NhlApi.Body)
  (players : list Legacy.Supabase.NHLPlayer)
  (directory : Js.Map DirectoryEntry) :
  forall w : World Legacy.Supabase.NHLPlayer,
    cachedPlayers w = Some directory ->
    cachedPlayers (Legacy.App.worldAfter env players w) = Some directory /\
    exists urls,
      fetchedUrls (trace (Legacy.App.worldAfter env players w)) =
      fetchedUrls (trace w) ++ urls /\
      (length urls <= length players)%nat /\
      ~ In Legacy.NhlApi.directoryUrl urls.
Proof.
  induction players as [|player rest IH]; intros w Hc.
  - split; [exact Hc|]. exists []. rewrite app_nil_r.
    repeat split; auto.
  - rewrite (legacy_worldAfter_cons env player rest).
    destruct (legacy_step_cached_requests env player w directory Hc)
      as [Hc1 (urls1 & Hu1 & Hlen1 & Hnot1)].
    destruct (IH _ Hc1) as [Hc2 (urls2 & Hu2 & Hlen2 & Hnot2)].
    split; [exact Hc2|]. exists (urls1 ++ urls2).
    rewrite Hu2, Hu1, <- app_assoc. split; [reflexivity|].
    split.
    + rewrite length_app. simpl. lia.
    + rewrite in_app_iff. tauto.
Qed.

(** X16: a legacy pass started with the player directory cached keeps
    that cache, never requests the directory again, and sends at most one
    request per listed player (none for a player whose name matches no
    directory entry). *)
Theorem legacy_pass_reuses_cached_directory
  (env : Env Legacy.NhlApi.Body)
  (players : list Legacy.Supabase.NHLPlayer)
  (w : World Legacy.Supabase.NHLPlayer)
  (directory : Js.Map DirectoryEntry) :
  let after := snd (Legacy.App.handleRefreshStats env players w) in
  cachedPlayers w = Some directory ->
  cachedPlayers after = Some directory /\
  (exists urls,
     fetchedUrls (trace after) = fetchedUrls (trace w) ++ urls /\
     (length urls <= length players)%nat /\
     ~ In Legacy.NhlApi.directoryUrl urls) /\
  (forall player,
     (forall e, In e (Js.mapValues directory) ->
                Js.includes (Js.toLowerCase (entry_fullName e))
                  (Js.trim (Js.toLowerCase (Legacy.Supabase.name player)))
                = false) ->
     fetchedUrls (trace (Legacy.App.worldAfter env [player] w)) =
     fetchedUrls (trace w)).
Proof.
  intros after Hc.
  destruct (legacy_pass_cached_requests env players directory w Hc)
    as [Hc' Hurls].
  split; [exact Hc'|]. split; [exact Hurls|].
  intros player Hnone.
  rewrite <- (legacy_step_world env player (Legacy.App.mkSummary 0 [])).
  rewrite legacy_refreshPlayer_run.
  assert (Hfetch :
            Legacy.NhlApi.getNHLPlayerStats env
              (Legacy.NhlApi.ByName (Legacy.Supabase.name player)) w =
            (None, w)).
  { rewrite legacy_getNHLPlayerStats_byName.
    rewrite (legacy_search_cached_run env _ w directory Hc).
    unfold Legacy.NhlApi.matching.
    rewrite filter_none by exact Hnone. reflexivity. }
  unfold Legacy.App.outcome, Legacy.App.fetched.
  rewrite Hfetch. reflexivity.
Qed.

Lemma legacy_pass_reuses_cached_directory_witness :
  cachedPlayers
    (snd (Legacy.App.handleRefreshStats (answering (Legacy.NhlApi.mkBody
                                                      (Some [legacySkater])))
            [legacySkaterRow; legacyRookieRow]
            (mkWorld [legacySkaterRow; legacyRookieRow]
                     (Some sampleDirectory) []))) =
  Some sampleDirectory.
Proof.
  apply (legacy_pass_reuses_cached_directory
           (answering (Legacy.NhlApi.mkBody (Some [legacySkater])))
           [legacySkaterRow; legacyRookieRow]
           (mkWorld [legacySkaterRow; legacyRookieRow]
                    (Some sampleDirectory) [])
           sampleDirectory eq_refl).
Defined.

(** ** Submitting the draft of the add-player form *)

Lemma trimStart_blank (s : string) :
  Forall (fun c => Js.isWhiteSpace c = true) (list_ascii_of_string s) ->
  Js.trimStart s = "".
Proof.
  induction s as [|c s IH]; intros Hall; [reflexivity|].
  simpl in *. inversion Hall as [|? ? Hc Hrest]; subst.
  rewrite Hc. now apply IH.
Qed.

Lemma trimStart_keeps_visible (s : string) (c : ascii) :
  In c (list_ascii_of_string s) -> Js.isWhiteSpace c = false ->
  exists c', In c' (list_ascii_of_string (Js.trimStart s)) /\
             Js.isWhiteSpace c' = false.
Proof.
  induction s as [|d s IH]; intros Hin Hc; [destruct Hin|].
  simpl. destruct (Js.isWhiteSpace d) eqn:Hd.
  - destruct Hin as [->|Hin]; [congruence|]. now apply IH.
  - exists d. split; [now left|exact Hd].
Qed.

Lemma trimEnd_visible (s : string) (c : ascii) :
  In c (list_ascii_of_string s) -> Js.isWhiteSpace c = false ->
  Js.trimEnd s <> "".
Proof.
  induction s as [|d s IH]; intros Hin Hc; [destruct Hin|].
  simpl. destruct (Js.trimEnd s) eqn:Hs; [|discriminate].
  destruct Hin as [->|Hin].
  - rewrite Hc. discriminate.
  - exfalso. now apply IH.
Qed.

(** X9: the add-player form hands its draft to [onAdd] only when the
    name has a visible character: a draft whose name is empty or made of
    ASCII white space only is not submitted, in particular any draft
    whose selection was just cleared (clearing keeps the figures of the
    player selected before but empties the name); a draft whose name
    holds a character of the ASCII range that is not white space is
    handed on as it is, whatever its provider id. *)
Theorem blank_draft_is_not_submitted
  (newPlayer : Current.AddPlayerForm.NewPlayer) :
  (Forall (fun c => Js.isWhiteSpace c = true)
          (list_ascii_of_string (Current.AddPlayerForm.name newPlayer)) ->
   Current.AddPlayerForm.handleSubmit newPlayer = None) /\
  Current.AddPlayerForm.handleSubmit
    (Current.AddPlayerForm.clearSelection newPlayer) = None /\
  (forall c,
     In c (list_ascii_of_string (Current.AddPlayerForm.name newPlayer)) ->
     (nat_of_ascii c < 128)%nat ->
     Js.isWhiteSpace c = false ->
     Current.AddPlayerForm.handleSubmit newPlayer = Some newPlayer).
Proof.
  unfold Current.AddPlayerForm.handleSubmit, Js.strictEq, Js.trim.
  split; [|split].
  - intros Hall. now rewrite (trimStart_blank _ Hall).
  - reflexivity.
  - intros c Hin _ Hc.
    destruct (trimStart_keeps_visible _ c Hin Hc) as (c' & Hin' & Hc').
    pose proof (trimEnd_visible _ c' Hin' Hc') as Hne.
    now rewrite bool_decide_eq_false_2.
Qed.

Lemma blank_draft_is_not_submitted_witness :
  Current.AddPlayerForm.handleSubmit
    (Current.AddPlayerForm.mkNewPlayer 0 "   " 3 4 (3 # 2) 9 4) = None /\
  Current.AddPlayerForm.handleSubmit
    (Current.AddPlayerForm.mkNewPlayer 0 " Wayne Gretzky" 3 4 (3 # 2) 9 4) =
  Some (Current.AddPlayerForm.mkNewPlayer 0 " Wayne Gretzky" 3 4 (3 # 2) 9 4).
Proof.
  split.
  - apply (proj1 (blank_draft_is_not_submitted
                    (Current.AddPlayerForm.mkNewPlayer
                       0 "   " 3 4 (3 # 2) 9 4))).
    simpl. repeat constructor.
  - apply (proj2 (proj2 (blank_draft_is_not_submitted
                           (Current.AddPlayerForm.mkNewPlayer
                              0 " Wayne Gretzky" 3 4 (3 # 2) 9 4)))
             "W"%char).
    + simpl. auto.
    + apply Nat.ltb_lt. reflexivity.
    + reflexivity.
Defined.
